(** * Live weather dashboard: the request gateway and the history store

    A shallow embedding of [server.js] (the Express proxy in front of the
    OpenWeatherMap API) and of the browser script that keeps the search
    history in [localStorage], together with the properties of the two.

    Layout: the ECMAScript built-ins the program calls (module [JS]), the
    server (module [Server]), the browser script (modules [Client] and
    [Browser]), then the lemmas. *)

From Stdlib Require Import ZArith NArith List Bool Lia String Ascii.
From Stdlib Require Import Floats.SpecFloat DecimalString Sorted.
From Stdlib Require DecimalN.
Import ListNotations.

(* ===================================================================== *)
(** * ECMAScript values and built-ins used by the program                *)
(* ===================================================================== *)

Module JS.

(** A JavaScript string is a sequence of UTF-16 code units. *)
Definition jsstring := list N.

(** ASCII literals of the source text. *)
Fixpoint str (s : string) : jsstring :=
  match s with
  | EmptyString => []
  | String a r => N_of_ascii a :: str r
  end.

(** [a === b] on strings. *)
Fixpoint streq (a b : jsstring) : bool :=
  match a, b with
  | [], [] => true
  | x :: a', y :: b' => (x =? y)%N && streq a' b'
  | _, _ => false
  end.

(** [s.length]. *)
Definition strlen (s : jsstring) : N := N.of_nat (List.length s).

Fixpoint startsWith (s pat : jsstring) : bool :=
  match pat, s with
  | [], _ => true
  | p :: pat', c :: s' => (c =? p)%N && startsWith s' pat'
  | _ :: _, [] => false
  end.

(** [s.includes(pat)]. *)
Fixpoint includes (s pat : jsstring) : bool :=
  startsWith s pat ||
  match s with
  | [] => false
  | _ :: s' => includes s' pat
  end.

(** WhiteSpace and LineTerminator code points (all in the BMP), the set
    stripped by [String.prototype.trim] and skipped by [parseFloat]. *)
Definition isWhiteSpace (c : N) : bool :=
  ((9 <=? c) && (c <=? 13) || (c =? 32) || (c =? 160) || (c =? 5760)
   || (8192 <=? c) && (c <=? 8202) || (c =? 8232) || (c =? 8233)
   || (c =? 8239) || (c =? 8287) || (c =? 12288) || (c =? 65279))%N.

Fixpoint trimStart (s : jsstring) : jsstring :=
  match s with
  | [] => []
  | c :: r => if isWhiteSpace c then trimStart r else s
  end.

Definition trimEnd (s : jsstring) : jsstring := rev (trimStart (rev s)).

(** [s.trim()]. *)
Definition trim (s : jsstring) : jsstring := trimEnd (trimStart s).

(** [String.prototype.toLowerCase] follows the Unicode case tables, which
    the development does not fix: the program is modelled over any case
    mapping, and [Latin1Case] is the ECMAScript mapping on strings whose
    code units are below U+0100. *)
Class CaseMapping := { toLowerCase : jsstring -> jsstring }.

Definition lowerUnit (c : N) : N :=
  if ((65 <=? c) && (c <=? 90)
      || (192 <=? c) && (c <=? 222) && negb (c =? 215))%N
  then (c + 32)%N else c.

#[export] Instance Latin1Case : CaseMapping := {| toLowerCase := map lowerUnit |}.

(** Thrown values: every value the program catches is an [Error] object,
    of which only [message] is read. *)
Record Error := mkError { message : jsstring }.

Inductive Exn (A : Type) : Type :=
| Return (a : A)
| Throw (e : Error).
Arguments Return {A} a.
Arguments Throw {A} e.

Definition SyntaxError : Error := mkError (str "Unexpected token in JSON").
Definition URIError : Error := mkError (str "URI malformed").
Definition TypeError (what : string) : Error := mkError (str what).

(** ** Numbers *)

(** A Number is an IEEE 754 binary64 value. *)
Definition number := spec_float.
Definition prec : Z := 53.
Definition emax : Z := 1024.

Definition isNaN (x : number) : bool :=
  match x with S754_nan => true | _ => false end.

(** [a <= b] and [a >= b] on Numbers (false when either is NaN). *)
Definition num_le (a b : number) : bool := SFleb a b.
Definition num_ge (a b : number) : bool := SFleb b a.

(** The Number closest to [m * 10^e], negated when [neg] is set (round to
    nearest, ties to even). *)
Definition decimalToNumber (neg : bool) (m : N) (e : Z) : number :=
  match m with
  | N0 => S754_zero neg
  | Npos p =>
      match e with
      | Zneg k =>
          let '(q, e', l) :=
            SFdiv_core_binary prec emax (Zpos p) 0 (Z.pow_pos 10 k) 0 in
          binary_round_aux prec emax neg q e' l
      | _ =>
          match (Zpos p * 10 ^ e)%Z with
          | Zpos v => binary_round prec emax neg v 0
          | _ => S754_zero neg
          end
      end
  end.

Definition numberOfZ (z : Z) : number := binary_normalize prec emax z 0 false.

Definition isDigit (c : N) : bool := ((48 <=? c) && (c <=? 57))%N.

(** Leading decimal digits of [s] and what follows them. *)
Fixpoint spanDigits (s : jsstring) : jsstring * jsstring :=
  match s with
  | c :: r =>
      if isDigit c then let '(d, rest) := spanDigits r in (c :: d, rest)
      else ([], s)
  | [] => ([], [])
  end.

Definition digitsValue (d : jsstring) : N :=
  fold_left (fun acc c => (10 * acc + (c - 48))%N) d 0%N.

(** ExponentPart, when [s] starts with a complete one; otherwise the
    exponent is absent and nothing is consumed. *)
Definition exponentPart (s : jsstring) : Z * jsstring :=
  match s with
  | c :: r =>
      if ((c =? 101) || (c =? 69))%N then
        let '(neg, r') :=
          match r with
          | sg :: r1 =>
              if (sg =? 45)%N then (true, r1)
              else if (sg =? 43)%N then (false, r1) else (false, r)
          | [] => (false, r)
          end in
        let '(d, rest) := spanDigits r' in
        match d with
        | [] => (0%Z, s)
        | _ => ((if neg then - Z.of_N (digitsValue d) else Z.of_N (digitsValue d))%Z, rest)
        end
      else (0%Z, s)
  | [] => (0%Z, s)
  end.

(** The longest prefix of [s] that is a StrUnsignedDecimalLiteral other
    than [Infinity], as mantissa and decimal exponent, with the rest. *)
Definition unsignedDecimal (s : jsstring) : option (N * Z * jsstring) :=
  let '(ip, r1) := spanDigits s in
  let '(fp, r2) :=
    match r1 with
    | c :: r => if (c =? 46)%N then spanDigits r else ([], r1)
    | [] => ([], r1)
    end in
  match ip, fp with
  | [], [] => None
  | _, _ =>
      let '(e, rest) := exponentPart r2 in
      Some (digitsValue (ip ++ fp), (e - Z.of_nat (List.length fp))%Z, rest)
  end.

(** [parseFloat(s)] on a string argument. *)
Definition parseFloat (s : jsstring) : number :=
  let t := trimStart s in
  let '(neg, u) :=
    match t with
    | c :: r =>
        if (c =? 45)%N then (true, r)
        else if (c =? 43)%N then (false, r) else (false, t)
    | [] => (false, t)
    end in
  if startsWith u (str "Infinity") then S754_infinity neg
  else
    match unsignedDecimal u with
    | Some (m, e, _) => decimalToNumber neg m e
    | None => S754_nan
    end.

(** Decimal digits of a natural number ([String(n)] for an integer). *)
Definition decimal (n : N) : jsstring :=
  str (NilEmpty.string_of_uint (N.to_uint n)).

(** ** URI component coding *)

Definition isHighSurrogate (c : N) : bool := ((55296 <=? c) && (c <=? 56319))%N.
Definition isLowSurrogate (c : N) : bool := ((56320 <=? c) && (c <=? 57343))%N.

(** Letters, digits and [- _ . ! ~ * ' ( )]. *)
Definition isUnreserved (c : N) : bool :=
  ((65 <=? c) && (c <=? 90) || (97 <=? c) && (c <=? 122) || isDigit c
   || (c =? 45) || (c =? 95) || (c =? 46) || (c =? 33) || (c =? 126)
   || (c =? 42) || (c =? 39) || (c =? 40) || (c =? 41))%N.

Definition hexUpper (d : N) : N := if (d <? 10)%N then (48 + d)%N else (55 + d)%N.
Definition hexLower (d : N) : N := if (d <? 10)%N then (48 + d)%N else (87 + d)%N.

Definition percent (b : N) : jsstring := [37; hexUpper (b / 16); hexUpper (b mod 16)]%N.

(** UTF-8 octets of a code point. *)
Definition utf8 (cp : N) : list N :=
  (if cp <? 128 then [cp]
   else if cp <? 2048 then [192 + cp / 64; 128 + cp mod 64]
   else if cp <? 65536 then
     [224 + cp / 4096; 128 + (cp / 64) mod 64; 128 + cp mod 64]
   else
     [240 + cp / 262144; 128 + (cp / 4096) mod 64;
      128 + (cp / 64) mod 64; 128 + cp mod 64])%N.

Definition percentEncode (cp : N) : jsstring := flat_map percent (utf8 cp).

Definition exn_map {A B} (f : A -> B) (x : Exn A) : Exn B :=
  match x with
  | Return a => Return (f a)
  | Throw e => Throw e
  end.

(** [encodeURIComponent(s)]: throws [URIError] on an unpaired surrogate. *)
Fixpoint encodeURIComponent (s : jsstring) : Exn jsstring :=
  match s with
  | [] => Return []
  | c :: r =>
      if isUnreserved c then exn_map (cons c) (encodeURIComponent r)
      else if isHighSurrogate c then
        match r with
        | d :: r' =>
            if isLowSurrogate d then
              exn_map
                (app (percentEncode ((c - 55296) * 1024 + (d - 56320) + 65536)%N))
                (encodeURIComponent r')
            else Throw URIError
        | [] => Throw URIError
        end
      else if isLowSurrogate c then Throw URIError
      else exn_map (app (percentEncode c)) (encodeURIComponent r)
  end.

Definition hexValue (c : N) : option N :=
  (if isDigit c then Some (c - 48)
   else if (65 <=? c) && (c <=? 70) then Some (c - 55)
   else if (97 <=? c) && (c <=? 102) then Some (c - 87)
   else None)%N.

(** A URI component read left to right: a code unit copied as it is, or
    the octet of a [%XX] escape. *)
Inductive uriItem :=
| Unit (c : N)
| Octet (b : N).

Fixpoint uriItems (s : jsstring) : option (list uriItem) :=
  match s with
  | [] => Some []
  | c :: r =>
      if (c =? 37)%N then
        match r with
        | h1 :: h2 :: r' =>
            match hexValue h1, hexValue h2 with
            | Some a, Some b => option_map (cons (Octet (16 * a + b)%N)) (uriItems r')
            | _, _ => None
            end
        | _ => None
        end
      else option_map (cons (Unit c)) (uriItems r)
  end.

Definition isContinuation (b : N) : bool := ((128 <=? b) && (b <=? 191))%N.

(** Escaped octets must form well-formed UTF-8; each code point becomes
    one or two code units. *)
Fixpoint utf8Decode (items : list uriItem) : option jsstring :=
  match items with
  | [] => Some []
  | Unit c :: r => option_map (cons c) (utf8Decode r)
  | Octet b :: r =>
      if (b <? 128)%N then option_map (cons b) (utf8Decode r)
      else if ((194 <=? b) && (b <=? 223))%N then
        match r with
        | Octet b2 :: r' =>
            if isContinuation b2
            then option_map (cons ((b - 192) * 64 + (b2 - 128))%N) (utf8Decode r')
            else None
        | _ => None
        end
      else if ((224 <=? b) && (b <=? 239))%N then
        match r with
        | Octet b2 :: Octet b3 :: r' =>
            let cp := ((b - 224) * 4096 + (b2 - 128) * 64 + (b3 - 128))%N in
            if isContinuation b2 && isContinuation b3
               && negb (cp <? 2048)%N
               && negb (isHighSurrogate cp || isLowSurrogate cp)
            then option_map (cons cp) (utf8Decode r')
            else None
        | _ => None
        end
      else if ((240 <=? b) && (b <=? 244))%N then
        match r with
        | Octet b2 :: Octet b3 :: Octet b4 :: r' =>
            let cp := ((b - 240) * 262144 + (b2 - 128) * 4096
                       + (b3 - 128) * 64 + (b4 - 128))%N in
            if isContinuation b2 && isContinuation b3 && isContinuation b4
               && (65536 <=? cp)%N && (cp <=? 1114111)%N
            then
              option_map
                (fun t => (55296 + (cp - 65536) / 1024 :: 56320 + (cp - 65536) mod 1024 :: t)%N)
                (utf8Decode r')
            else None
        | _ => None
        end
      else None
  end.

(** [decodeURIComponent(s)]. *)
Definition decodeURIComponent (s : jsstring) : Exn jsstring :=
  match uriItems s with
  | None => Throw URIError
  | Some items =>
      match utf8Decode items with
      | None => Throw URIError
      | Some t => Return t
      end
  end.

(** ** JSON *)

(** The values [JSON.parse] produces. An object keeps its members in
    insertion order, one per key. *)
#[warnings="-register-all"]
Inductive json :=
| JNull
| JBool (b : bool)
| JNumber (x : number)
| JString (s : jsstring)
| JArray (items : list json)
| JObject (members : list (jsstring * json)).

(** [o[k] = v] on the member list of an object. *)
Fixpoint setProperty (ms : list (jsstring * json)) (k : jsstring) (v : json)
  : list (jsstring * json) :=
  match ms with
  | [] => [(k, v)]
  | (k', v') :: r =>
      if streq k' k then (k', v) :: r else (k', v') :: setProperty r k v
  end.

Definition objectOf (ms : list (jsstring * json)) : json :=
  JObject (fold_left (fun o kv => setProperty o (fst kv) (snd kv)) ms []).

Inductive token :=
| TLBrace | TRBrace | TLBracket | TRBracket | TColon | TComma
| TString (s : jsstring)
| TLiteral (w : jsstring).

(** The scanner is a finite-state machine over the code units. *)
Inductive lexstate :=
| LStart
| LWord (acc : jsstring)
| LStr (acc : jsstring)
| LEsc (acc : jsstring)
| LHex (acc : jsstring) (more : nat) (v : N).

Definition isJSONSpace (c : N) : bool :=
  ((c =? 9) || (c =? 10) || (c =? 13) || (c =? 32))%N.

Definition punctuator (c : N) : option token :=
  (if c =? 123 then Some TLBrace
   else if c =? 125 then Some TRBrace
   else if c =? 91 then Some TLBracket
   else if c =? 93 then Some TRBracket
   else if c =? 58 then Some TColon
   else if c =? 44 then Some TComma
   else None)%N.

(** Characters of [true], [false], [null] and of numbers. *)
Definition isWordChar (c : N) : bool :=
  (isDigit c || (97 <=? c) && (c <=? 122) || (65 <=? c) && (c <=? 90)
   || (c =? 43) || (c =? 45) || (c =? 46))%N.

Definition simpleEscape (c : N) : option N :=
  (if (c =? 34) || (c =? 92) || (c =? 47) then Some c
   else if c =? 98 then Some 8
   else if c =? 102 then Some 12
   else if c =? 110 then Some 10
   else if c =? 114 then Some 13
   else if c =? 116 then Some 9
   else None)%N.

Definition consTok (t : token) (r : option (list token)) : option (list token) :=
  option_map (cons t) r.

Fixpoint lex (st : lexstate) (s : jsstring) : option (list token) :=
  match s with
  | [] =>
      match st with
      | LStart => Some []
      | LWord acc => Some [TLiteral (rev acc)]
      | _ => None
      end
  | c :: r =>
      match st with
      | LStart =>
          if isJSONSpace c then lex LStart r
          else if (c =? 34)%N then lex (LStr []) r
          else
            match punctuator c with
            | Some t => consTok t (lex LStart r)
            | None => if isWordChar c then lex (LWord [c]) r else None
            end
      | LWord acc =>
          if isWordChar c then lex (LWord (c :: acc)) r
          else if isJSONSpace c then consTok (TLiteral (rev acc)) (lex LStart r)
          else
            match punctuator c with
            | Some t => consTok (TLiteral (rev acc)) (consTok t (lex LStart r))
            | None => None
            end
      | LStr acc =>
          if (c =? 34)%N then consTok (TString (rev acc)) (lex LStart r)
          else if (c =? 92)%N then lex (LEsc acc) r
          else if (c <? 32)%N then None
          else lex (LStr (c :: acc)) r
      | LEsc acc =>
          if (c =? 117)%N then lex (LHex acc 3 0%N) r
          else
            match simpleEscape c with
            | Some u => lex (LStr (u :: acc)) r
            | None => None
            end
      | LHex acc more v =>
          match hexValue c with
          | Some d =>
              match more with
              | O => lex (LStr ((16 * v + d)%N :: acc)) r
              | S more' => lex (LHex acc more' (16 * v + d)%N) r
              end
          | None => None
          end
      end
  end.

(** The JSON number grammar: an optional minus sign, an integer part
    without a superfluous leading zero, an optional fraction with at least
    one digit, an optional exponent. *)
Definition jsonNumber (w : jsstring) : option number :=
  let '(neg, u) :=
    match w with
    | c :: r => if (c =? 45)%N then (true, r) else (false, w)
    | [] => (false, w)
    end in
  let '(ip, r1) := spanDigits u in
  let intOk :=
    match ip with
    | [] => false
    | d :: more => negb (d =? 48)%N || match more with [] => true | _ => false end
    end in
  let '(fp, r2, fracOk) :=
    match r1 with
    | c :: r =>
        if (c =? 46)%N then
          let '(d, rest) := spanDigits r in
          (d, rest, match d with [] => false | _ => true end)
        else ([], r1, true)
    | [] => ([], r1, true)
    end in
  let '(e, rest) := exponentPart r2 in
  match rest with
  | [] =>
      if intOk && fracOk
      then Some (decimalToNumber neg (digitsValue (ip ++ fp)) (e - Z.of_nat (List.length fp)))
      else None
  | _ => None
  end.

Definition literalValue (w : jsstring) : option json :=
  if streq w (str "true") then Some (JBool true)
  else if streq w (str "false") then Some (JBool false)
  else if streq w (str "null") then Some JNull
  else option_map JNumber (jsonNumber w).

(** The parser is a pushdown automaton over the tokens: a frame is an
    array or an object under construction (items most recent first). *)
Inductive frame :=
| FArray (items : list json)
| FObject (members : list (jsstring * json)) (key : jsstring).

Inductive pstate :=
| PValue (stack : list frame)
| PFirstElem (stack : list frame)
| PArrNext (stack : list frame) (items : list json)
| PFirstKey (stack : list frame)
| PKey (stack : list frame) (members : list (jsstring * json))
| PColon (stack : list frame) (members : list (jsstring * json)) (key : jsstring)
| PObjNext (stack : list frame) (members : list (jsstring * json))
| PDone (v : json).

(** A complete value goes to the enclosing frame. *)
Definition pushValue (stack : list frame) (v : json) : pstate :=
  match stack with
  | [] => PDone v
  | FArray items :: st => PArrNext st (v :: items)
  | FObject ms k :: st => PObjNext st ((k, v) :: ms)
  end.

Definition valueStart (stack : list frame) (t : token) : option pstate :=
  match t with
  | TLBracket => Some (PFirstElem stack)
  | TLBrace => Some (PFirstKey stack)
  | TString s => Some (pushValue stack (JString s))
  | TLiteral w => option_map (pushValue stack) (literalValue w)
  | _ => None
  end.

Definition pstep (st : pstate) (t : token) : option pstate :=
  match st, t with
  | PValue stack, _ => valueStart stack t
  | PFirstElem stack, TRBracket => Some (pushValue stack (JArray []))
  | PFirstElem stack, _ => valueStart (FArray [] :: stack) t
  | PArrNext stack items, TComma => Some (PValue (FArray items :: stack))
  | PArrNext stack items, TRBracket => Some (pushValue stack (JArray (rev items)))
  | PFirstKey stack, TRBrace => Some (pushValue stack (JObject []))
  | PFirstKey stack, TString k => Some (PColon stack [] k)
  | PKey stack ms, TString k => Some (PColon stack ms k)
  | PColon stack ms k, TColon => Some (PValue (FObject ms k :: stack))
  | PObjNext stack ms, TComma => Some (PKey stack ms)
  | PObjNext stack ms, TRBrace => Some (pushValue stack (objectOf (rev ms)))
  | _, _ => None
  end.

Fixpoint pda (st : pstate) (ts : list token) : option json :=
  match ts with
  | [] => match st with PDone v => Some v | _ => None end
  | t :: r =>
      match pstep st t with
      | Some st' => pda st' r
      | None => None
      end
  end.

(** [JSON.parse(text)]. *)
Definition JSON_parse (text : jsstring) : Exn json :=
  match lex LStart text with
  | None => Throw SyntaxError
  | Some ts =>
      match pda (PValue []) ts with
      | Some v => Return v
      | None => Throw SyntaxError
      end
  end.

Definition hex4 (c : N) : jsstring :=
  [hexLower (c / 4096); hexLower ((c / 256) mod 16);
   hexLower ((c / 16) mod 16); hexLower (c mod 16)]%N.

Definition unicodeEscape (c : N) : jsstring := (92 :: 117 :: hex4 c)%N.

(** QuoteJSONString, one code unit that is not a surrogate. *)
Definition escapeUnit (c : N) : jsstring :=
  (if c =? 8 then [92; 98]
   else if c =? 9 then [92; 116]
   else if c =? 10 then [92; 110]
   else if c =? 12 then [92; 102]
   else if c =? 13 then [92; 114]
   else if c =? 34 then [92; 34]
   else if c =? 92 then [92; 92]
   else if c <? 32 then unicodeEscape c
   else [c])%N.

(** A surrogate pair is copied, an unpaired surrogate is escaped. *)
Fixpoint quoteBody (s : jsstring) : jsstring :=
  match s with
  | [] => []
  | c :: r =>
      if isHighSurrogate c then
        match r with
        | d :: r' =>
            if isLowSurrogate d then c :: d :: quoteBody r'
            else unicodeEscape c ++ quoteBody r
        | [] => unicodeEscape c
        end
      else if isLowSurrogate c then unicodeEscape c ++ quoteBody r
      else escapeUnit c ++ quoteBody r
  end.

Definition quoteJSONString (s : jsstring) : jsstring :=
  (34 :: quoteBody s ++ [34])%N.

Fixpoint joinComma (parts : list jsstring) : jsstring :=
  match parts with
  | [] => []
  | [p] => p
  | p :: more => p ++ (44%N :: joinComma more)
  end.

(** [JSON.stringify(a)] for an array [a] of strings, which is what the
    history functions serialise. *)
Definition JSON_stringify (a : list jsstring) : jsstring :=
  (91 :: joinComma (map quoteJSONString a) ++ [93])%N.

(** ** Serialising any parsed value *)

(** [Number::toString] for a finite number other than zero: the shortest
    decimal text that reads back as the number, laid out as the engine at
    hand does. *)
Class NumberToString := { finiteToString : number -> jsstring }.

(** An array index: the decimal digits, without a superfluous zero, of an
    integer below [2^32 - 1]. *)
Definition arrayIndex (key : jsstring) : option N :=
  match key with
  | [] => None
  | _ =>
      if forallb isDigit key then
        let n := digitsValue key in
        if streq (decimal n) key && (n <? 4294967295)%N then Some n else None
      else None
  end.

Fixpoint insertByIndex {A} (n : N) (member : jsstring * A)
    (sorted : list (N * (jsstring * A))) : list (N * (jsstring * A)) :=
  match sorted with
  | [] => [(n, member)]
  | (m, other) :: more =>
      if (n <? m)%N then (n, member) :: sorted
      else (m, other) :: insertByIndex n member more
  end.

(** The members of an object in the order in which its own properties
    are enumerated: those whose key is an array index by ascending index,
    then the others in the order of their creation. *)
Definition ownProperties {A} (members : list (jsstring * A)) : list (jsstring * A) :=
  map snd
    (fold_right
       (fun member sorted =>
          match arrayIndex (fst member) with
          | Some n => insertByIndex n member sorted
          | None => sorted
          end)
       [] members)
  ++ filter
       (fun member =>
          match arrayIndex (fst member) with Some _ => false | None => true end)
       members.

Section Serialising.
Context {NS : NumberToString}.

(** A Number in [JSON.stringify]: [null] unless it is finite, and both
    zeros as [0]. *)
Definition numberToJSON (x : number) : jsstring :=
  match x with
  | S754_zero _ => str "0"
  | S754_finite _ _ _ => finiteToString x
  | _ => str "null"
  end.

(** [JSON.stringify(v)] for a parsed value [v], which has no [toJSON]
    that is a function. *)
Fixpoint stringifyValue (v : json) : jsstring :=
  match v with
  | JNull => str "null"
  | JBool true => str "true"
  | JBool false => str "false"
  | JNumber x => numberToJSON x
  | JString s => quoteJSONString s
  | JArray items => (91 :: joinComma (map stringifyValue items) ++ [93])%N
  | JObject members =>
      (123 :: joinComma
                (map (fun member => quoteJSONString (fst member) ++ 58 :: snd member)
                   (ownProperties
                      (map (fun member => (fst member, stringifyValue (snd member)))
                         members)))
           ++ [125])%N
  end.

End Serialising.

End JS.

(* ===================================================================== *)
(** * Computations with state and exceptions                             *)
(* ===================================================================== *)

Module Control.
Import JS.

(** A computation runs against a state and either returns or throws. *)
Definition Comp (S A : Type) : Type := S -> Exn A * S.

Definition ret {S A} (a : A) : Comp S A := fun s => (Return a, s).

Definition bind {S A B} (m : Comp S A) (k : A -> Comp S B) : Comp S B :=
  fun s =>
    match m s with
    | (Return a, s') => k a s'
    | (Throw e, s') => (Throw e, s')
    end.

(** A pure step that may throw. *)
Definition lift {S A} (x : Exn A) : Comp S A := fun s => (x, s).

(** [try { body } catch (error) { handler }]. *)
Definition tryCatch {S A} (body : Comp S A) (handler : Error -> Comp S A) : Comp S A :=
  fun s =>
    match body s with
    | (Return a, s') => (Return a, s')
    | (Throw e, s') => handler e s'
    end.

Definition modify {S} (f : S -> S) : Comp S unit := fun s => (Return tt, f s).
Definition gets {S A} (f : S -> A) : Comp S A := fun s => (Return (f s), s).

Declare Scope comp_scope.
Delimit Scope comp_scope with comp.
Notation "x <- m ;; k" := (bind m (fun x => k))
  (at level 61, m at next level, right associativity) : comp_scope.
Notation "' p <- m ;; k" := (bind m (fun x => let 'p := x in k))
  (at level 61, p pattern, m at next level, right associativity) : comp_scope.
Notation "m ;;; k" := (bind m (fun _ => k))
  (at level 61, right associativity) : comp_scope.

End Control.

(* ===================================================================== *)
(** * The server ([server.js])                                           *)
(* ===================================================================== *)

Module Server.
Import JS Control.
Local Open Scope comp_scope.

Definition API_BASE_URL : jsstring := str "https://api.openweathermap.org/data/2.5".
Definition DEFAULT_UNITS : jsstring := str "metric".
Definition REQUEST_TIMEOUT : N := 10000.

(** ** The world outside the process *)

(** What happens to one [https.get]: the socket fails (an ['error'] event
    carrying the runtime's error), it stays idle for [REQUEST_TIMEOUT]
    milliseconds, or the response ends with a status, after its body has
    arrived in chunks. A chunk is given as the string its conversion
    yields, which is the text of its bytes decoded on their own. *)
Inductive Reply :=
| SocketError (e : Error)
| IdleTimeout
| End (statusCode : N) (chunks : list jsstring).

(** [data += chunk] for each chunk in turn, from [data = '']. *)
Definition accumulate (chunks : list jsstring) : jsstring :=
  fold_left (fun data chunk => data ++ chunk) chunks [].

(** The environment of a run: the credential of [process.env], the
    upstream service, and the instant at which the request to a URL
    settles. *)
Record World := {
  API_KEY : jsstring;
  respond : jsstring -> Reply;
  clock : jsstring -> N
}.

(** A promise that has run to its settlement. *)
Record Promise := {
  outcome : Exn json;
  settledAt : N
}.

(** [Promise.all([p1, p2])]: both results, or the rejection that came
    first. *)
Definition Promise_all (p1 p2 : Promise) : Exn (json * json) :=
  match outcome p1, outcome p2 with
  | Return a, Return b => Return (a, b)
  | Throw e, Return _ => Throw e
  | Return _, Throw e => Throw e
  | Throw e1, Throw e2 =>
      if (settledAt p2 <? settledAt p1)%N then Throw e2 else Throw e1
  end.

(** A handler runs against the list of upstream requests issued so far.
    Console output is not modelled. *)
Definition M (A : Type) : Type := Comp (list jsstring) A.

(** ** Responses *)

(** An answer: the call [res.status(status).json(body)] of a handler, with
    the value handed to it; a file of [express.static]; an error page of
    Express; or the answer Express itself gives to [OPTIONS] on a path that
    routes match, which lists [GET] and [HEAD] as the methods allowed. *)
Inductive Response :=
| JsonResponse (status : N) (body : json)
| StaticFile (name : jsstring)
| ErrorPage (status : N)
| Allowed.

(** [res.status(code).json(body)] and [res.json(body)]. *)
Definition res_status_json (code : N) (body : json) : M Response :=
  ret (JsonResponse code body).
Definition res_json (body : json) : M Response := res_status_json 200 body.

Definition errorBody (msg : jsstring) : json := JObject [(str "error", JString msg)].

(** What Express sends as the body of an answer of a handler: [res.json]
    serialises the value handed to it with [JSON.stringify]. *)
Definition sentBody {NS : NumberToString} (res : Response) : option jsstring :=
  match res with
  | JsonResponse _ body => Some (stringifyValue body)
  | _ => None
  end.

(** The status of an answer (of a file: for a request that is neither
    conditional nor for a range). *)
Definition statusOf (r : Response) : N :=
  match r with
  | JsonResponse s _ => s
  | StaticFile _ => 200%N
  | ErrorPage s => s
  | Allowed => 200%N
  end.

(** ** Query values

    [req.query.name] is [undefined] for an absent parameter, a string for
    a parameter given once and an array of strings for a repeated one
    (nested objects are not modelled). *)
Inductive qvalue :=
| Undefined
| QString (s : jsstring)
| QArray (items : list jsstring).

(** [!v]. *)
Definition isFalsy (v : qvalue) : bool :=
  match v with
  | Undefined => true
  | QString [] => true
  | _ => false
  end.

(** ToString, as applied by [parseFloat] and by template literals. *)
Definition toString (v : qvalue) : jsstring :=
  match v with
  | Undefined => str "undefined"
  | QString s => s
  | QArray items => joinComma items
  end.

(** ** The functions of [server.js] *)

(* function isValidCoordinate(lat, lon) *)
Definition isValidCoordinate (lat lon : qvalue) : bool :=
  let latitude := parseFloat (toString lat) in
  let longitude := parseFloat (toString lon) in
  negb (isNaN latitude) && negb (isNaN longitude) &&
  num_ge latitude (numberOfZ (-90)) && num_le latitude (numberOfZ 90) &&
  num_ge longitude (numberOfZ (-180)) && num_le longitude (numberOfZ 180).

Section WithCaseMapping.
Context {CM : CaseMapping}.

(* function getErrorMessage(error) *)
Definition getErrorMessage (error : Error) : jsstring :=
  let message := toLowerCase (message error) in
  if includes message (str "404") || includes message (str "not found") then
    str "City not found. Please check the spelling."
  else if includes message (str "401") || includes message (str "unauthorized") then
    str "Weather service authentication failed."
  else if includes message (str "timeout") then
    str "Weather service request timed out. Please try again."
  else if includes message (str "network") || includes message (str "enotfound") then
    str "Unable to connect to weather service."
  else
    str "Weather service temporarily unavailable. Please try again.".

(** How the promise of [makeRequest] settles for a given reply. *)
Definition settle (reply : Reply) : Exn json :=
  match reply with
  | SocketError e => Throw e
  | IdleTimeout =>
      Throw (mkError (str "Request timeout - weather service took too long to respond"))
  | End statusCode chunks =>
      let data := accumulate chunks in
      if (statusCode =? 200)%N then
        match JSON_parse data with
        | Return jsonData => Return jsonData
        | Throw _ => Throw (mkError (str "Invalid JSON response from weather API"))
        end
      else
        Throw (mkError (str "Weather API returned status " ++ decimal statusCode
                        ++ str ": " ++ data))
  end.

(* function makeRequest(url): the request is issued when the function is
   called; the promise settles later. *)
Definition makeRequest (w : World) (url : jsstring) : M Promise :=
  fun calls =>
    (Return {| outcome := settle (respond w url); settledAt := clock w url |},
     calls ++ [url]).

(** [await p]. *)
Definition await {A} (settled : Exn A) : M A := lift settled.

(** Reading a property of a parsed value: [null] has none. *)
Definition readProperty (v : json) (name : string) : Exn unit :=
  match v with
  | JNull => Throw (TypeError ("Cannot read properties of null (reading '" ++ name ++ "')"))
  | _ => Return tt
  end.

(* app.get('/api/weather/:city', async (req, res) => ...) *)
Definition weatherByCity (w : World) (city : jsstring) : M Response :=
  tryCatch
    (if match city with [] => true | _ => false end
        || (strlen (trim city) =? 0)%N
     then
       res_status_json 400 (errorBody (str "City name is required and cannot be empty."))
     else
       let sanitizedCity := trim city in
       if (100 <? strlen sanitizedCity)%N then
         res_status_json 400 (errorBody (str "City name is too long."))
       else
         q1 <- lift (encodeURIComponent sanitizedCity) ;;
         let currentWeatherUrl :=
           API_BASE_URL ++ str "/weather?q=" ++ q1 ++ str "&appid=" ++ API_KEY w
           ++ str "&units=" ++ DEFAULT_UNITS in
         q2 <- lift (encodeURIComponent sanitizedCity) ;;
         let forecastUrl :=
           API_BASE_URL ++ str "/forecast?q=" ++ q2 ++ str "&appid=" ++ API_KEY w
           ++ str "&units=" ++ DEFAULT_UNITS in
         p1 <- makeRequest w currentWeatherUrl ;;
         p2 <- makeRequest w forecastUrl ;;
         '(currentWeather, forecast) <- await (Promise_all p1 p2) ;;
         lift (readProperty currentWeather "name") ;;;
         res_json (JObject [(str "currentWeather", currentWeather);
                            (str "forecast", forecast)]))
    (fun error => res_status_json 500 (errorBody (getErrorMessage error))).

(* app.get('/api/weather/coords', async (req, res) => ...) *)
Definition weatherByCoords (w : World) (lat lon : qvalue) : M Response :=
  tryCatch
    (if isFalsy lat || isFalsy lon then
       res_status_json 400 (errorBody (str "Latitude and longitude are required."))
     else if negb (isValidCoordinate lat lon) then
       res_status_json 400
         (errorBody (str "Invalid coordinates. Latitude must be -90 to 90, longitude must be -180 to 180."))
     else
       let currentWeatherUrl :=
         API_BASE_URL ++ str "/weather?lat=" ++ toString lat ++ str "&lon="
         ++ toString lon ++ str "&appid=" ++ API_KEY w
         ++ str "&units=" ++ DEFAULT_UNITS in
       let forecastUrl :=
         API_BASE_URL ++ str "/forecast?lat=" ++ toString lat ++ str "&lon="
         ++ toString lon ++ str "&appid=" ++ API_KEY w
         ++ str "&units=" ++ DEFAULT_UNITS in
       p1 <- makeRequest w currentWeatherUrl ;;
       p2 <- makeRequest w forecastUrl ;;
       '(currentWeather, forecast) <- await (Promise_all p1 p2) ;;
       lift (readProperty currentWeather "name") ;;;
       res_json (JObject [(str "currentWeather", currentWeather);
                          (str "forecast", forecast)]))
    (fun error => res_status_json 500 (errorBody (getErrorMessage error))).

End WithCaseMapping.

(** ** Routing

    Express tries the layers in the order of their registration and runs
    the first whose path matches and which handles the method; the
    handlers above never pass control on. A path pattern is matched segment by segment against the raw
    path, literals without regard to ASCII case, a parameter against any
    non-empty segment; one trailing slash is allowed. *)
Inductive Method := GET | HEAD | OPTIONS | OtherMethod.

(** A request: its method ([OtherMethod] stands for [POST], [PUT], [PATCH]
    and [DELETE]), its path and its parsed query. Headers are not
    modelled, so a request is neither conditional nor for a range. *)
Record Request := {
  method : Method;
  pathname : jsstring;
  query : list (jsstring * qvalue)
}.

(** [req.query.name]. *)
Fixpoint queryParam (q : list (jsstring * qvalue)) (name : jsstring) : qvalue :=
  match q with
  | [] => Undefined
  | (k, v) :: r => if streq k name then v else queryParam r name
  end.

Inductive segment :=
| Lit (s : jsstring)
| Param (name : jsstring).

Fixpoint splitPath (s : jsstring) : list jsstring :=
  match s with
  | [] => [[]]
  | c :: r =>
      if (c =? 47)%N then [] :: splitPath r
      else
        match splitPath r with
        | h :: t => (c :: h) :: t
        | [] => [[c]]
        end
  end.

Definition asciiLower (c : N) : N :=
  if ((65 <=? c) && (c <=? 90))%N then (c + 32)%N else c.

Definition eqIgnoreCase (a b : jsstring) : bool :=
  streq (map asciiLower a) (map asciiLower b).

Fixpoint matchSegments (pat : list segment) (segs : list jsstring)
  : option (list (jsstring * jsstring)) :=
  match pat, segs with
  | [], [] => Some []
  | Lit l :: pat', s :: segs' =>
      if eqIgnoreCase l s then matchSegments pat' segs' else None
  | Param name :: pat', s :: segs' =>
      match s with
      | [] => None
      | _ => option_map (cons (name, s)) (matchSegments pat' segs')
      end
  | _, _ => None
  end.

(** Without one trailing empty segment (the optional final slash). *)
Fixpoint dropTrailingSlash (segs : list jsstring) : list jsstring :=
  match segs with
  | [] => []
  | [[]] => []
  | s :: r => s :: dropTrailingSlash r
  end.

Definition matchPath (pat : list segment) (path : jsstring)
  : option (list (jsstring * jsstring)) :=
  match splitPath path with
  | [] :: segs => matchSegments pat (dropTrailingSlash segs)
  | _ => None
  end.

Inductive Handler := ByCity | ByCoords.

(** The routes of [server.js], in the order of the [app.get] calls. *)
Definition routes : list (list segment * Handler) :=
  [ ([Lit (str "api"); Lit (str "weather"); Param (str "city")], ByCity);
    ([Lit (str "api"); Lit (str "weather"); Lit (str "coords")], ByCoords) ].

Fixpoint firstMatch (rs : list (list segment * Handler)) (path : jsstring)
  : option (Handler * list (jsstring * jsstring)) :=
  match rs with
  | [] => None
  | (pat, h) :: more =>
      match matchPath pat path with
      | Some params => Some (h, params)
      | None => firstMatch more path
      end
  end.

(** Express decodes each parameter with [decodeURIComponent]. *)
Fixpoint decodeParams (ps : list (jsstring * jsstring))
  : Exn (list (jsstring * jsstring)) :=
  match ps with
  | [] => Return []
  | (k, v) :: r =>
      match decodeURIComponent v with
      | Throw e => Throw e
      | Return v' => exn_map (cons (k, v')) (decodeParams r)
      end
  end.

(** [req.params.name] (the empty string stands for a parameter the route
    lacks). *)
Fixpoint param (ps : list (jsstring * jsstring)) (name : jsstring) : jsstring :=
  match ps with
  | [] => []
  | (k, v) :: r => if streq k name then v else param r name
  end.

(** Modelled from the README ("Project Structure"): the directory given
    to [express.static], which is not part of the sources, holds
    [index.html], [script.js] and [style.css]. The layer serves a file
    whose path is requested and lets every other request through. *)
Definition express_static (path : jsstring) : option jsstring :=
  if streq path (str "/") || streq path (str "/index.html") then Some (str "index.html")
  else if streq path (str "/script.js") then Some (str "script.js")
  else if streq path (str "/style.css") then Some (str "style.css")
  else None.

(** For [OPTIONS], which no route handles, the router goes through all
    the routes and gathers the methods of those whose path matches:
    whether there is one, or the failure of decoding the parameters of a
    matching route. *)
Fixpoint allowedBy (rs : list (list segment * Handler)) (path : jsstring) : Exn bool :=
  match rs with
  | [] => Return false
  | (pat, _) :: more =>
      match matchPath pat path with
      | None => allowedBy more path
      | Some raw =>
          match decodeParams raw with
          | Throw e => Throw e
          | Return _ => exn_map (fun _ => true) (allowedBy more path)
          end
      end
  end.

(** Where a request ends up. [express.static] passes on every request
    that is not a [GET] or a [HEAD]. *)
Inductive Dispatch :=
| ToStatic (file : jsstring)
| ToHandler (h : Handler) (params : list (jsstring * jsstring))
| ToOptions
| DecodeFailed
| Unmatched.

Definition dispatch (req : Request) : Dispatch :=
  match method req with
  | OtherMethod => Unmatched
  | OPTIONS =>
      match allowedBy routes (pathname req) with
      | Throw _ => DecodeFailed
      | Return true => ToOptions
      | Return false => Unmatched
      end
  | _ =>
      match express_static (pathname req) with
      | Some file => ToStatic file
      | None =>
          match firstMatch routes (pathname req) with
          | None => Unmatched
          | Some (h, raw) =>
              match decodeParams raw with
              | Throw _ => DecodeFailed
              | Return params => ToHandler h params
              end
          end
      end
  end.

(** A handler run from the start: its response and the upstream requests
    it issued. (Nothing escapes the handlers above, which catch every
    exception.) *)
Definition runHandler (m : M Response) : Response * list jsstring :=
  match m [] with
  | (Return res, calls) => (res, calls)
  | (Throw _, calls) => (ErrorPage 500, calls)
  end.

(** The application: the response to a request and the upstream requests
    issued while serving it. *)
Definition app {CM : CaseMapping} (w : World) (req : Request)
  : Response * list jsstring :=
  match dispatch req with
  | ToStatic file => (StaticFile file, [])
  | ToHandler ByCity params =>
      runHandler (weatherByCity w (param params (str "city")))
  | ToHandler ByCoords _ =>
      runHandler (weatherByCoords w (queryParam (query req) (str "lat"))
                                    (queryParam (query req) (str "lon")))
  | ToOptions => (Allowed, [])
  | DecodeFailed => (ErrorPage 400, [])
  | Unmatched => (ErrorPage 404, [])
  end.

End Server.

(* ===================================================================== *)
(** * The browser script: the search history                             *)
(* ===================================================================== *)

Module Client.
Import JS Control.
Local Open Scope comp_scope.

Definition MAX_HISTORY_ITEMS : nat := 10.

(** What the history functions read and write: the [localStorage] entry
    ['weatherHistory'] ([None] when [getItem] gives [null]), the buttons
    of [#history-container] (each stands for the value it was made from,
    in document order) and the [alert]s shown. *)
Record Page := {
  weatherHistory : option jsstring;
  historyContainer : list json;
  alerts : list jsstring
}.

Definition C (A : Type) : Type := Comp Page A.

(** [localStorage.getItem('weatherHistory') || '[]']. *)
Definition getItemOrEmpty (p : Page) : jsstring :=
  match weatherHistory p with
  | None => str "[]"
  | Some [] => str "[]"
  | Some s => s
  end.

(** [localStorage.setItem('weatherHistory', v)]. *)
Definition setItem (v : jsstring) (p : Page) : Page :=
  {| weatherHistory := Some v;
     historyContainer := historyContainer p;
     alerts := alerts p |}.

Definition setContainer (buttons : list json) (p : Page) : Page :=
  {| weatherHistory := weatherHistory p;
     historyContainer := buttons;
     alerts := alerts p |}.

Definition alert (msg : jsstring) (p : Page) : Page :=
  {| weatherHistory := weatherHistory p;
     historyContainer := historyContainer p;
     alerts := alerts p ++ [msg] |}.

(** The code points of a string, each as a string. *)
Fixpoint codePoints (s : jsstring) : list jsstring :=
  match s with
  | [] => []
  | c :: r =>
      match r with
      | d :: r' =>
          if isHighSurrogate c && isLowSurrogate d
          then [c; d] :: codePoints r'
          else [c] :: codePoints r
      | [] => [[c]]
      end
  end.

(** The values [for (const city of history)] goes through. *)
Definition iterate (history : json) : Exn (list json) :=
  match history with
  | JArray items => Return items
  | JString s => Return (map JString (codePoints s))
  | _ => Throw (TypeError "history is not iterable")
  end.

(** Whether a parsed value has a conversion to a string, which
    [setAttribute] and a template literal apply to their argument. An
    object with a member [toString] of its own has none, since that member
    is no function and the inherited [valueOf] gives the object back; an
    array is joined from the conversions of its elements ([null] stands
    for nothing); every other value has one. *)
Fixpoint hasString (v : json) : bool :=
  match v with
  | JArray items => forallb hasString items
  | JObject members =>
      negb (existsb (fun member => streq (fst member) (str "toString")) members)
  | _ => true
  end.

(** [historyContainerEl.append(historyBtn)]. *)
Definition appendButton (city : json) (p : Page) : Page :=
  setContainer (historyContainer p ++ [city]) p.

(** The loop of [renderHistory]: the button of each entry in turn, which
    is made from the conversion of the entry to a string. *)
Fixpoint appendButtons (items : list json) : C unit :=
  match items with
  | [] => ret tt
  | city :: more =>
      if hasString city then
        modify (appendButton city) ;;;
        appendButtons more
      else lift (Throw (TypeError "Cannot convert object to primitive value"))
  end.

(* function renderHistory() *)
Definition renderHistory : C unit :=
  stored <- gets getItemOrEmpty ;;
  history <- lift (JSON_parse stored) ;;
  modify (setContainer []) ;;;
  items <- lift (iterate history) ;;
  appendButtons items.

Section WithCaseMapping.
Context {CM : CaseMapping}.

(** [items.filter(existing => existing.toLowerCase() !== name.toLowerCase())]:
    only strings have [toLowerCase]. *)
Fixpoint filterOthers (name : jsstring) (items : list json) : Exn (list jsstring) :=
  match items with
  | [] => Return []
  | JString existing :: r =>
      match filterOthers name r with
      | Throw e => Throw e
      | Return kept =>
          if negb (streq (toLowerCase existing) (toLowerCase name))
          then Return (existing :: kept) else Return kept
      end
  | _ :: _ => Throw (TypeError "toLowerCase is not a function")
  end.

(** [history.filter(...)]: only arrays have [filter]. *)
Definition filterHistory (name : jsstring) (history : json) : Exn (list jsstring) :=
  match history with
  | JArray items => filterOthers name items
  | _ => Throw (TypeError "history.filter is not a function")
  end.

(* function saveCityToHistory(city) *)
Definition saveCityToHistory (city : jsstring) : C unit :=
  historyString <- gets getItemOrEmpty ;;
  history <- lift (JSON_parse historyString) ;;
  history <- lift (filterHistory city history) ;;
  let history := city :: history in
  let history :=
    if (MAX_HISTORY_ITEMS <? List.length history)%nat
    then firstn MAX_HISTORY_ITEMS history else history in
  modify (setItem (JSON_stringify history)) ;;;
  renderHistory.

(* function deleteCity(cityName) *)
Definition deleteCity (cityName : jsstring) : C unit :=
  tryCatch
    (historyString <- gets getItemOrEmpty ;;
     history <- lift (JSON_parse historyString) ;;
     history <- lift (filterHistory cityName history) ;;
     modify (setItem (JSON_stringify history)) ;;;
     renderHistory)
    (fun error => modify (alert (str "Failed to delete city. Please try again."))).

End WithCaseMapping.

(** The history a page holds, when its stored text is an array of
    strings. *)
Definition asStrings (v : json) : option (list jsstring) :=
  match v with
  | JArray items =>
      fold_right
        (fun item acc =>
           match item, acc with
           | JString s, Some l => Some (s :: l)
           | _, _ => None
           end)
        (Some []) items
  | _ => None
  end.

Definition storedHistory (p : Page) : option (list jsstring) :=
  match JSON_parse (getItemOrEmpty p) with
  | Return v => asStrings v
  | Throw _ => None
  end.

Section ErrorsShown.
Context {CM : CaseMapping}.

(* function getUserFriendlyError(error) *)
Definition getUserFriendlyError (error : Error) : jsstring :=
  let message := toLowerCase (message error) in
  if includes message (str "404") || includes message (str "not found") then
    str "City not found. Please check the spelling and try again."
  else if includes message (str "network") || includes message (str "fetch") then
    str "No internet connection. Please check your connection and try again."
  else if includes message (str "timeout") then
    str "Request timed out. Please try again."
  else
    match JS.message error with
    | [] => str "Something went wrong. Please try again."
    | text => text
    end.

End ErrorsShown.

End Client.

(* ===================================================================== *)
(** * The browser script: showing the weather                            *)
(* ===================================================================== *)

Module Browser.
Import JS Control Client.
Local Open Scope comp_scope.

Definition FORECAST_INTERVAL : N := 8.

(** A value read from a parsed payload; [None] is [undefined]. *)
Definition value := option json.

(** Built-ins whose results depend on the engine, the locale and the
    clock: [String(x)] and [Number(s)] for a Number [x] and a string [s],
    [Math.round], [new Date(v).toLocaleDateString()],
    [new Date().toLocaleDateString()], and [JSON.stringify([v])] for a
    value [v] that is not a string. The script is modelled over any of
    them. *)
Class Engine := {
  numberToString : number -> jsstring;
  stringToNumber : jsstring -> number;
  mathRound : number -> number;
  dateText : value -> jsstring;
  today : jsstring;
  stringifyOne : value -> jsstring
}.

(** [o[key]] on the members of a parsed object. *)
Fixpoint member (ms : list (jsstring * json)) (key : jsstring) : value :=
  match ms with
  | [] => None
  | (k, v) :: r => if streq k key then Some v else member r key
  end.

Definition typeErrorRead (name : string) : Error :=
  TypeError ("Cannot read properties of undefined or null (reading '" ++ name ++ "')").

(** [v.name], for the names the script reads ([name], [main], [temp],
    [humidity], [wind], [speed], [list], [dt_txt], [weather], [icon],
    [description], [error], [currentWeather], [forecast]): an own member
    of an object, [undefined] on any other value, which has no property of
    these names; [undefined] and [null] have no properties at all. *)
Definition getProp (v : value) (name : string) : Exn value :=
  match v with
  | None | Some JNull => Throw (typeErrorRead name)
  | Some (JObject ms) => Return (member ms (str name))
  | Some _ => Return None
  end.

(** [v[i]] for an index [i]. *)
Definition getIndex (v : value) (i : N) : Exn value :=
  match v with
  | None | Some JNull => Throw (typeErrorRead "index")
  | Some (JArray items) => Return (nth_error items (N.to_nat i))
  | Some (JString s) =>
      Return (option_map (fun c => JString [c]) (nth_error s (N.to_nat i)))
  | Some (JObject ms) => Return (member ms (decimal i))
  | Some _ => Return None
  end.

Definition isZero (x : number) : bool :=
  match x with S754_zero _ => true | _ => false end.

(** [!!v]. *)
Definition truthy (v : value) : bool :=
  match v with
  | None | Some JNull | Some (JBool false) | Some (JString []) => false
  | Some (JNumber x) => negb (isNaN x || isZero x)
  | Some _ => true
  end.

Section WithEngine.
Context {E : Engine}.

(** [String(j)]: the elements of an array are joined with commas, [null]
    standing for nothing. *)
Fixpoint jsonToString (j : json) : jsstring :=
  match j with
  | JNull => str "null"
  | JBool true => str "true"
  | JBool false => str "false"
  | JNumber x => numberToString x
  | JString s => s
  | JArray items =>
      joinComma
        (map (fun item => match item with JNull => [] | _ => jsonToString item end)
           items)
  | JObject _ => str "[object Object]"
  end.

(** [String(v)], as in a template literal. *)
Definition toText (v : value) : jsstring :=
  match v with
  | None => str "undefined"
  | Some j => jsonToString j
  end.

(** [Number(v)]. *)
Definition toNumber (v : value) : number :=
  match v with
  | None => S754_nan
  | Some JNull => S754_zero false
  | Some (JBool true) => numberOfZ 1
  | Some (JBool false) => S754_zero false
  | Some (JNumber x) => x
  | Some (JString s) => stringToNumber s
  | Some (JArray items) => stringToNumber (jsonToString (JArray items))
  | Some (JObject _) => S754_nan
  end.

(** Converting a value that was read to a string, to a number or to a
    date throws when the value has no conversion to a string; otherwise
    [toText], [toNumber] and [dateText] give the result. *)
Definition converted (v : value) : Exn unit :=
  match v with
  | None => Return tt
  | Some j =>
      if hasString j then Return tt
      else Throw (TypeError "Cannot convert object to primitive value")
  end.

(** [i < v.length] for an index [i]: an array and a string have a length;
    an object has one when it has a member of that name, which the
    comparison converts to a number; a number and a boolean have none, and
    nothing is below [undefined]. *)
Definition belowLength (i : N) (v : value) : Exn bool :=
  match v with
  | None | Some JNull => Throw (typeErrorRead "length")
  | Some (JArray items) => Return (i <? N.of_nat (List.length items))%N
  | Some (JString s) => Return (i <? N.of_nat (List.length s))%N
  | Some (JObject ms) =>
      match converted (member ms (str "length")) with
      | Throw e => Throw e
      | Return _ =>
          Return (SFltb (numberOfZ (Z.of_N i)) (toNumber (member ms (str "length"))))
      end
  | Some _ => Return false
  end.

(** ** The page *)

(** A card of the forecast: its date heading, its icon and the two
    lines of text. *)
Record Card := {
  dateLabel : jsstring;
  iconSrc : jsstring;
  iconAlt : jsstring;
  tempLabel : jsstring;
  humidityLabel : jsstring
}.

(** The elements the script writes to: the history and its storage
    ([page]), the error container (whether it has the class [hidden], and
    its text), the loader, the cards of the forecast container and the
    four texts of the current weather. *)
Record Dom := {
  page : Page;
  errorHidden : bool;
  errorText : jsstring;
  loaderHidden : bool;
  forecastCards : list Card;
  cityNameText : jsstring;
  temperatureText : jsstring;
  humidityText : jsstring;
  windSpeedText : jsstring
}.

Definition setPage (p : Page) (d : Dom) : Dom :=
  {| page := p; errorHidden := errorHidden d; errorText := errorText d;
     loaderHidden := loaderHidden d; forecastCards := forecastCards d;
     cityNameText := cityNameText d; temperatureText := temperatureText d;
     humidityText := humidityText d; windSpeedText := windSpeedText d |}.

Definition setErrorHidden (b : bool) (d : Dom) : Dom :=
  {| page := page d; errorHidden := b; errorText := errorText d;
     loaderHidden := loaderHidden d; forecastCards := forecastCards d;
     cityNameText := cityNameText d; temperatureText := temperatureText d;
     humidityText := humidityText d; windSpeedText := windSpeedText d |}.

Definition setErrorText (t : jsstring) (d : Dom) : Dom :=
  {| page := page d; errorHidden := errorHidden d; errorText := t;
     loaderHidden := loaderHidden d; forecastCards := forecastCards d;
     cityNameText := cityNameText d; temperatureText := temperatureText d;
     humidityText := humidityText d; windSpeedText := windSpeedText d |}.

Definition setLoaderHidden (b : bool) (d : Dom) : Dom :=
  {| page := page d; errorHidden := errorHidden d; errorText := errorText d;
     loaderHidden := b; forecastCards := forecastCards d;
     cityNameText := cityNameText d; temperatureText := temperatureText d;
     humidityText := humidityText d; windSpeedText := windSpeedText d |}.

Definition setForecastCards (cards : list Card) (d : Dom) : Dom :=
  {| page := page d; errorHidden := errorHidden d; errorText := errorText d;
     loaderHidden := loaderHidden d; forecastCards := cards;
     cityNameText := cityNameText d; temperatureText := temperatureText d;
     humidityText := humidityText d; windSpeedText := windSpeedText d |}.

Definition appendCard (card : Card) (d : Dom) : Dom :=
  setForecastCards (forecastCards d ++ [card]) d.

Definition setCityNameText (t : jsstring) (d : Dom) : Dom :=
  {| page := page d; errorHidden := errorHidden d; errorText := errorText d;
     loaderHidden := loaderHidden d; forecastCards := forecastCards d;
     cityNameText := t; temperatureText := temperatureText d;
     humidityText := humidityText d; windSpeedText := windSpeedText d |}.

Definition setTemperatureText (t : jsstring) (d : Dom) : Dom :=
  {| page := page d; errorHidden := errorHidden d; errorText := errorText d;
     loaderHidden := loaderHidden d; forecastCards := forecastCards d;
     cityNameText := cityNameText d; temperatureText := t;
     humidityText := humidityText d; windSpeedText := windSpeedText d |}.

Definition setHumidityText (t : jsstring) (d : Dom) : Dom :=
  {| page := page d; errorHidden := errorHidden d; errorText := errorText d;
     loaderHidden := loaderHidden d; forecastCards := forecastCards d;
     cityNameText := cityNameText d; temperatureText := temperatureText d;
     humidityText := t; windSpeedText := windSpeedText d |}.

Definition setWindSpeedText (t : jsstring) (d : Dom) : Dom :=
  {| page := page d; errorHidden := errorHidden d; errorText := errorText d;
     loaderHidden := loaderHidden d; forecastCards := forecastCards d;
     cityNameText := cityNameText d; temperatureText := temperatureText d;
     humidityText := humidityText d; windSpeedText := t |}.

(** A history function, run on the page of the document. *)
Definition onPage {A} (m : C A) : Comp Dom A :=
  fun d => let '(r, p) := m (page d) in (r, setPage p d).

(** [try { body } finally { finalizer }]. *)
Definition tryFinally {S A} (body : Comp S A) (finalizer : Comp S unit) : Comp S A :=
  fun s =>
    let '(r, s') := body s in
    match finalizer s' with
    | (Return _, s'') => (r, s'')
    | (Throw e, s'') => (Throw e, s'')
    end.

(** ** The functions of the script *)

(* function displayCurrentWeather(data) *)
Definition displayCurrentWeather (data : value) : Comp Dom unit :=
  let currentDate := today in
  name <- lift (getProp data "name") ;;
  lift (converted name) ;;;
  modify (setCityNameText (toText name ++ str " (" ++ currentDate ++ str ")")) ;;;
  main <- lift (getProp data "main") ;;
  temp <- lift (getProp main "temp") ;;
  lift (converted temp) ;;;
  modify (setTemperatureText (numberToString (mathRound (toNumber temp)))) ;;;
  main <- lift (getProp data "main") ;;
  humidity <- lift (getProp main "humidity") ;;
  lift (converted humidity) ;;;
  modify (setHumidityText (toText humidity)) ;;;
  wind <- lift (getProp data "wind") ;;
  speed <- lift (getProp wind "speed") ;;
  lift (converted speed) ;;;
  modify (setWindSpeedText (toText speed)).

(** The body of the loop of [displayForecast]: the card made from one
    sample of the forecast. *)
Definition forecastCard (dailyForecast : value) : Comp Dom Card :=
  dt_txt <- lift (getProp dailyForecast "dt_txt") ;;
  lift (converted dt_txt) ;;;
  weather <- lift (getProp dailyForecast "weather") ;;
  first <- lift (getIndex weather 0) ;;
  iconCode <- lift (getProp first "icon") ;;
  lift (converted iconCode) ;;;
  weather <- lift (getProp dailyForecast "weather") ;;
  first <- lift (getIndex weather 0) ;;
  description <- lift (getProp first "description") ;;
  lift (converted description) ;;;
  main <- lift (getProp dailyForecast "main") ;;
  temp <- lift (getProp main "temp") ;;
  lift (converted temp) ;;;
  main <- lift (getProp dailyForecast "main") ;;
  humidity <- lift (getProp main "humidity") ;;
  lift (converted humidity) ;;;
  ret {| dateLabel := dateText dt_txt;
         iconSrc := str "https://openweathermap.org/img/wn/" ++ toText iconCode
                    ++ str "@2x.png";
         iconAlt := toText description;
         tempLabel := str "Temp: " ++ numberToString (mathRound (toNumber temp))
                      ++ 176%N :: str "C";
         humidityLabel := str "Humidity: " ++ toText humidity ++ str "%" |}.

(** The loop [for (let i = 0; i < forecastList.length; i += FORECAST_INTERVAL)]
    from index [i] on, for at most [rounds] rounds. *)
Fixpoint forecastLoop (rounds : nat) (forecastList : value) (i : N) : Comp Dom unit :=
  match rounds with
  | O => ret tt
  | S rounds' =>
      below <- lift (belowLength i forecastList) ;;
      if below : bool then
        dailyForecast <- lift (getIndex forecastList i) ;;
        card <- forecastCard dailyForecast ;;
        modify (appendCard card) ;;;
        forecastLoop rounds' forecastList (i + FORECAST_INTERVAL)%N
      else ret tt
  end.

(** A number of rounds the loop cannot exceed: a round that does not end
    the loop reads a sample at a new index, and an array, a string or an
    object has no more samples than elements, characters or members. *)
Definition roundsBound (forecastList : value) : nat :=
  match forecastList with
  | Some (JArray items) => S (List.length items)
  | Some (JString s) => S (List.length s)
  | Some (JObject ms) => S (List.length ms)
  | _ => 1
  end.

(* function displayForecast(forecastList) *)
Definition displayForecast (forecastList : value) : Comp Dom unit :=
  forecastLoop (roundsBound forecastList) forecastList 0.

End WithEngine.

Section WithEngineAndCase.
Context {E : Engine} {CM : CaseMapping}.

(** [saveCityToHistory(city)] for any value of [city]: a value other than
    a string has no [toLowerCase], which the filter calls as soon as the
    stored array has an entry, and is stored as it is serialised when the
    array is empty. *)
Definition saveToHistory (city : value) : C unit :=
  match city with
  | Some (JString name) => saveCityToHistory name
  | _ =>
      historyString <- gets getItemOrEmpty ;;
      history <- lift (JSON_parse historyString) ;;
      match history with
      | JArray [] =>
          modify (setItem (stringifyOne city)) ;;;
          renderHistory
      | JArray (JString _ :: _) =>
          lift (Throw (TypeError "city.toLowerCase is not a function"))
      | JArray (_ :: _) =>
          lift (Throw (TypeError "existingCity.toLowerCase is not a function"))
      | _ => lift (Throw (TypeError "history.filter is not a function"))
      end
  end.

(** What [fetch] brings back: a rejection, or a response with a status
    and a body. *)
Inductive FetchReply :=
| FetchFailed (e : Error)
| Fetched (status : N) (text : jsstring).

(** [response.ok]. *)
Definition isOk (status : N) : bool := ((200 <=? status) && (status <=? 299))%N.

(** The statements of the [try] block shared by [fetchWeather] and
    [fetchWeatherByCoords], from [fetch(url)] on. *)
Definition fetchAndShow (fetch : jsstring -> FetchReply) (url : jsstring) : Comp Dom unit :=
  modify (setErrorHidden true) ;;;
  modify (setForecastCards []) ;;;
  modify (setLoaderHidden false) ;;;
  match fetch url with
  | FetchFailed e => lift (Throw e)
  | Fetched status text =>
      if negb (isOk status) then
        errorData <- lift (JSON_parse text) ;;
        error <- lift (getProp (Some errorData) "error") ;;
        (if truthy error then lift (converted error) else ret tt) ;;;
        lift (Throw (mkError (if truthy error then toText error
                              else str "An unknown error occurred.")))
      else
        payload <- lift (JSON_parse text) ;;
        currentWeather <- lift (getProp (Some payload) "currentWeather") ;;
        forecast <- lift (getProp (Some payload) "forecast") ;;
        displayCurrentWeather currentWeather ;;;
        list <- lift (getProp forecast "list") ;;
        displayForecast list ;;;
        name <- lift (getProp currentWeather "name") ;;
        onPage (saveToHistory name)
  end.

(* async function fetchWeather(city) *)
Definition fetchWeather (fetch : jsstring -> FetchReply) (city : jsstring) : Comp Dom unit :=
  tryFinally
    (tryCatch
       (fetchAndShow fetch (str "/api/weather/" ++ city))
       (fun error =>
          modify (setErrorText (getUserFriendlyError error)) ;;;
          modify (setErrorHidden false)))
    (modify (setLoaderHidden true)).

(* async function fetchWeatherByCoords(lat, lon) *)
Definition fetchWeatherByCoords (fetch : jsstring -> FetchReply) (lat lon : number)
  : Comp Dom unit :=
  tryFinally
    (tryCatch
       (fetchAndShow fetch
          (str "/api/weather/coords?lat=" ++ numberToString lat ++ str "&lon="
           ++ numberToString lon))
       (fun error => ret tt))
    (modify (setLoaderHidden true)).

End WithEngineAndCase.

End Browser.

(* ===================================================================== *)
(** * Vocabulary of the properties                                       *)
(* ===================================================================== *)

Module Properties.
Import JS Control Server Client Browser.

(** The user-facing categories of [getErrorMessage]. *)
Inductive Category :=
| NotFound
| AuthenticationFailed
| TimedOut
| Unreachable
| TemporarilyUnavailable.

Definition categoryMessage (c : Category) : jsstring :=
  match c with
  | NotFound => str "City not found. Please check the spelling."
  | AuthenticationFailed => str "Weather service authentication failed."
  | TimedOut => str "Weather service request timed out. Please try again."
  | Unreachable => str "Unable to connect to weather service."
  | TemporarilyUnavailable =>
      str "Weather service temporarily unavailable. Please try again."
  end.

(** The substrings [getErrorMessage] looks for. *)
Definition errorPatterns : list jsstring :=
  map str ["404"; "not found"; "401"; "unauthorized"; "timeout"; "network";
           "enotfound"]%string.

Definition rejected {A} (x : Exn A) : Prop := exists e, x = Throw e.

(** The two upstream URLs of a lookup by name, for an encoded name. *)
Definition currentWeatherUrlFor (w : World) (q : jsstring) : jsstring :=
  str "https://api.openweathermap.org/data/2.5/weather?q=" ++ q
  ++ str "&appid=" ++ API_KEY w ++ str "&units=metric".

Definition forecastUrlFor (w : World) (q : jsstring) : jsstring :=
  str "https://api.openweathermap.org/data/2.5/forecast?q=" ++ q
  ++ str "&appid=" ++ API_KEY w ++ str "&units=metric".

(** The two upstream URLs of a lookup by coordinates. *)
Definition currentWeatherUrlAt (w : World) (lat lon : qvalue) : jsstring :=
  str "https://api.openweathermap.org/data/2.5/weather?lat=" ++ toString lat
  ++ str "&lon=" ++ toString lon ++ str "&appid=" ++ API_KEY w
  ++ str "&units=metric".

Definition forecastUrlAt (w : World) (lat lon : qvalue) : jsstring :=
  str "https://api.openweathermap.org/data/2.5/forecast?lat=" ++ toString lat
  ++ str "&lon=" ++ toString lon ++ str "&appid=" ++ API_KEY w
  ++ str "&units=metric".

(** The payload of a successful lookup. *)
Definition bundle (currentWeather forecast : json) : json :=
  JObject [(str "currentWeather", currentWeather); (str "forecast", forecast)].

(** An upstream that answers the forecast request with status 500 and
    every other request with status 200 and an empty object. *)
Definition forecastDown : World :=
  {| API_KEY := str "KEY";
     respond := fun url =>
       if includes url (str "/forecast?") then End 500 [str "down"]
       else End 200 [str "{}"];
     clock := fun _ => 0%N |}.

(** An upstream that answers every request with status 200 and a given
    body. *)
Definition answering (data : string) : World :=
  {| API_KEY := str "KEY";
     respond := fun _ => End 200 [str data];
     clock := fun _ => 0%N |}.

Definition allUp : World := answering "{}".

(** A request as it arrives for a path and a query, by [GET]. *)
Definition get (path : string) (q : list (string * string)) : Request :=
  {| method := GET;
     pathname := str path;
     query := map (fun kv => (str (fst kv), QString (str (snd kv)))) q |}.

Section WithCaseMapping.
Context {CM : CaseMapping}.

(** Equality of names, as the history compares them. *)
Definition sameName (a b : jsstring) : bool :=
  streq (toLowerCase a) (toLowerCase b).

Definition others (name : jsstring) (l : list jsstring) : list jsstring :=
  filter (fun existing => negb (sameName existing name)) l.

(** The list [saveCityToHistory] leaves for a name and a prior list. *)
Definition added (name : jsstring) (l : list jsstring) : list jsstring :=
  firstn MAX_HISTORY_ITEMS (name :: others name l).

(** The operations of the history store. *)
Inductive Op :=
| Add (name : jsstring)
| Remove (name : jsstring).

Definition exec (op : Op) : C unit :=
  match op with
  | Add name => saveCityToHistory name
  | Remove name => deleteCity name
  end.

(** [saveCityToHistory] for each name in turn. *)
Fixpoint addAll (names : list jsstring) : C unit :=
  match names with
  | [] => ret tt
  | name :: more => bind (saveCityToHistory name) (fun _ => addAll more)
  end.

(** The instant of the latest [Add] of a name in a log of operations
    (latest operation first; instants count from 1, and 0 stands for
    "never added"). *)
Fixpoint stamp (log : list Op) (name : jsstring) : nat :=
  match log with
  | [] => 0
  | Add n :: older =>
      if sameName n name then S (List.length older) else stamp older name
  | Remove _ :: older => stamp older name
  end.

(** Every entry was added later than all the entries after it. *)
Definition recentFirst (log : list Op) (l : list jsstring) : Prop :=
  StronglySorted (fun a b => stamp log b < stamp log a) l.

(** The HistoryList invariant. *)
Definition HistoryInv (log : list Op) (l : list jsstring) : Prop :=
  List.length l <= MAX_HISTORY_ITEMS /\
  NoDup (map toLowerCase l) /\
  recentFirst log l.

End WithCaseMapping.

Section MoreHistory.
Context {CM : CaseMapping}.

(** The operations of a list, in turn. *)
Fixpoint execAll (ops : list Op) : C unit :=
  match ops with
  | [] => ret tt
  | op :: more => bind (exec op) (fun _ => execAll more)
  end.

(** What an operation makes of a stored list. *)
Definition applyOp (l : list jsstring) (op : Op) : list jsstring :=
  match op with
  | Add name => added name l
  | Remove name => others name l
  end.

End MoreHistory.

(** Strings of ASCII characters. *)
Definition isAscii (s : jsstring) : bool := forallb (fun c => (c <? 128)%N) s.

(** The part of ECMAScript's [toLowerCase] the messages of the program
    rely on: ASCII characters are lower-cased one by one, whatever follows
    them. *)
Record AsciiFaithful (CM : CaseMapping) : Prop := {
  lower_ascii :
    forall a, isAscii a = true -> toLowerCase a = map asciiLower a;
  lower_ascii_prefix :
    forall a b, isAscii a = true ->
      exists b', toLowerCase (a ++ b) = map asciiLower a ++ b'
}.

(** Strings of 16-bit code units. *)
Definition codeUnits (s : jsstring) : Prop := Forall (fun c => (c < 65536)%N) s.

(** The characters [encodeURIComponent] lets through, and [%]. *)
Definition uriSafe (c : N) : bool := isUnreserved c || (c =? 37)%N.

(** The messages of the answers with status 400. *)
Definition validationMessages : list jsstring :=
  map str ["City name is required and cannot be empty.";
           "City name is too long.";
           "Latitude and longitude are required.";
           "Invalid coordinates. Latitude must be -90 to 90, longitude must be -180 to 180."]%string.

(** The text [getUserFriendlyError] shows for a city that was not found. *)
Definition cityNotFoundShown : jsstring :=
  str "City not found. Please check the spelling and try again.".

(** The body [res.status(code).json({ error: msg })] sends: the object,
    serialised. *)
Definition errorAnswerText (msg : jsstring) : jsstring :=
  (123 :: quoteJSONString (str "error") ++ 58 :: quoteJSONString msg ++ [125])%N.

(** What the page shows for a message of the server. *)
Definition shownFor (msg : jsstring) : jsstring :=
  if streq msg (categoryMessage NotFound) then cityNotFoundShown else msg.

(** The document after a lookup that failed with a given text: the text is
    shown, the loader is hidden and the forecast is empty. *)
Definition failedWith (text : jsstring) (d : Dom) : Dom :=
  {| page := page d; errorHidden := false; errorText := text;
     loaderHidden := true; forecastCards := [];
     cityNameText := cityNameText d; temperatureText := temperatureText d;
     humidityText := humidityText d; windSpeedText := windSpeedText d |}.

(** A string literal of a JSON text. *)
Definition quoted (s : string) : jsstring := quoteJSONString (str s).

(** An answer of the server to a successful lookup, as the browser
    receives it: Paris, with an empty forecast. *)
Definition exampleAnswer : jsstring :=
  str "{" ++ quoted "currentWeather" ++ str ":{"
    ++ quoted "name" ++ str ":" ++ quoted "Paris" ++ str ","
    ++ quoted "main" ++ str ":{" ++ quoted "temp" ++ str ":21,"
    ++ quoted "humidity" ++ str ":60},"
    ++ quoted "wind" ++ str ":{" ++ quoted "speed" ++ str ":3}},"
    ++ quoted "forecast" ++ str ":{" ++ quoted "list" ++ str ":[]}}".

(** The samples of a forecast at the indices 0, 8, 16, ... *)
Definition dailySamples (items : list json) : list value :=
  map (fun k => nth_error items (8 * k)) (seq 0 ((List.length items + 7) / 8)).

Section Showing.
Context {E : Engine}.

(** A card for each sample in turn, appended to the forecast container,
    up to the first sample that yields none. *)
Fixpoint appendCards (samples : list value) : Comp Dom unit :=
  match samples with
  | [] => ret tt
  | sample :: more =>
      bind (forecastCard sample)
        (fun card => bind (modify (appendCard card)) (fun _ => appendCards more))
  end.

(** A round of the loop of [displayForecast] at index [j] is its last,
    however many rounds could follow. *)
Definition lastRound (forecastList : value) (j : N) : Prop :=
  forall (rounds rounds' : nat) (d : Dom),
    forecastLoop (S rounds) forecastList j d
    = forecastLoop (S rounds') forecastList j d.

End Showing.

(** An engine for the examples: it prints every number as [0], reads
    every string as zero, rounds nothing, dates nothing and serialises
    every value as [null]. *)
Definition exampleEngine : Engine :=
  {| numberToString := fun _ => str "0";
     stringToNumber := fun _ => S754_zero false;
     mathRound := fun x => x;
     dateText := fun _ => str "Invalid Date";
     today := str "1/1/2025";
     stringifyOne := fun _ => str "[null]" |}.

(** A document before anything was shown, on a given page. *)
Definition blankDom (p : Page) : Dom :=
  {| page := p; errorHidden := true; errorText := []; loaderHidden := true;
     forecastCards := []; cityNameText := []; temperatureText := [];
     humidityText := []; windSpeedText := [] |}.

(** The page once a list has been stored and rendered. *)
Definition showing (l : list jsstring) (p : Page) : Page :=
  {| weatherHistory := Some (JSON_stringify l);
     historyContainer := map JString l;
     alerts := alerts p |}.

Definition emptyPage : Page :=
  {| weatherHistory := None; historyContainer := []; alerts := [] |}.

Definition pageWith (stored : string) : Page :=
  {| weatherHistory := Some (str stored); historyContainer := []; alerts := [] |}.

(** A page whose stored text is the serialisation of some names. *)
Definition pageStoring (names : list string) : Page :=
  {| weatherHistory := Some (JSON_stringify (map str names));
     historyContainer := [];
     alerts := [] |}.

(** ** Fixtures of the upstream service *)

(** Equality of Numbers, field by field. *)
Definition sameNumber (x y : number) : bool :=
  match x, y with
  | S754_zero a, S754_zero b => Bool.eqb a b
  | S754_infinity a, S754_infinity b => Bool.eqb a b
  | S754_nan, S754_nan => true
  | S754_finite a m e, S754_finite b n f => Bool.eqb a b && Pos.eqb m n && Z.eqb e f
  | _, _ => false
  end.

(** No two keys are equal. *)
Fixpoint distinct (keys : list jsstring) : bool :=
  match keys with
  | [] => true
  | key :: more => negb (existsb (streq key) more) && distinct more
  end.

(** The key of a member is no array index. *)
Definition unindexed {A} (member : jsstring * A) : bool :=
  match arrayIndex (fst member) with Some _ => false | None => true end.

Section Fixtures.
Context {NS : NumberToString}.

(** A Number that [JSON.parse] reads back from the text that
    [JSON.stringify] writes for it: positive zero, and a finite number
    whose text is a number literal with its value. ECMAScript's
    [Number::toString] of a finite number has that property; negative
    zero, written [0], and what is not finite, written [null], have not. *)
Definition readsBack (x : number) : bool :=
  match x with
  | S754_zero negative => negb negative
  | S754_finite _ _ _ =>
      let text := finiteToString x in
      match text with [] => false | _ => forallb isWordChar text end
      && match literalValue text with
         | Some (JNumber y) => sameNumber y x
         | _ => false
         end
  | _ => false
  end.

(** A fixture that a stubbed upstream can pass through: its numbers read
    back, and the keys of each of its objects are distinct and no array
    indices, so that they are enumerated in the order in which they are
    written. *)
Fixpoint plain (v : json) : bool :=
  match v with
  | JNumber x => readsBack x
  | JArray items => forallb plain items
  | JObject members =>
      distinct (map fst members) && forallb unindexed members
      && forallb (fun member => plain (snd member)) members
  | _ => true
  end.

Fixpoint joinTokens (parts : list (list token)) : list token :=
  match parts with
  | [] => []
  | [p] => p
  | p :: more => p ++ TComma :: joinTokens more
  end.

(** The tokens of the text [JSON.stringify] writes for a fixture. *)
Fixpoint tokensOf (v : json) : list token :=
  match v with
  | JNull => [TLiteral (str "null")]
  | JBool true => [TLiteral (str "true")]
  | JBool false => [TLiteral (str "false")]
  | JNumber x => [TLiteral (numberToJSON x)]
  | JString s => [TString s]
  | JArray items => TLBracket :: joinTokens (map tokensOf items) ++ [TRBracket]
  | JObject members =>
      TLBrace
      :: joinTokens
           (map (fun member => TString (fst member) :: TColon :: tokensOf (snd member))
              members)
      ++ [TRBrace]
  end.

End Fixtures.

(** A state of the parser that takes a value onto [stack]. *)
Definition takesValue (st : pstate) (stack : list frame) : Prop :=
  forall t, t <> TRBracket -> pstep st t = valueStart stack t.

(** What may follow a value in a serialised text: nothing, a comma or a
    closing bracket or brace. *)
Definition delimited (rest : jsstring) : Prop :=
  match rest with
  | [] => True
  | c :: _ => c = 44%N \/ c = 93%N \/ c = 125%N
  end.

(** The text of a bundle whose two members have the given texts. *)
Definition bundleText (currentWeather forecast : jsstring) : jsstring :=
  str "{" ++ quoted "currentWeather" ++ str ":" ++ currentWeather
  ++ str "," ++ quoted "forecast" ++ str ":" ++ forecast ++ str "}".

(** An engine for the examples, which writes an integer in decimal digits
    and every other number as [0]. *)
Definition integersOnly : NumberToString :=
  {| finiteToString := fun x =>
       match x with
       | S754_finite negative m e =>
           let sign := if negative then str "-" else [] in
           match e with
           | Zneg k =>
               if (N.pos m mod 2 ^ N.pos k =? 0)%N
               then sign ++ decimal (N.pos m / 2 ^ N.pos k)
               else str "0"
           | _ => sign ++ decimal (N.pos m * 2 ^ Z.to_N e)
           end
       | _ => str "0"
       end |}.

(** London at 21 degrees, as a value and as the text [JSON.stringify]
    writes for it. *)
Definition london : json :=
  JObject [(str "name", JString (str "London"));
           (str "main", JObject [(str "temp", JNumber (numberOfZ 21))])].

Definition londonText : jsstring :=
  str "{" ++ quoted "name" ++ str ":" ++ quoted "London" ++ str ","
  ++ quoted "main" ++ str ":{" ++ quoted "temp" ++ str ":21}}".

(** A forecast with an empty list. *)
Definition noForecast : json := JObject [(str "list", JArray [])].

Definition noForecastText : jsstring := str "{" ++ quoted "list" ++ str ":[]}".

(** An upstream that answers with these two fixtures, each in two
    chunks. *)
Definition londonUp : World :=
  {| API_KEY := str "KEY";
     respond := fun url =>
       if includes url (str "/forecast?")
       then End 200 [firstn 3 noForecastText; skipn 3 noForecastText]
       else End 200 [firstn 10 londonText; skipn 10 londonText];
     clock := fun _ => 0%N |}.

(** London with a visibility written as a number beyond the range of
    the Numbers. *)
Definition farSightedText : jsstring :=
  str "{" ++ quoted "name" ++ str ":" ++ quoted "London" ++ str ","
  ++ quoted "visibility" ++ str ":1e400}".

Definition farSightedUp : World :=
  {| API_KEY := str "KEY";
     respond := fun url =>
       if includes url (str "/forecast?") then End 200 [noForecastText]
       else End 200 [farSightedText];
     clock := fun _ => 0%N |}.

End Properties.

Import JS Control Server Client Browser Properties.

(* ===================================================================== *)
(** * Strings                                                            *)
(* ===================================================================== *)

Lemma streq_refl (a : jsstring) : streq a a = true.
Proof.
  induction a as [|x a IH]; simpl; [reflexivity|].
  now rewrite N.eqb_refl, IH.
Qed.

Lemma streq_eq (a b : jsstring) : streq a b = true <-> a = b.
Proof.
  split; [|intros ->; apply streq_refl].
  revert b; induction a as [|x a IH]; intros [|y b]; simpl; try discriminate; auto.
  intros H. apply andb_prop in H as [Hx Ha].
  apply N.eqb_eq in Hx. apply IH in Ha. now subst.
Qed.

Lemma streq_neq (a b : jsstring) : streq a b = false <-> a <> b.
Proof.
  split.
  - intros H E. apply streq_eq in E. congruence.
  - intros H. destruct (streq a b) eqn:E; [|reflexivity].
    apply streq_eq in E. contradiction.
Qed.

Lemma strlen_zero (s : jsstring) : (strlen s =? 0)%N = true <-> s = [].
Proof.
  unfold strlen. destruct s; simpl; split; intros H; try reflexivity; try discriminate.
Qed.

(* ===================================================================== *)
(** * JSON: what [JSON.stringify] writes, [JSON.parse] reads back        *)
(* ===================================================================== *)

Lemma hexValue_hexLower (d : N) : (d < 16)%N -> hexValue (hexLower d) = Some d.
Proof.
  intros H.
  assert (E : In d [0;1;2;3;4;5;6;7;8;9;10;11;12;13;14;15]%N).
  { simpl. lia. }
  simpl in E.
  repeat (destruct E as [<-|E]; [reflexivity|]). contradiction.
Qed.

Lemma hex4_value (c : N) :
  (c < 65536)%N ->
  (16 * (16 * (16 * (16 * 0 + c / 4096) + (c / 256) mod 16) + (c / 16) mod 16)
   + c mod 16 = c)%N.
Proof.
  intros H.
  pose proof (N.div_mod c 16 ltac:(lia)) as H1.
  pose proof (N.div_mod (c / 16) 16 ltac:(lia)) as H2.
  pose proof (N.div_mod (c / 16 / 16) 16 ltac:(lia)) as H3.
  rewrite !N.Div0.div_div in H2, H3 by lia.
  rewrite !N.Div0.div_div in H3 by lia.
  change (16 * 16)%N with 256%N in *. change (256 * 16)%N with 4096%N in *.
  assert (H4 : ((c / 4096) mod 16 = c / 4096)%N).
  { apply N.mod_small. apply N.Div0.div_lt_upper_bound; lia. }
  lia.
Qed.

Lemma lex_unicodeEscape (c : N) (acc t : jsstring) :
  (c < 65536)%N ->
  lex (LStr acc) (unicodeEscape c ++ t) = lex (LStr (c :: acc)) t.
Proof.
  intros H. unfold unicodeEscape, hex4.
  assert (D1 : (c / 4096 < 16)%N) by (apply N.Div0.div_lt_upper_bound; lia).
  assert (D2 : ((c / 256) mod 16 < 16)%N) by (apply N.mod_lt; lia).
  assert (D3 : ((c / 16) mod 16 < 16)%N) by (apply N.mod_lt; lia).
  assert (D4 : (c mod 16 < 16)%N) by (apply N.mod_lt; lia).
  cbn -[hexLower hexValue N.div N.modulo N.mul N.add].
  rewrite (hexValue_hexLower _ D1), (hexValue_hexLower _ D2),
    (hexValue_hexLower _ D3), (hexValue_hexLower _ D4).
  now rewrite hex4_value.
Qed.

Lemma lex_literal (c : N) (acc t : jsstring) :
  (c =? 34)%N = false -> (c =? 92)%N = false -> (c <? 32)%N = false ->
  lex (LStr acc) (c :: t) = lex (LStr (c :: acc)) t.
Proof. intros H1 H2 H3. cbn [lex]. now rewrite H1, H2, H3. Qed.

Lemma lex_escapeUnit (c : N) (acc t : jsstring) :
  lex (LStr acc) (escapeUnit c ++ t) = lex (LStr (c :: acc)) t.
Proof.
  unfold escapeUnit.
  repeat match goal with
         | |- context [if (c =? ?k)%N then _ else _] =>
             destruct (N.eqb_spec c k) as [->|?]; [reflexivity|]
         end.
  destruct (N.ltb_spec c 32) as [Hlt|Hge].
  - apply lex_unicodeEscape. lia.
  - apply lex_literal.
    + apply N.eqb_neq; assumption.
    + apply N.eqb_neq; assumption.
    + apply N.ltb_ge; assumption.
Qed.

Lemma surrogate_bounds (c : N) :
  isHighSurrogate c || isLowSurrogate c = true -> (55296 <= c <= 57343)%N.
Proof.
  unfold isHighSurrogate, isLowSurrogate. intros H.
  apply orb_prop in H as [H|H]; apply andb_prop in H as [H1 H2];
    apply N.leb_le in H1, H2; lia.
Qed.

Lemma lex_surrogate (c : N) (acc t : jsstring) :
  isHighSurrogate c || isLowSurrogate c = true ->
  lex (LStr acc) (c :: t) = lex (LStr (c :: acc)) t.
Proof.
  intros H. apply surrogate_bounds in H.
  apply lex_literal; [apply N.eqb_neq | apply N.eqb_neq | apply N.ltb_ge]; lia.
Qed.

Lemma lex_escaped_surrogate (c : N) (acc t : jsstring) :
  isHighSurrogate c || isLowSurrogate c = true ->
  lex (LStr acc) (unicodeEscape c ++ t) = lex (LStr (c :: acc)) t.
Proof. intros H. apply surrogate_bounds in H. apply lex_unicodeEscape. lia. Qed.

(** The scanner, inside a string literal, reads the quoted body back. *)
Lemma lex_quoteBody_bounded (n : nat) :
  forall (s acc t : jsstring),
    List.length s <= n ->
    lex (LStr acc) (quoteBody s ++ 34%N :: t)
    = consTok (TString (rev acc ++ s)) (lex LStart t).
Proof.
  induction n as [|n IH]; intros s acc t Hlen.
  - destruct s; [|simpl in Hlen; lia].
    simpl. now rewrite app_nil_r.
  - destruct s as [|c r].
    { simpl. now rewrite app_nil_r. }
    simpl in Hlen.
    assert (Hstep : rev acc ++ c :: r = rev (c :: acc) ++ r).
    { simpl. now rewrite <- app_assoc. }
    cbn [quoteBody].
    destruct (isHighSurrogate c) eqn:Hhi.
    + destruct r as [|d r'].
      * rewrite lex_escaped_surrogate by (rewrite Hhi; reflexivity).
        rewrite Hstep. apply (IH [] (c :: acc) t). simpl; lia.
      * destruct (isLowSurrogate d) eqn:Hlo.
        -- rewrite <- !app_comm_cons.
           rewrite lex_surrogate by (rewrite Hhi; reflexivity).
           rewrite lex_surrogate by (rewrite Hlo; apply orb_true_r).
           rewrite (IH r' (d :: c :: acc) t) by (simpl in Hlen; lia).
           simpl. now rewrite <- !app_assoc.
        -- rewrite <- app_assoc.
           rewrite lex_escaped_surrogate by (rewrite Hhi; reflexivity).
           rewrite Hstep. apply IH. lia.
    + destruct (isLowSurrogate c) eqn:Hlo.
      * rewrite <- app_assoc.
        rewrite lex_escaped_surrogate by (rewrite Hlo; apply orb_true_r).
        rewrite Hstep. apply IH. lia.
      * rewrite <- app_assoc, lex_escapeUnit, Hstep. apply IH. lia.
Qed.

Lemma lex_quoted (s t : jsstring) :
  lex LStart (quoteJSONString s ++ t) = consTok (TString s) (lex LStart t).
Proof.
  unfold quoteJSONString. rewrite <- app_comm_cons, <- app_assoc.
  change (lex LStart (34%N :: ?r)) with (lex (LStr []) r).
  rewrite <- app_comm_cons. cbn [List.app].
  apply (lex_quoteBody_bounded (List.length s) s [] t). lia.
Qed.

(** The tokens of a serialised array of strings. *)
Lemma lex_more_items (l : list jsstring) :
  lex LStart (flat_map (fun x => 44%N :: quoteJSONString x) l ++ [93%N])
  = Some (flat_map (fun x => [TComma; TString x]) l ++ [TRBracket]).
Proof.
  induction l as [|x l IH]; [reflexivity|].
  cbn [flat_map]. rewrite <- !app_assoc.
  rewrite <- app_comm_cons.
  change (lex LStart (44%N :: ?r)) with (consTok TComma (lex LStart r)).
  rewrite lex_quoted, IH. reflexivity.
Qed.

Lemma joinComma_cons (p : jsstring) (ps : list jsstring) :
  joinComma (p :: ps) = p ++ flat_map (fun x => 44%N :: x) ps.
Proof.
  revert p; induction ps as [|q ps IH]; intros p.
  - simpl. now rewrite app_nil_r.
  - change (joinComma (p :: q :: ps)) with (p ++ 44%N :: joinComma (q :: ps)).
    rewrite IH. reflexivity.
Qed.

Lemma flat_map_after_map {A B D} (f : B -> list D) (g : A -> B) (l : list A) :
  flat_map f (map g l) = flat_map (fun x => f (g x)) l.
Proof. induction l as [|x l IH]; simpl; [reflexivity | now rewrite IH]. Qed.

Lemma lex_stringify (l : list jsstring) :
  lex LStart (JSON_stringify l)
  = Some (TLBracket ::
          match l with
          | [] => [TRBracket]
          | x :: more =>
              TString x :: flat_map (fun y => [TComma; TString y]) more ++ [TRBracket]
          end).
Proof.
  unfold JSON_stringify. destruct l as [|x more]; [reflexivity|].
  cbn [map]. rewrite joinComma_cons.
  change (lex LStart (91%N :: ?r)) with (consTok TLBracket (lex LStart r)).
  rewrite <- app_assoc, lex_quoted.
  rewrite flat_map_after_map, lex_more_items. reflexivity.
Qed.

Lemma pda_more_items (l : list jsstring) :
  forall items,
    pda (PArrNext [] items)
        (flat_map (fun y => [TComma; TString y]) l ++ [TRBracket])
    = Some (JArray (rev items ++ map JString l)).
Proof.
  induction l as [|x l IH]; intros items.
  - simpl. now rewrite app_nil_r.
  - cbn [flat_map List.app pda pstep valueStart pushValue].
    rewrite IH. simpl. now rewrite <- app_assoc.
Qed.

(** [JSON.parse(JSON.stringify(a))] is [a], for every array of strings. *)
Lemma JSON_roundtrip (l : list jsstring) :
  JSON_parse (JSON_stringify l) = Return (JArray (map JString l)).
Proof.
  unfold JSON_parse. rewrite lex_stringify.
  destruct l as [|x more]; [reflexivity|].
  cbn [pda pstep valueStart pushValue].
  now rewrite pda_more_items.
Qed.

Lemma JSON_stringify_nonempty (l : list jsstring) : JSON_stringify l <> [].
Proof. discriminate. Qed.

(* ===================================================================== *)
(** * The history store on well-formed pages                             *)
(* ===================================================================== *)

Lemma asStrings_strings (l : list jsstring) :
  asStrings (JArray (map JString l)) = Some l.
Proof.
  unfold asStrings. induction l as [|x l IH]; simpl; [reflexivity|].
  now rewrite IH.
Qed.

Lemma asStrings_inv (v : json) (l : list jsstring) :
  asStrings v = Some l -> v = JArray (map JString l).
Proof.
  destruct v as [| | | |items|]; simpl; try discriminate.
  revert l; induction items as [|item items IH]; intros l; simpl.
  - intros [= <-]. reflexivity.
  - destruct item; try discriminate.
    destruct (fold_right _ _ items) as [l'|] eqn:E; try discriminate.
    intros [= <-]. specialize (IH l' eq_refl). injection IH as ->. reflexivity.
Qed.

Lemma storedHistory_parse (p : Page) (l : list jsstring) :
  storedHistory p = Some l ->
  JSON_parse (getItemOrEmpty p) = Return (JArray (map JString l)).
Proof.
  unfold storedHistory. destruct (JSON_parse (getItemOrEmpty p)) as [v|e]; [|discriminate].
  intros H. apply asStrings_inv in H. now subst.
Qed.

Lemma getItemOrEmpty_stringify (l : list jsstring) (p : Page) :
  getItemOrEmpty (setItem (JSON_stringify l) p) = JSON_stringify l.
Proof. reflexivity. Qed.

Lemma storedHistory_showing (l : list jsstring) (p : Page) :
  storedHistory (showing l p) = Some l.
Proof.
  unfold storedHistory.
  change (getItemOrEmpty (showing l p)) with (JSON_stringify l).
  rewrite JSON_roundtrip. apply asStrings_strings.
Qed.

(** The loop of [renderHistory] on entries that have a conversion to a
    string. *)
Lemma appendButtons_all (items : list json) :
  forallb hasString items = true ->
  forall p : Page,
    appendButtons items p = (Return tt, setContainer (historyContainer p ++ items) p).
Proof.
  induction items as [|city more IH]; intros Hall p; cbn [appendButtons].
  - rewrite app_nil_r. now destruct p.
  - cbn [forallb] in Hall. apply andb_prop in Hall as [Hcity Hmore].
    rewrite Hcity. unfold bind, modify. rewrite (IH Hmore).
    unfold appendButton. cbn [historyContainer setContainer].
    now rewrite <- app_assoc.
Qed.

(** The loop stops at the first entry that has no conversion to a string,
    after the buttons of the entries before it. *)
Lemma appendButtons_stops (shown : list json) (city : json) (more : list json) :
  forallb hasString shown = true -> hasString city = false ->
  forall p : Page,
    exists e,
      appendButtons (shown ++ city :: more) p
      = (Throw e, setContainer (historyContainer p ++ shown) p).
Proof.
  intros Hshown Hcity. induction shown as [|first shown IH]; intros p.
  - cbn [List.app appendButtons]. rewrite Hcity. eexists. unfold lift.
    rewrite app_nil_r. now destruct p.
  - cbn [forallb] in Hshown. apply andb_prop in Hshown as [Hfirst Hshown].
    rewrite <- app_comm_cons. cbn [appendButtons]. rewrite Hfirst.
    unfold bind, modify. destruct (IH Hshown (appendButton first p)) as [e ->].
    exists e. unfold appendButton. cbn [historyContainer setContainer].
    now rewrite <- app_assoc.
Qed.

Lemma hasString_strings (l : list jsstring) : forallb hasString (map JString l) = true.
Proof. induction l as [|x l IH]; [reflexivity | exact IH]. Qed.

(** [renderHistory] on a stored value whose entries have a conversion to
    a string. *)
Lemma renderHistory_items (p : Page) (history : json) (items : list json) :
  JSON_parse (getItemOrEmpty p) = Return history ->
  iterate history = Return items ->
  forallb hasString items = true ->
  renderHistory p = (Return tt, setContainer items p).
Proof.
  intros Hparse Hiter Hall. unfold renderHistory, bind, gets, lift, modify.
  rewrite Hparse, Hiter. now rewrite (appendButtons_all items Hall).
Qed.

(** Rendering right after a list was stored shows that list. *)
Lemma renderHistory_after_setItem (l : list jsstring) (p : Page) :
  renderHistory (setItem (JSON_stringify l) p) = (Return tt, showing l p).
Proof.
  rewrite (renderHistory_items _ (JArray (map JString l)) (map JString l)).
  - reflexivity.
  - rewrite getItemOrEmpty_stringify. apply JSON_roundtrip.
  - reflexivity.
  - apply hasString_strings.
Qed.

Section HistoryLists.
Context {CM : CaseMapping}.

Lemma filterOthers_strings (name : jsstring) (l : list jsstring) :
  filterOthers name (map JString l) = Return (others name l).
Proof.
  induction l as [|x l IH]; [reflexivity|].
  cbn [map filterOthers]. rewrite IH. unfold others, sameName. cbn [filter].
  destruct (streq (toLowerCase x) (toLowerCase name)); reflexivity.
Qed.

Lemma cap_firstn (h : list jsstring) :
  (if (MAX_HISTORY_ITEMS <? List.length h)%nat then firstn MAX_HISTORY_ITEMS h else h)
  = firstn MAX_HISTORY_ITEMS h.
Proof.
  destruct (Nat.ltb_spec MAX_HISTORY_ITEMS (List.length h)); [reflexivity|].
  symmetry. apply firstn_all2. assumption.
Qed.

(** On a page whose stored text is an array of strings, [saveCityToHistory]
    returns, and stores and shows [added city l]. *)
Lemma saveCityToHistory_stored (city : jsstring) (p : Page) (l : list jsstring) :
  storedHistory p = Some l ->
  saveCityToHistory city p = (Return tt, showing (added city l) p).
Proof.
  intros H. apply storedHistory_parse in H.
  unfold saveCityToHistory, bind, gets, lift, modify.
  rewrite H. cbn [filterHistory]. rewrite filterOthers_strings, cap_firstn.
  apply renderHistory_after_setItem.
Qed.

(** Likewise [deleteCity] stores and shows the other entries. *)
Lemma deleteCity_stored (cityName : jsstring) (p : Page) (l : list jsstring) :
  storedHistory p = Some l ->
  deleteCity cityName p = (Return tt, showing (others cityName l) p).
Proof.
  intros H. apply storedHistory_parse in H.
  unfold deleteCity, tryCatch, bind, gets, lift, modify.
  rewrite H. cbn [filterHistory]. rewrite filterOthers_strings.
  rewrite renderHistory_after_setItem. reflexivity.
Qed.

End HistoryLists.

(* ===================================================================== *)
(** * Lists of names                                                     *)
(* ===================================================================== *)

Lemma In_firstn {A} (k : nat) (x : A) (l : list A) : In x (firstn k l) -> In x l.
Proof.
  revert l; induction k as [|k IH]; intros [|a l]; cbn [firstn]; try contradiction.
  intros [->|H]; [now left | right; now apply IH].
Qed.

Lemma filter_length_bound {A} (f : A -> bool) (l : list A) :
  List.length (filter f l) <= List.length l.
Proof.
  induction l as [|a l IH]; [apply le_n|].
  cbn [filter]. destruct (f a); simpl; lia.
Qed.

Section NameLists.
Context {CM : CaseMapping}.

Lemma sameName_true (a b : jsstring) :
  sameName a b = true <-> toLowerCase a = toLowerCase b.
Proof. apply streq_eq. Qed.

Lemma sameName_false (a b : jsstring) :
  sameName a b = false <-> toLowerCase a <> toLowerCase b.
Proof. apply streq_neq. Qed.

Lemma sameName_refl (a : jsstring) : sameName a a = true.
Proof. apply streq_refl. Qed.

Lemma In_others (name x : jsstring) (l : list jsstring) :
  In x (others name l) <-> In x l /\ sameName x name = false.
Proof.
  unfold others. rewrite filter_In.
  destruct (sameName x name); simpl; intuition congruence.
Qed.

Lemma others_all (name : jsstring) (l : list jsstring) :
  (forall x, In x l -> sameName x name = false) -> others name l = l.
Proof.
  intros H. unfold others. induction l as [|x l IH]; [reflexivity|].
  cbn [filter]. rewrite (H x (or_introl eq_refl)). cbn [negb].
  f_equal. apply IH. intros y Hy. apply H. now right.
Qed.

Lemma others_app (name : jsstring) (l1 l2 : list jsstring) :
  others name (l1 ++ l2) = others name l1 ++ others name l2.
Proof. apply filter_app. Qed.

Lemma others_same (a b : jsstring) (l : list jsstring) :
  toLowerCase a = toLowerCase b -> others a l = others b l.
Proof. intros E. unfold others, sameName. now rewrite E. Qed.

Lemma others_firstn_others (name : jsstring) (k : nat) (l : list jsstring) :
  others name (firstn k (others name l)) = firstn k (others name l).
Proof.
  apply others_all. intros x Hx.
  apply (In_others name x l). eapply In_firstn; eassumption.
Qed.

(** No entry of [others name l] is [name] in another casing. *)
Lemma named_others (name : jsstring) (l : list jsstring) :
  filter (fun x => sameName x name) (others name l) = [].
Proof.
  unfold others. induction l as [|x l IH]; [reflexivity|].
  cbn [filter]. destruct (sameName x name) eqn:E; cbn [negb]; [assumption|].
  cbn [filter]. now rewrite E.
Qed.

Lemma named_firstn_others (name : jsstring) (k : nat) (l : list jsstring) :
  filter (fun x => sameName x name) (firstn k (others name l)) = [].
Proof.
  rewrite <- (others_firstn_others name k l). apply named_others.
Qed.

Lemma added_cons (name : jsstring) (l : list jsstring) :
  added name l = name :: firstn 9 (others name l).
Proof. reflexivity. Qed.

Lemma added_length (name : jsstring) (l : list jsstring) :
  List.length (added name l) <= MAX_HISTORY_ITEMS.
Proof. unfold added. apply firstn_le_length. Qed.

(** Adding a name again changes nothing. *)
Lemma added_added (name : jsstring) (l : list jsstring) :
  added name (added name l) = added name l.
Proof.
  rewrite (added_cons name l), added_cons.
  unfold others at 1. cbn [filter]. rewrite sameName_refl. cbn [negb].
  fold (others name (firstn 9 (others name l))).
  rewrite others_firstn_others. f_equal.
  apply firstn_all2. apply firstn_le_length.
Qed.

(** Adding a name after the same name in another casing. *)
Lemma added_other_casing (a b : jsstring) (l : list jsstring) :
  toLowerCase a = toLowerCase b ->
  added b (added a l) = b :: firstn 9 (others a l).
Proof.
  intros E. rewrite (added_cons a l), added_cons.
  rewrite <- (others_same a b _ E).
  unfold others at 1. cbn [filter]. rewrite sameName_refl. cbn [negb].
  fold (others a (firstn 9 (others a l))).
  rewrite others_firstn_others. f_equal.
  apply firstn_all2. apply firstn_le_length.
Qed.

(** ** The invariant *)

Lemma stamp_le (log : list Op) (name : jsstring) : stamp log name <= List.length log.
Proof.
  induction log as [|[n|n] log IH]; simpl; try lia.
  destruct (sameName n name); lia.
Qed.

Lemma stamp_Add_same (log : list Op) (n x : jsstring) :
  sameName n x = true -> stamp (Add n :: log) x = S (List.length log).
Proof. intros H. simpl. now rewrite H. Qed.

Lemma stamp_Add_other (log : list Op) (n x : jsstring) :
  sameName x n = false -> stamp (Add n :: log) x = stamp log x.
Proof.
  intros H. simpl.
  destruct (sameName n x) eqn:E; [|reflexivity].
  apply sameName_true in E. apply sameName_false in H. congruence.
Qed.

Lemma StronglySorted_firstn {A} (R : A -> A -> Prop) (k : nat) (l : list A) :
  StronglySorted R l -> StronglySorted R (firstn k l).
Proof.
  intros H. revert k. induction H as [|a l Hl IH Ha]; intros [|k]; cbn [firstn];
    try constructor.
  - apply IH.
  - rewrite Forall_forall in *. intros x Hx. apply Ha. eapply In_firstn; eassumption.
Qed.

Lemma NoDup_firstn {A} (k : nat) (l : list A) : NoDup l -> NoDup (firstn k l).
Proof.
  intros H. revert k. induction H as [|a l Ha Hl IH]; intros [|k]; cbn [firstn];
    try constructor.
  - intros Hin. apply Ha. eapply In_firstn; eassumption.
  - apply IH.
Qed.

Lemma NoDup_lower_others (name : jsstring) (l : list jsstring) :
  NoDup (map toLowerCase l) -> NoDup (map toLowerCase (others name l)).
Proof.
  unfold others. induction l as [|x l IH]; cbn [map filter]; intros H; [assumption|].
  inversion H as [|? ? Hx Hl]; subst.
  destruct (negb (sameName x name)); [|now apply IH].
  cbn [map]. constructor; [|now apply IH].
  intros Hin. apply Hx. apply in_map_iff in Hin as (y & Ey & Hy).
  apply filter_In in Hy as [Hy _]. apply in_map_iff. now exists y.
Qed.

Lemma recentFirst_others_Add (log : list Op) (n : jsstring) (l : list jsstring) :
  recentFirst log l -> recentFirst (Add n :: log) (others n l).
Proof.
  unfold recentFirst, others. intros H.
  induction H as [|a l Hl IH Ha]; cbn [filter]; [constructor|].
  destruct (sameName a n) eqn:Ea; cbn [negb]; [assumption|].
  constructor; [assumption|].
  rewrite Forall_forall in *. intros x Hx. apply filter_In in Hx as [Hx Hn].
  apply negb_true_iff in Hn.
  rewrite (stamp_Add_other log n a Ea), (stamp_Add_other log n x Hn). now apply Ha.
Qed.

Lemma recentFirst_others_Remove (log : list Op) (n : jsstring) (l : list jsstring) :
  recentFirst log l -> recentFirst (Remove n :: log) (others n l).
Proof.
  unfold recentFirst, others. intros H.
  induction H as [|a l Hl IH Ha]; cbn [filter]; [constructor|].
  destruct (negb (sameName a n)); [|assumption].
  constructor; [assumption|].
  rewrite Forall_forall in *. intros x Hx. apply filter_In in Hx as [Hx _].
  cbn [stamp]. now apply Ha.
Qed.

Lemma HistoryInv_added (log : list Op) (n : jsstring) (l : list jsstring) :
  HistoryInv log l -> HistoryInv (Add n :: log) (added n l).
Proof.
  intros (_ & Hnd & Hrf). split; [apply added_length|]. split.
  - unfold added. rewrite <- firstn_map. apply NoDup_firstn. cbn [map]. constructor.
    + intros Hin. apply in_map_iff in Hin as (y & Ey & Hy).
      apply In_others in Hy as [_ Hy]. apply sameName_false in Hy. congruence.
    + now apply NoDup_lower_others.
  - unfold added. apply StronglySorted_firstn. constructor.
    + now apply recentFirst_others_Add.
    + rewrite Forall_forall. intros x Hx. apply In_others in Hx as [_ Hx].
      rewrite (stamp_Add_other log n x Hx), (stamp_Add_same log n n (sameName_refl n)).
      pose proof (stamp_le log x). lia.
Qed.

Lemma HistoryInv_others (log : list Op) (n : jsstring) (l : list jsstring) :
  HistoryInv log l -> HistoryInv (Remove n :: log) (others n l).
Proof.
  intros (Hlen & Hnd & Hrf). split; [|split].
  - unfold others. pose proof (filter_length_bound (fun e => negb (sameName e n)) l). lia.
  - now apply NoDup_lower_others.
  - now apply recentFirst_others_Remove.
Qed.

End NameLists.

(* ===================================================================== *)
(** * Adding several names                                               *)
(* ===================================================================== *)

Lemma firstn_firstn_app {A} (k m : nat) (l t : list A) :
  k <= m -> firstn k (firstn m l ++ t) = firstn k (l ++ t).
Proof.
  revert m l; induction k as [|k IH]; intros m l Hkm; [reflexivity|].
  destruct m as [|m]; [lia|].
  destruct l as [|a l]; [reflexivity|].
  cbn [firstn List.app]. f_equal. apply IH. lia.
Qed.

Section AddingNames.
Context {CM : CaseMapping}.

Lemma addAll_stored (names : list jsstring) :
  forall (p : Page) (l : list jsstring),
    storedHistory p = Some l ->
    exists p',
      addAll names p = (Return tt, p') /\
      storedHistory p' = Some (fold_left (fun h n => added n h) names l).
Proof.
  induction names as [|n more IH]; intros p l H.
  - exists p. split; [reflexivity | assumption].
  - cbn [addAll fold_left]. unfold bind.
    rewrite (saveCityToHistory_stored n p l H).
    apply IH. apply storedHistory_showing.
Qed.

Lemma added_recent (n : jsstring) (done t : list jsstring) :
  (forall y, In y done -> sameName y n = false) ->
  added n (firstn 10 (rev done ++ t))
  = firstn 10 (rev (done ++ [n])
               ++ others n (firstn (10 - List.length (rev done)) t)).
Proof.
  intros Hdone. rewrite rev_unit. unfold added, MAX_HISTORY_ITEMS.
  rewrite <- app_comm_cons, !(firstn_cons 9). f_equal.
  rewrite firstn_app, others_app.
  rewrite (others_all n (firstn 10 (rev done))).
  - apply firstn_firstn_app. lia.
  - intros x Hx. apply Hdone. apply in_rev. eapply In_firstn; eassumption.
Qed.

Lemma fold_added_recent (names : list jsstring) :
  forall done t : list jsstring,
    NoDup (map toLowerCase (done ++ names)) ->
    exists t',
      fold_left (fun h n => added n h) names (firstn 10 (rev done ++ t))
      = firstn 10 (rev (done ++ names) ++ t').
Proof.
  induction names as [|n more IH]; intros done t Hnd.
  - exists t. now rewrite app_nil_r.
  - cbn [fold_left]. rewrite added_recent.
    + replace (done ++ n :: more) with ((done ++ [n]) ++ more) in *
        by (now rewrite <- app_assoc).
      apply IH. assumption.
    + intros y Hy. apply sameName_false. intros E.
      rewrite map_app in Hnd. cbn [map] in Hnd.
      apply NoDup_remove_2 in Hnd. apply Hnd.
      apply in_or_app. left. rewrite <- E. now apply in_map.
Qed.

(** Ten or more names, no two the same: the history ends up holding the
    last ten, latest first, whatever it held before. *)
Lemma fold_added_last_ten (names l : list jsstring) :
  NoDup (map toLowerCase names) ->
  10 <= List.length names ->
  fold_left (fun h n => added n h) names l = firstn 10 (rev names).
Proof.
  intros Hnd Hlen. destruct names as [|n more]; [simpl in Hlen; lia|].
  cbn [fold_left].
  change (added n l) with (firstn 10 (rev [n] ++ others n l)).
  destruct (fold_added_recent more [n] (others n l) Hnd) as [t' ->].
  change ([n] ++ more) with (n :: more).
  rewrite firstn_app.
  assert (E : 10 - List.length (rev (n :: more)) = 0) by (rewrite length_rev; lia).
  rewrite E, firstn_0. apply app_nil_r.
Qed.

End AddingNames.

(* ===================================================================== *)
(** * Properties of the history store                                    *)
(* ===================================================================== *)

(** C3, as the code has it. [renderHistory] shows a stored array of
    strings in its stored order, which after an [add] or a [remove] on a
    history that is most-recent-first is most-recent-first again; with no
    stored entry, or an empty stored text, it shows the empty sequence; a
    stored text that is not well-formed JSON makes it throw the
    [SyntaxError] of [JSON.parse], and the buttons on the page stay as
    they were. A stored array of other values is shown as well when each
    entry has a conversion to a string; an entry that has none makes it
    throw after the entries before it were shown. *)
Theorem renderHistory_lists_stored_entries :
  (forall (p : Page) (l : list jsstring),
     storedHistory p = Some l ->
     renderHistory p = (Return tt, setContainer (map JString l) p)) /\
  (forall (CM : CaseMapping) (log : list Op) (op : Op) (p : Page) (l : list jsstring),
     storedHistory p = Some l -> recentFirst log l ->
     exists p' l',
       exec op p = (Return tt, p') /\ renderHistory p' = (Return tt, p') /\
       historyContainer p' = map JString l' /\ recentFirst (op :: log) l') /\
  (forall p : Page,
     weatherHistory p = None \/ weatherHistory p = Some [] ->
     renderHistory p = (Return tt, setContainer [] p)) /\
  (forall (p : Page) (text : jsstring) (e : Error),
     weatherHistory p = Some text -> text <> [] -> JSON_parse text = Throw e ->
     renderHistory p = (Throw e, p)) /\
  (forall (p : Page) (items : list json),
     JSON_parse (getItemOrEmpty p) = Return (JArray items) ->
     forallb hasString items = true ->
     renderHistory p = (Return tt, setContainer items p)) /\
  (forall (p : Page) (shown : list json) (city : json) (more : list json),
     JSON_parse (getItemOrEmpty p) = Return (JArray (shown ++ city :: more)) ->
     forallb hasString shown = true -> hasString city = false ->
     exists e, renderHistory p = (Throw e, setContainer shown p)).
Proof.
  split; [|split; [|split; [|split; [|split]]]].
  - intros p l H. apply storedHistory_parse in H.
    apply (renderHistory_items p (JArray (map JString l))); trivial.
    apply hasString_strings.
  - intros CM log op p l Hst Hrf.
    assert (Hshow : forall l', renderHistory (showing l' p) = (Return tt, showing l' p)).
    { intros l'. apply (renderHistory_after_setItem l' (showing l' p)). }
    destruct op as [n|n]; cbn [exec].
    + exists (showing (added n l) p), (added n l).
      rewrite (saveCityToHistory_stored n p l Hst), Hshow.
      repeat split. unfold added. apply StronglySorted_firstn. constructor.
      * now apply recentFirst_others_Add.
      * rewrite Forall_forall. intros x Hx. apply In_others in Hx as [_ Hx].
        rewrite (stamp_Add_other log n x Hx), (stamp_Add_same log n n (sameName_refl n)).
        pose proof (stamp_le log x). lia.
    + exists (showing (others n l) p), (others n l).
      rewrite (deleteCity_stored n p l Hst), Hshow.
      repeat split. now apply recentFirst_others_Remove.
  - intros p [H|H]; unfold renderHistory, bind, gets, lift, modify, getItemOrEmpty;
      rewrite H; reflexivity.
  - intros p text e H Hne Hparse.
    unfold renderHistory, bind, gets, lift, modify, getItemOrEmpty.
    rewrite H. destruct text as [|c r]; [contradiction|].
    rewrite Hparse. reflexivity.
  - intros p items H Hall. now apply (renderHistory_items p (JArray items)).
  - intros p shown city more H Hshown Hcity.
    unfold renderHistory, bind, gets, lift, modify. rewrite H. cbn [iterate].
    destruct (appendButtons_stops shown city more Hshown Hcity (setContainer [] p))
      as [e ->].
    now exists e.
Qed.

Lemma renderHistory_lists_stored_entries_witness :
  (storedHistory (pageStoring ["Oslo"; "Rome"]%string) = Some (map str ["Oslo"; "Rome"]%string) /\
   renderHistory (pageStoring ["Oslo"; "Rome"]%string)
   = (Return tt, setContainer [JString (str "Oslo"); JString (str "Rome")]
                   (pageStoring ["Oslo"; "Rome"]%string))) /\
  (storedHistory emptyPage = Some [] /\ recentFirst (CM := Latin1Case) [] [] /\
   exists p' l',
     exec (Add (str "Oslo")) emptyPage = (Return tt, p') /\
     renderHistory p' = (Return tt, p') /\
     historyContainer p' = map JString l' /\
     recentFirst [Add (str "Oslo")] l') /\
  (weatherHistory emptyPage = None /\
   renderHistory emptyPage = (Return tt, setContainer [] emptyPage)) /\
  (weatherHistory (pageWith "{not json") = Some (str "{not json") /\
   str "{not json" <> [] /\ JSON_parse (str "{not json") = Throw SyntaxError /\
   renderHistory (pageWith "{not json") = (Throw SyntaxError, pageWith "{not json")) /\
  (JSON_parse (getItemOrEmpty (pageWith "[1,[null,true]]"))
   = Return (JArray [JNumber (numberOfZ 1); JArray [JNull; JBool true]]) /\
   renderHistory (pageWith "[1,[null,true]]")
   = (Return tt, setContainer [JNumber (numberOfZ 1); JArray [JNull; JBool true]]
                   (pageWith "[1,[null,true]]"))) /\
  (let p := {| weatherHistory := Some (str "[3,{" ++ quoted "toString" ++ str ":1},4]");
               historyContainer := [];
               alerts := [] |} in
   JSON_parse (getItemOrEmpty p)
   = Return (JArray ([JNumber (numberOfZ 3)]
                     ++ JObject [(str "toString", JNumber (numberOfZ 1))]
                     :: [JNumber (numberOfZ 4)])) /\
   exists e, renderHistory p = (Throw e, setContainer [JNumber (numberOfZ 3)] p)).
Proof.
  destruct renderHistory_lists_stored_entries as (H1 & H2 & H3 & H4 & H5 & H6).
  split; [|split; [|split; [|split; [|split]]]].
  - split; [reflexivity|].
    apply (H1 _ (map str ["Oslo"; "Rome"]%string)). reflexivity.
  - split; [reflexivity|]. split; [constructor|].
    apply (H2 Latin1Case [] (Add (str "Oslo")) emptyPage []); [reflexivity | constructor].
  - split; [reflexivity|]. apply H3. left. reflexivity.
  - split; [reflexivity|]. split; [discriminate|]. split; [reflexivity|].
    apply (H4 _ (str "{not json")); [reflexivity | discriminate | reflexivity].
  - split; [vm_compute; reflexivity|]. apply H5; vm_compute; reflexivity.
  - intros p. split; [vm_compute; reflexivity|].
    apply (H6 p [JNumber (numberOfZ 3)] (JObject [(str "toString", JNumber (numberOfZ 1))])
             [JNumber (numberOfZ 4)]); vm_compute; reflexivity.
Defined.

(** C3 as stated fails: with a stored text that is not well-formed JSON,
    [renderHistory] does not return the empty sequence, it throws. *)
Lemma renderHistory_malformed_throws :
  JSON_parse (str "{not json") = Throw SyntaxError /\
  renderHistory (pageWith "{not json") = (Throw SyntaxError, pageWith "{not json") /\
  renderHistory (pageWith "{not json")
  <> (Return tt, setContainer [] (pageWith "{not json")).
Proof.
  split; [reflexivity|]. split; [reflexivity|]. discriminate.
Qed.

(** C7. Every operation of the history store keeps the HistoryList
    invariant: on a page whose stored history satisfies it, [add] and
    [remove] return, and the history they store has at most 10 entries, no
    two of them equal without regard to case, each added later than all the
    entries after it. In particular, adding 11 names, no two of them equal
    without regard to case, leaves exactly the 10 added last, the latest
    first. *)
Theorem history_invariant_preserved (CM : CaseMapping) :
  (forall (log : list Op) (op : Op) (p : Page) (l : list jsstring),
     storedHistory p = Some l -> HistoryInv log l ->
     exists p' l',
       exec op p = (Return tt, p') /\
       storedHistory p' = Some l' /\
       HistoryInv (op :: log) l') /\
  (forall (names : list jsstring) (p : Page) (l : list jsstring),
     storedHistory p = Some l ->
     List.length names = 11 ->
     NoDup (map toLowerCase names) ->
     exists p',
       addAll names p = (Return tt, p') /\
       storedHistory p' = Some (firstn 10 (rev names)) /\
       List.length (firstn 10 (rev names)) = 10).
Proof.
  split.
  - intros log [n|n] p l Hst Hinv; cbn [exec].
    + exists (showing (added n l) p), (added n l).
      split; [now apply saveCityToHistory_stored|].
      split; [apply storedHistory_showing | now apply HistoryInv_added].
    + exists (showing (others n l) p), (others n l).
      split; [now apply deleteCity_stored|].
      split; [apply storedHistory_showing | now apply HistoryInv_others].
  - intros names p l Hst Hlen Hnd.
    destruct (addAll_stored names p l Hst) as (p' & Hrun & Hst').
    exists p'. split; [assumption|].
    rewrite fold_added_last_ten in Hst' by (assumption || lia).
    split; [assumption|].
    rewrite length_firstn, length_rev. lia.
Qed.

Lemma history_invariant_preserved_witness :
  let names := map str ["Oslo"; "Rome"; "Lima"; "Bern"; "Riga"; "Kyiv"; "Doha";
                        "Male"; "Lome"; "Baku"; "Suva"]%string in
  (storedHistory emptyPage = Some [] /\
   HistoryInv (CM := Latin1Case) [] [] /\
   exists p' l',
     exec (Add (str "Paris")) emptyPage = (Return tt, p') /\
     storedHistory p' = Some l' /\
     HistoryInv [Add (str "Paris")] l') /\
  (List.length names = 11 /\
   NoDup (map toLowerCase names) /\
   exists p',
     addAll names emptyPage = (Return tt, p') /\
     storedHistory p' = Some (firstn 10 (rev names)) /\
     List.length (firstn 10 (rev names)) = 10).
Proof.
  intros names.
  assert (Hinv : HistoryInv (CM := Latin1Case) [] []).
  { split; [apply Nat.le_0_l|]. split; constructor. }
  assert (Hnd : NoDup (map toLowerCase names)).
  { vm_compute. repeat (constructor; [simpl; intuition discriminate|]). constructor. }
  destruct (history_invariant_preserved Latin1Case) as [Hstep Heleven].
  split.
  - split; [reflexivity|]. split; [exact Hinv|].
    exact (Hstep [] (Add (str "Paris")) emptyPage [] eq_refl Hinv).
  - split; [reflexivity|]. split; [exact Hnd|].
    exact (Heleven names emptyPage [] eq_refl eq_refl Hnd).
Defined.

(** C8. [add] is idempotent: on every page whose stored history is an
    array of strings, adding a name returns, and adding it a second time
    leaves the page as the first did; the stored list then starts with the
    name and holds it exactly once, in any casing. *)
Theorem add_idempotent (CM : CaseMapping) (name : jsstring) (p : Page) (l : list jsstring) :
  storedHistory p = Some l ->
  exists p1 l1,
    saveCityToHistory name p = (Return tt, p1) /\
    storedHistory p1 = Some l1 /\
    saveCityToHistory name p1 = (Return tt, p1) /\
    addAll [name; name] p = (Return tt, p1) /\
    hd_error l1 = Some name /\
    filter (fun existing => sameName existing name) l1 = [name] /\
    count_occ (list_eq_dec N.eq_dec) l1 name = 1.
Proof.
  intros Hst.
  exists (showing (added name l) p), (added name l).
  assert (Hst1 := storedHistory_showing (added name l) p).
  assert (Hagain :
    saveCityToHistory name (showing (added name l) p)
    = (Return tt, showing (added name l) p)).
  { rewrite (saveCityToHistory_stored name _ _ Hst1), added_added. reflexivity. }
  assert (Honce : filter (fun existing => sameName existing name) (added name l) = [name]).
  { rewrite added_cons. cbn [filter]. rewrite sameName_refl.
    now rewrite named_firstn_others. }
  split; [now apply saveCityToHistory_stored|].
  split; [assumption|]. split; [assumption|]. split.
  { cbn [addAll]. unfold bind.
    rewrite (saveCityToHistory_stored name p l Hst), Hagain. reflexivity. }
  split; [reflexivity|]. split; [assumption|].
  rewrite added_cons. rewrite count_occ_cons_eq by reflexivity. f_equal.
  apply count_occ_not_In. intros Hin.
  assert (Hmem : In name (filter (fun existing => sameName existing name)
                            (firstn 9 (others name l)))).
  { apply filter_In. split; [assumption | apply sameName_refl]. }
  now rewrite named_firstn_others in Hmem.
Qed.

Lemma add_idempotent_witness :
  storedHistory (pageStoring ["Rome"; "paris"; "Oslo"]%string)
  = Some [str "Rome"; str "paris"; str "Oslo"] /\
  exists p1 l1,
    saveCityToHistory (str "Paris") (pageStoring ["Rome"; "paris"; "Oslo"]%string)
    = (Return tt, p1) /\
    storedHistory p1 = Some l1 /\
    saveCityToHistory (str "Paris") p1 = (Return tt, p1) /\
    addAll [str "Paris"; str "Paris"] (pageStoring ["Rome"; "paris"; "Oslo"]%string)
    = (Return tt, p1) /\
    hd_error l1 = Some (str "Paris") /\
    filter (fun existing => sameName existing (str "Paris")) l1 = [str "Paris"] /\
    count_occ (list_eq_dec N.eq_dec) l1 (str "Paris") = 1.
Proof.
  split; [reflexivity|].
  apply (add_idempotent Latin1Case (str "Paris")
           (pageStoring ["Rome"; "paris"; "Oslo"]%string)
           [str "Rome"; str "paris"; str "Oslo"]).
  reflexivity.
Defined.

(** C9. [add] removes duplicates without regard to case and keeps the
    casing added last: after adding two names that are equal without
    regard to case, the stored list holds exactly one entry for that name,
    at the front, in the casing of the second. *)
Theorem add_keeps_latest_casing (CM : CaseMapping) (a b : jsstring)
    (p : Page) (l : list jsstring) :
  storedHistory p = Some l ->
  toLowerCase a = toLowerCase b ->
  exists p2 l2,
    addAll [a; b] p = (Return tt, p2) /\
    storedHistory p2 = Some l2 /\
    hd_error l2 = Some b /\
    filter (fun existing => sameName existing a) l2 = [b].
Proof.
  intros Hst E.
  exists (showing (added b (added a l)) p), (added b (added a l)).
  split.
  { cbn [addAll]. unfold bind.
    rewrite (saveCityToHistory_stored a p l Hst).
    rewrite (saveCityToHistory_stored b _ _ (storedHistory_showing (added a l) p)).
    reflexivity. }
  split; [apply storedHistory_showing|].
  rewrite (added_other_casing a b l E). split; [reflexivity|].
  cbn [filter]. replace (sameName b a) with true
    by (symmetry; apply sameName_true; congruence).
  now rewrite named_firstn_others.
Qed.

Lemma add_keeps_latest_casing_witness :
  storedHistory (pageStoring ["Rome"]%string) = Some [str "Rome"] /\
  toLowerCase (str "Paris") = toLowerCase (str "PARIS") /\
  exists p2 l2,
    addAll [str "Paris"; str "PARIS"] (pageStoring ["Rome"]%string) = (Return tt, p2) /\
    storedHistory p2 = Some l2 /\
    hd_error l2 = Some (str "PARIS") /\
    filter (fun existing => sameName existing (str "Paris")) l2 = [str "PARIS"].
Proof.
  split; [reflexivity|]. split; [reflexivity|].
  apply (add_keeps_latest_casing Latin1Case (str "Paris") (str "PARIS")
           (pageStoring ["Rome"]%string) [str "Rome"]); reflexivity.
Defined.

(* ===================================================================== *)
(** * The request gateway                                                *)
(* ===================================================================== *)

Ltac run_handler :=
  unfold weatherByCity, weatherByCoords, runHandler, tryCatch, await, res_json,
    res_status_json, bind, lift, ret, makeRequest.

Section Gateway.
Context {CM : CaseMapping}.

(** What a lookup answers once both upstream requests are under way. *)
Lemma weatherByCity_cases (w : World) (city : jsstring) :
  (exists msg,
     ((strlen (trim city) =? 0)%N = true \/ (100 <? strlen (trim city))%N = true) /\
     weatherByCity w city [] = (Return (JsonResponse 400 (errorBody msg)), []))
  \/
  (exists e,
     encodeURIComponent (trim city) = Throw e /\
     weatherByCity w city []
     = (Return (JsonResponse 500 (errorBody (getErrorMessage e))), []))
  \/
  (exists q,
     (strlen (trim city) =? 0)%N = false /\
     (100 <? strlen (trim city))%N = false /\
     encodeURIComponent (trim city) = Return q /\
     weatherByCity w city []
     = (Return
          match
            Promise_all
              {| outcome := settle (respond w (currentWeatherUrlFor w q));
                 settledAt := clock w (currentWeatherUrlFor w q) |}
              {| outcome := settle (respond w (forecastUrlFor w q));
                 settledAt := clock w (forecastUrlFor w q) |}
          with
          | Throw e => JsonResponse 500 (errorBody (getErrorMessage e))
          | Return (currentWeather, forecast) =>
              match readProperty currentWeather "name" with
              | Throw e => JsonResponse 500 (errorBody (getErrorMessage e))
              | Return _ => JsonResponse 200 (bundle currentWeather forecast)
              end
          end,
        [currentWeatherUrlFor w q; forecastUrlFor w q])).
Proof.
  run_handler.
  destruct (strlen (trim city) =? 0)%N eqn:Hempty.
  { left. eexists. split; [now left|].
    rewrite orb_true_r. reflexivity. }
  assert (Hcity : match city with [] => true | _ :: _ => false end = false).
  { destruct city; [discriminate Hempty | reflexivity]. }
  rewrite Hcity. cbn [orb].
  destruct (100 <? strlen (trim city))%N eqn:Hlong.
  { left. eexists. split; [now right | reflexivity]. }
  right.
  destruct (encodeURIComponent (trim city)) as [q|e] eqn:Henc.
  - right. exists q. repeat split.
    change (API_BASE_URL ++ str "/weather?q=" ++ q ++ str "&appid=" ++ API_KEY w
            ++ str "&units=" ++ DEFAULT_UNITS) with (currentWeatherUrlFor w q).
    change (API_BASE_URL ++ str "/forecast?q=" ++ q ++ str "&appid=" ++ API_KEY w
            ++ str "&units=" ++ DEFAULT_UNITS) with (forecastUrlFor w q).
    cbn [List.app].
    destruct (Promise_all _ _) as [[cw fc]|e]; [|reflexivity].
    destruct (readProperty cw "name"); reflexivity.
  - left. exists e. split; reflexivity.
Qed.

Lemma weatherByCoords_cases (w : World) (lat lon : qvalue) :
  (exists msg,
     isFalsy lat || isFalsy lon || negb (isValidCoordinate lat lon) = true /\
     weatherByCoords w lat lon [] = (Return (JsonResponse 400 (errorBody msg)), []))
  \/
  (isFalsy lat = false /\ isFalsy lon = false /\ isValidCoordinate lat lon = true /\
   weatherByCoords w lat lon []
   = (Return
        match
          Promise_all
            {| outcome := settle (respond w (currentWeatherUrlAt w lat lon));
               settledAt := clock w (currentWeatherUrlAt w lat lon) |}
            {| outcome := settle (respond w (forecastUrlAt w lat lon));
               settledAt := clock w (forecastUrlAt w lat lon) |}
        with
        | Throw e => JsonResponse 500 (errorBody (getErrorMessage e))
        | Return (currentWeather, forecast) =>
            match readProperty currentWeather "name" with
            | Throw e => JsonResponse 500 (errorBody (getErrorMessage e))
            | Return _ => JsonResponse 200 (bundle currentWeather forecast)
            end
        end,
      [currentWeatherUrlAt w lat lon; forecastUrlAt w lat lon])).
Proof.
  run_handler.
  destruct (isFalsy lat || isFalsy lon) eqn:Hmissing.
  { left. eexists. split; reflexivity. }
  destruct (isValidCoordinate lat lon) eqn:Hvalid; cbn [negb].
  2:{ left. eexists. split; reflexivity. }
  right. apply orb_false_elim in Hmissing as [Hlat Hlon].
  repeat split; try assumption.
  change (API_BASE_URL ++ str "/weather?lat=" ++ toString lat ++ str "&lon="
          ++ toString lon ++ str "&appid=" ++ API_KEY w
          ++ str "&units=" ++ DEFAULT_UNITS) with (currentWeatherUrlAt w lat lon).
  change (API_BASE_URL ++ str "/forecast?lat=" ++ toString lat ++ str "&lon="
          ++ toString lon ++ str "&appid=" ++ API_KEY w
          ++ str "&units=" ++ DEFAULT_UNITS) with (forecastUrlAt w lat lon).
  cbn [List.app].
  destruct (Promise_all _ _) as [[cw fc]|e]; [|reflexivity].
  destruct (readProperty cw "name"); reflexivity.
Qed.

Lemma settle_Return (reply : Reply) (v : json) :
  settle reply = Return v ->
  exists chunks,
    reply = End 200 chunks /\ JSON_parse (accumulate chunks) = Return v.
Proof.
  destruct reply as [e| |statusCode chunks]; cbn [settle]; try discriminate.
  destruct (N.eqb_spec statusCode 200) as [->|]; [|discriminate].
  destruct (JSON_parse (accumulate chunks)) as [v'|] eqn:E; [|discriminate].
  intros [= <-]. now exists chunks.
Qed.

Lemma settle_End_200 (chunks : list jsstring) (v : json) :
  JSON_parse (accumulate chunks) = Return v -> settle (End 200 chunks) = Return v.
Proof. intros H. cbn [settle N.eqb Pos.eqb]. now rewrite H. Qed.

Lemma Promise_all_Return (p1 p2 : Promise) (a b : json) :
  Promise_all p1 p2 = Return (a, b) <-> outcome p1 = Return a /\ outcome p2 = Return b.
Proof.
  unfold Promise_all.
  destruct (outcome p1), (outcome p2); try destruct (_ <? _)%N;
    split; try discriminate; try (intros [H1 H2]; discriminate).
  - intros [= <- <-]. now split.
  - intros [[= <-] [= <-]]. reflexivity.
Qed.

(** A rejected promise rejects the whole, with the error of a rejected
    one. *)
Lemma Promise_all_Throw (p1 p2 : Promise) :
  rejected (outcome p1) \/ rejected (outcome p2) ->
  exists e,
    Promise_all p1 p2 = Throw e /\ (outcome p1 = Throw e \/ outcome p2 = Throw e).
Proof.
  unfold Promise_all, rejected.
  destruct (outcome p1) as [a|e1], (outcome p2) as [b|e2].
  - intros [[e H]|[e H]]; discriminate.
  - intros _. exists e2. split; [reflexivity | now right].
  - intros _. exists e1. split; [reflexivity | now left].
  - intros _. destruct (_ <? _)%N.
    + exists e2. split; [reflexivity | now right].
    + exists e1. split; [reflexivity | now left].
Qed.

Lemma readProperty_not_null (v : json) (name : string) :
  v <> JNull -> readProperty v name = Return tt.
Proof. destruct v; try reflexivity. contradiction. Qed.

End Gateway.

(* ===================================================================== *)
(** * Properties of the request gateway                                  *)
(* ===================================================================== *)

(** C5. For every name whose trimmed length is 0 or greater than 100, the
    lookup by name answers 400 with an error message and issues no
    upstream request. *)
Theorem weatherByCity_rejects_bad_names (CM : CaseMapping) (w : World) (city : jsstring) :
  strlen (trim city) = 0%N \/ (100 < strlen (trim city))%N ->
  exists msg,
    weatherByCity w city [] = (Return (JsonResponse 400 (errorBody msg)), []) /\
    runHandler (weatherByCity w city) = (JsonResponse 400 (errorBody msg), []).
Proof.
  intros Hbad.
  destruct (weatherByCity_cases w city)
    as [(msg & _ & Hrun) | [(e & _ & Hrun) | (q & Hempty & Hlong & _)]].
  - exists msg. split; [assumption|]. unfold runHandler. now rewrite Hrun.
  - exfalso. revert Hrun. run_handler.
    destruct Hbad as [H|H].
    + rewrite H. cbn [N.eqb]. rewrite orb_true_r. discriminate.
    + apply N.ltb_lt in H. rewrite H.
      destruct (_ || _); discriminate.
  - exfalso. apply N.eqb_neq in Hempty. apply N.ltb_ge in Hlong.
    destruct Hbad; [contradiction | lia].
Qed.

Lemma weatherByCity_rejects_bad_names_witness :
  (strlen (trim (str "   ")) = 0%N \/ (100 < strlen (trim (str "   ")))%N) /\
  exists msg,
    weatherByCity allUp (str "   ") []
    = (Return (JsonResponse 400 (errorBody msg)), []) /\
    runHandler (weatherByCity allUp (str "   ")) = (JsonResponse 400 (errorBody msg), []).
Proof.
  assert (H : strlen (trim (str "   ")) = 0%N \/ (100 < strlen (trim (str "   ")))%N).
  { left. reflexivity. }
  split; [exact H|].
  exact (weatherByCity_rejects_bad_names Latin1Case allUp (str "   ") H).
Defined.

(** C4. For every lookup, by name or by coordinates: if an upstream
    request it issued fails, the lookup answers 500 with the translated
    message of a failed request, whichever of the two failed; it never
    answers with a bundle then. *)
Theorem lookup_fails_when_an_upstream_call_fails (CM : CaseMapping) (w : World) :
  (forall (city : jsstring) (res : Exn Response) (calls : list jsstring) (url : jsstring),
     weatherByCity w city [] = (res, calls) ->
     In url calls -> rejected (settle (respond w url)) ->
     exists failed e,
       In failed calls /\ settle (respond w failed) = Throw e /\
       res = Return (JsonResponse 500 (errorBody (getErrorMessage e)))) /\
  (forall (lat lon : qvalue) (res : Exn Response) (calls : list jsstring) (url : jsstring),
     weatherByCoords w lat lon [] = (res, calls) ->
     In url calls -> rejected (settle (respond w url)) ->
     exists failed e,
       In failed calls /\ settle (respond w failed) = Throw e /\
       res = Return (JsonResponse 500 (errorBody (getErrorMessage e)))).
Proof.
  assert (Hjoin : forall u1 u2 url res,
    In url [u1; u2] -> rejected (settle (respond w url)) ->
    res = Return
            match
              Promise_all
                {| outcome := settle (respond w u1); settledAt := clock w u1 |}
                {| outcome := settle (respond w u2); settledAt := clock w u2 |}
            with
            | Throw e => JsonResponse 500 (errorBody (getErrorMessage e))
            | Return (currentWeather, forecast) =>
                match readProperty currentWeather "name" with
                | Throw e => JsonResponse 500 (errorBody (getErrorMessage e))
                | Return _ => JsonResponse 200 (bundle currentWeather forecast)
                end
            end ->
    exists failed e,
      In failed [u1; u2] /\ settle (respond w failed) = Throw e /\
      res = Return (JsonResponse 500 (errorBody (getErrorMessage e)))).
  { intros u1 u2 url res Hin Hrej Hres.
    destruct (Promise_all_Throw
                {| outcome := settle (respond w u1); settledAt := clock w u1 |}
                {| outcome := settle (respond w u2); settledAt := clock w u2 |})
      as (e & Hall & Hwho).
    { cbn [outcome]. destruct Hin as [<-|[<-|[]]]; [now left | now right]. }
    rewrite Hall in Hres. cbn [outcome] in Hwho.
    destruct Hwho as [H|H]; [exists u1 | exists u2]; exists e;
      (split; [simpl; tauto | split; assumption]). }
  split.
  - intros city res calls url Hrun Hin Hrej.
    destruct (weatherByCity_cases w city)
      as [(msg & _ & E) | [(e & _ & E) | (q & _ & _ & _ & E)]];
      rewrite E in Hrun; injection Hrun as <- <-; try contradiction.
    eapply Hjoin; eauto.
  - intros lat lon res calls url Hrun Hin Hrej.
    destruct (weatherByCoords_cases w lat lon) as [(msg & _ & E) | (_ & _ & _ & E)];
      rewrite E in Hrun; injection Hrun as <- <-; try contradiction.
    eapply Hjoin; eauto.
Qed.

Lemma lookup_fails_when_an_upstream_call_fails_witness :
  let url := forecastUrlFor forecastDown (str "London") in
  let e := mkError (str "Weather API returned status 500: down") in
  (weatherByCity forecastDown (str "London") []
   = (Return (JsonResponse 500 (errorBody (getErrorMessage e))),
      [currentWeatherUrlFor forecastDown (str "London"); url]) /\
   In url [currentWeatherUrlFor forecastDown (str "London"); url] /\
   rejected (settle (respond forecastDown url))) /\
  exists failed e',
    In failed [currentWeatherUrlFor forecastDown (str "London"); url] /\
    settle (respond forecastDown failed) = Throw e' /\
    Return (JsonResponse 500 (errorBody (getErrorMessage e)))
    = Return (JsonResponse 500 (errorBody (getErrorMessage e'))).
Proof.
  intros url e.
  assert (Hrun : weatherByCity forecastDown (str "London") []
                 = (Return (JsonResponse 500 (errorBody (getErrorMessage e))),
                    [currentWeatherUrlFor forecastDown (str "London"); url])).
  { vm_compute. reflexivity. }
  assert (Hin : In url [currentWeatherUrlFor forecastDown (str "London"); url]).
  { right. left. reflexivity. }
  assert (Hrej : rejected (settle (respond forecastDown url))).
  { exists e. vm_compute. reflexivity. }
  split; [repeat split; assumption|].
  destruct (lookup_fails_when_an_upstream_call_fails Latin1Case forecastDown) as [Hcity _].
  exact (Hcity (str "London") _ _ url Hrun Hin Hrej).
Defined.

Lemma categoryMessage_injective (c c' : Category) :
  categoryMessage c = categoryMessage c' -> c = c'.
Proof. destruct c, c'; intros H; try reflexivity; vm_compute in H; discriminate H. Qed.

(** C6. The error translation is a total function from errors to
    messages (a pure one: it takes the error and nothing else, and runs in
    no state): for every error, its result is the message of exactly one of
    the five categories, and it is the generic "temporarily unavailable"
    one exactly when none of the patterns occurs in the lower-cased
    message of the error. *)
Theorem getErrorMessage_total (CM : CaseMapping) (error : Error) :
  (exists c,
     getErrorMessage error = categoryMessage c /\
     forall c', getErrorMessage error = categoryMessage c' -> c' = c) /\
  (getErrorMessage error = categoryMessage TemporarilyUnavailable <->
   Forall (fun pattern => includes (toLowerCase (message error)) pattern = false)
     errorPatterns).
Proof.
  assert (Hcat : exists c, getErrorMessage error = categoryMessage c).
  { unfold getErrorMessage.
    destruct (_ || _); [now exists NotFound|].
    destruct (_ || _); [now exists AuthenticationFailed|].
    destruct (includes _ _); [now exists TimedOut|].
    destruct (_ || _); [now exists Unreachable|].
    now exists TemporarilyUnavailable. }
  split.
  - destruct Hcat as [c Hc]. exists c. split; [assumption|].
    intros c' Hc'. apply categoryMessage_injective. congruence.
  - unfold errorPatterns. cbn [map].
    repeat rewrite Forall_cons_iff. unfold getErrorMessage.
    set (m := toLowerCase (message error)).
    destruct (includes m (str "404")), (includes m (str "not found")),
      (includes m (str "401")), (includes m (str "unauthorized")),
      (includes m (str "timeout")), (includes m (str "network")),
      (includes m (str "enotfound"));
      cbn [orb]; split; intros H;
      try (vm_compute in H; discriminate H);
      try (exfalso; intuition discriminate);
      try reflexivity.
    repeat split; constructor.
Qed.

(** A path the coordinate route matches is matched by the city route. *)
Lemma city_route_shadows (path : jsstring) :
  matchPath [Lit (str "api"); Lit (str "weather"); Param (str "city")] path = None ->
  matchPath [Lit (str "api"); Lit (str "weather"); Lit (str "coords")] path = None.
Proof.
  unfold matchPath. destruct (splitPath path) as [|[|c first] segs]; try reflexivity.
  destruct (dropTrailingSlash segs) as [|s1 [|s2 [|s3 [|s4 more]]]]; try reflexivity;
    cbn [matchSegments].
  - destruct (eqIgnoreCase (str "api") s1); reflexivity.
  - destruct (eqIgnoreCase (str "api") s1); [|reflexivity].
    destruct (eqIgnoreCase (str "weather") s2); reflexivity.
  - destruct (eqIgnoreCase (str "api") s1); [|reflexivity].
    destruct (eqIgnoreCase (str "weather") s2); [|reflexivity].
    destruct s3; [reflexivity | discriminate].
  - destruct (eqIgnoreCase (str "api") s1); [|reflexivity].
    destruct (eqIgnoreCase (str "weather") s2); [|reflexivity].
    destruct (eqIgnoreCase (str "coords") s3); reflexivity.
Qed.

(** C2. Because the city route is registered first, every GET (or HEAD)
    request whose path is [/api/weather/coords] goes to the handler of the
    lookup by name, with [city = "coords"], whatever its query; and no
    request at all reaches the handler of the lookup by coordinates. *)
Theorem coords_path_goes_to_city_handler :
  (forall req : Request,
     method req = GET \/ method req = HEAD ->
     pathname req = str "/api/weather/coords" ->
     dispatch req = ToHandler ByCity [(str "city", str "coords")] /\
     forall (CM : CaseMapping) (w : World),
       app w req = runHandler (weatherByCity w (str "coords"))) /\
  (forall (req : Request) (params : list (jsstring * jsstring)),
     dispatch req <> ToHandler ByCoords params).
Proof.
  split.
  - intros req Hm Hp.
    assert (Hd : dispatch req = ToHandler ByCity [(str "city", str "coords")]).
    { unfold dispatch. rewrite Hp. destruct Hm as [-> | ->]; reflexivity. }
    split; [assumption|]. intros CM w. unfold app. rewrite Hd. reflexivity.
  - intros req params. unfold dispatch.
    destruct (method req); try discriminate;
      try (destruct (allowedBy routes (pathname req)) as [[|]|]; discriminate);
      (destruct (express_static (pathname req)); [discriminate|];
       unfold routes; cbn [firstMatch];
       destruct (matchPath _ (pathname req)) as [raw|] eqn:Hcity;
       [ destruct (decodeParams raw); discriminate
       | rewrite (city_route_shadows _ Hcity); discriminate ]).
Qed.

Lemma coords_path_goes_to_city_handler_witness :
  let req := get "/api/weather/coords" [("lat", "51.5"); ("lon", "-0.12")]%string in
  (method req = GET \/ method req = HEAD) /\
  pathname req = str "/api/weather/coords" /\
  dispatch req = ToHandler ByCity [(str "city", str "coords")] /\
  forall (CM : CaseMapping) (w : World),
    app w req = runHandler (weatherByCity w (str "coords")).
Proof.
  intros req.
  assert (Hm : method req = GET \/ method req = HEAD) by (left; reflexivity).
  split; [exact Hm|]. split; [reflexivity|].
  destruct coords_path_goes_to_city_handler as [Hcity _].
  exact (Hcity req Hm eq_refl).
Defined.

Section CoordinateValidation.
Context {CM : CaseMapping}.

(** The handler of the lookup by coordinates, were it run: a missing or
    invalid coordinate is answered with 400 and no upstream request. *)
Lemma weatherByCoords_rejects_bad_coordinates (w : World) (lat lon : qvalue) :
  isFalsy lat = true \/ isFalsy lon = true \/ isValidCoordinate lat lon = false ->
  exists msg,
    weatherByCoords w lat lon [] = (Return (JsonResponse 400 (errorBody msg)), []).
Proof.
  intros Hbad.
  destruct (weatherByCoords_cases w lat lon) as [(msg & _ & E) | (Hlat & Hlon & Hv & _)].
  - now exists msg.
  - exfalso. destruct Hbad as [H|[H|H]]; congruence.
Qed.

End CoordinateValidation.

(** C1, the code at a failing input. The request
    [GET /api/weather/coords?lat=200&lon=10] has a latitude out of range,
    which the handler of the lookup by coordinates would answer with 400
    and no upstream request; the application gives it to the lookup by
    name instead, which issues both upstream requests for the city
    [coords] and answers 200 or 500, never 400. *)
Theorem coords_request_out_of_range_reaches_upstream (CM : CaseMapping) (w : World) :
  let req := get "/api/weather/coords" [("lat", "200"); ("lon", "10")]%string in
  isValidCoordinate (QString (str "200")) (QString (str "10")) = false /\
  (exists msg,
     weatherByCoords w (queryParam (query req) (str "lat"))
       (queryParam (query req) (str "lon")) []
     = (Return (JsonResponse 400 (errorBody msg)), [])) /\
  snd (app w req)
  = [currentWeatherUrlFor w (str "coords"); forecastUrlFor w (str "coords")] /\
  (statusOf (fst (app w req)) = 200%N \/ statusOf (fst (app w req)) = 500%N).
Proof.
  intros req.
  assert (Hinvalid : isValidCoordinate (QString (str "200")) (QString (str "10")) = false)
    by (vm_compute; reflexivity).
  split; [exact Hinvalid|]. split.
  { apply weatherByCoords_rejects_bad_coordinates. right. right. exact Hinvalid. }
  change (app w req) with (runHandler (weatherByCity w (str "coords"))).
  unfold runHandler.
  destruct (weatherByCity_cases w (str "coords"))
    as [(msg & [H|H] & _) | [(e & H & _) | (q & _ & _ & Henc & ->)]];
    try discriminate H.
  injection Henc as <-. cbn [fst snd]. split; [reflexivity|].
  destruct (Promise_all _ _) as [[cw fc]|e]; [|now right].
  destruct (readProperty cw "name"); [now left | now right].
Qed.

(* ===================================================================== *)
(** * The program on concrete inputs                                     *)
(* ===================================================================== *)

Example trim_city : trim (str "  New York ") = str "New York".
Proof. reflexivity. Qed.

Example encode_city : encodeURIComponent (str "New York") = Return (str "New%20York").
Proof. reflexivity. Qed.

Example parseFloat_prefix : parseFloat (str "12abc") = parseFloat (str "12").
Proof. reflexivity. Qed.

Example parseFloat_text : isNaN (parseFloat (str "abc")) = true.
Proof. reflexivity. Qed.

Example isValidCoordinate_examples :
  isValidCoordinate (QString (str "51.5")) (QString (str "-0.12")) = true /\
  isValidCoordinate (QString (str "90")) (QString (str "-180")) = true /\
  isValidCoordinate (QString (str "90.5")) (QString (str "0")) = false /\
  isValidCoordinate (QString (str "0")) (QString (str "180.5")) = false /\
  isValidCoordinate (QString (str "north")) (QString (str "0")) = false /\
  isValidCoordinate (QString (str "12abc")) (QString (str "10")) = true.
Proof. repeat split; vm_compute; reflexivity. Qed.

Example getErrorMessage_examples :
  getErrorMessage (mkError (str "Weather API returned status 404: city not found"))
  = categoryMessage NotFound /\
  getErrorMessage (mkError (str "Weather API returned status 401: Invalid API key"))
  = categoryMessage AuthenticationFailed /\
  getErrorMessage
    (mkError (str "Request timeout - weather service took too long to respond"))
  = categoryMessage TimedOut /\
  getErrorMessage (mkError (str "getaddrinfo ENOTFOUND api.openweathermap.org"))
  = categoryMessage Unreachable /\
  getErrorMessage (mkError (str "Invalid JSON response from weather API"))
  = categoryMessage TemporarilyUnavailable.
Proof. repeat split; vm_compute; reflexivity. Qed.

Example dispatch_examples :
  dispatch (get "/api/weather/London" []) = ToHandler ByCity [(str "city", str "London")] /\
  dispatch (get "/api/weather/New%20York" [])
  = ToHandler ByCity [(str "city", str "New York")] /\
  dispatch (get "/api/weather/coords" [("lat", "1"); ("lon", "2")]%string)
  = ToHandler ByCity [(str "city", str "coords")] /\
  dispatch (get "/api/weather/%E0%A4%A" []) = DecodeFailed /\
  dispatch (get "/api/weather" []) = Unmatched /\
  dispatch (get "/style.css" []) = ToStatic (str "style.css").
Proof. repeat split; vm_compute; reflexivity. Qed.

Example JSON_parse_examples :
  JSON_parse (str "[]") = Return (JArray []) /\
  JSON_parse (str " { } ") = Return (JObject []) /\
  JSON_parse (str "[true, null]") = Return (JArray [JBool true; JNull]) /\
  JSON_parse (str "[1,]") = Throw SyntaxError /\
  JSON_parse (str "") = Throw SyntaxError.
Proof. repeat split; vm_compute; reflexivity. Qed.

Example upstream_null_body :
  runHandler (weatherByCity (answering "null") (str "London"))
  = (JsonResponse 500 (errorBody (categoryMessage TemporarilyUnavailable)),
     [currentWeatherUrlFor (answering "null") (str "London");
      forecastUrlFor (answering "null") (str "London")]).
Proof. vm_compute. reflexivity. Qed.

Example history_of_three :
  exists p,
    addAll [str "Oslo"; str "Rome"; str "OSLO"] emptyPage = (Return tt, p) /\
    storedHistory p = Some [str "OSLO"; str "Rome"] /\
    deleteCity (str "rome") p = (Return tt, showing [str "OSLO"] p).
Proof. eexists. repeat split; vm_compute; reflexivity. Qed.

Example deleteCity_malformed :
  deleteCity (str "Rome") (pageWith "{not json")
  = (Return tt, alert (str "Failed to delete city. Please try again.")
                  (pageWith "{not json")).
Proof. reflexivity. Qed.

(* ===================================================================== *)
(** * More on the history store                                          *)
(* ===================================================================== *)

Section HistoryEdges.
Context {CM : CaseMapping}.

Lemma filterHistory_ill_typed (name : jsstring) (v : json) :
  asStrings v = None -> exists e, filterHistory name v = Throw e.
Proof.
  destruct v as [| | | |items|]; cbn [asStrings filterHistory];
    try (intros _; eexists; reflexivity).
  induction items as [|item items IH]; cbn [fold_right]; [discriminate|].
  intros H. destruct item as [| | |s| |]; try (eexists; reflexivity).
  cbn [filterOthers].
  destruct (fold_right _ _ items) as [l|] eqn:E; [discriminate|].
  destruct (IH eq_refl) as [e ->]. now exists e.
Qed.

Lemma unreadable_cases (name : jsstring) (p : Page) :
  storedHistory p = None ->
  (exists e, JSON_parse (getItemOrEmpty p) = Throw e) \/
  (exists v e, JSON_parse (getItemOrEmpty p) = Return v /\ filterHistory name v = Throw e).
Proof.
  unfold storedHistory. destruct (JSON_parse (getItemOrEmpty p)) as [v|e] eqn:E.
  - intros H. right. destruct (filterHistory_ill_typed name v H) as [e He].
    now exists v, e.
  - intros _. left. now exists e.
Qed.

Lemma execAll_stored (ops : list Op) :
  forall (p : Page) (l : list jsstring),
    storedHistory p = Some l ->
    exists p',
      execAll ops p = (Return tt, p') /\
      storedHistory p' = Some (fold_left applyOp ops l) /\
      (ops <> [] -> p' = showing (fold_left applyOp ops l) p).
Proof.
  induction ops as [|op more IH]; intros p l H.
  - exists p. repeat split; [assumption | contradiction].
  - cbn [execAll fold_left]. unfold bind.
    assert (Hop : exec op p = (Return tt, showing (applyOp l op) p)).
    { destruct op as [n|n]; cbn [exec applyOp];
        [now apply saveCityToHistory_stored | now apply deleteCity_stored]. }
    rewrite Hop.
    destruct (IH (showing (applyOp l op) p) (applyOp l op)
                (storedHistory_showing _ p)) as (p' & Hrun & Hst & Hshow).
    exists p'. repeat split; try assumption. intros _.
    destruct more as [|op' more'].
    + cbn [execAll] in Hrun. injection Hrun as <-. reflexivity.
    + rewrite Hshow by discriminate. reflexivity.
Qed.

Lemma HistoryInv_fold (ops : list Op) :
  forall (log : list Op) (l : list jsstring),
    HistoryInv log l -> HistoryInv (rev ops ++ log) (fold_left applyOp ops l).
Proof.
  induction ops as [|op more IH]; intros log l H; [assumption|].
  cbn [fold_left rev]. rewrite <- app_assoc. cbn [List.app].
  apply IH. destruct op as [n|n]; cbn [applyOp];
    [now apply HistoryInv_added | now apply HistoryInv_others].
Qed.

Lemma others_comm (a b : jsstring) (l : list jsstring) :
  others b (others a l) = others a (others b l).
Proof.
  unfold others. induction l as [|x l IH]; [reflexivity|].
  cbn [filter].
  destruct (negb (sameName x a)) eqn:Ea, (negb (sameName x b)) eqn:Eb;
    cbn [filter]; rewrite ?Ea, ?Eb, IH; reflexivity.
Qed.

End HistoryEdges.

(** X1. When the stored text is not an array of strings (not JSON, or
    JSON of another shape), [saveCityToHistory] throws and leaves the page
    as it was: the stored text is not repaired or overwritten, and the
    name is not recorded. *)
Theorem saveCityToHistory_keeps_unreadable_storage (CM : CaseMapping)
    (city : jsstring) (p : Page) :
  storedHistory p = None ->
  exists e, saveCityToHistory city p = (Throw e, p).
Proof.
  intros H. unfold saveCityToHistory, bind, gets, lift, modify.
  destruct (unreadable_cases city p H) as [(e & ->) | (v & e & -> & ->)];
    now exists e.
Qed.

Lemma saveCityToHistory_keeps_unreadable_storage_witness :
  storedHistory (pageWith "[1, 2]") = None /\
  exists e, saveCityToHistory (str "Oslo") (pageWith "[1, 2]") = (Throw e, pageWith "[1, 2]").
Proof.
  split; [reflexivity|].
  exact (saveCityToHistory_keeps_unreadable_storage Latin1Case (str "Oslo")
           (pageWith "[1, 2]") eq_refl).
Defined.

(** X2. [deleteCity] never throws; when the stored text is not an array
    of strings it changes neither the stored text nor the buttons and
    shows one alert. *)
Theorem deleteCity_never_throws (CM : CaseMapping) (cityName : jsstring) :
  (forall p : Page, fst (deleteCity cityName p) = Return tt) /\
  (forall p : Page,
     storedHistory p = None ->
     deleteCity cityName p
     = (Return tt, alert (str "Failed to delete city. Please try again.") p)).
Proof.
  assert (Hbad : forall p, storedHistory p = None ->
            deleteCity cityName p
            = (Return tt, alert (str "Failed to delete city. Please try again.") p)).
  { intros p H. unfold deleteCity, tryCatch, bind, gets, lift, modify.
    destruct (unreadable_cases cityName p H) as [(e & ->) | (v & e & -> & ->)];
      reflexivity. }
  split; [|exact Hbad].
  intros p. destruct (storedHistory p) as [l|] eqn:H.
  - now rewrite (deleteCity_stored cityName p l H).
  - now rewrite (Hbad p H).
Qed.

Lemma deleteCity_never_throws_witness :
  storedHistory (pageWith "{not json") = None /\
  deleteCity (str "Oslo") (pageWith "{not json")
  = (Return tt, alert (str "Failed to delete city. Please try again.")
                  (pageWith "{not json")).
Proof.
  split; [reflexivity|].
  destruct (deleteCity_never_throws Latin1Case (str "Oslo")) as [_ H].
  exact (H (pageWith "{not json") eq_refl).
Defined.

(** X3. On a stored array of strings, [deleteCity] stores and shows the
    list without the entries equal to the name in any casing: those
    entries are gone, every other entry stays, in the order it had; when
    no entry equals the name the stored list is the same as before. *)
Theorem deleteCity_removes_every_casing (CM : CaseMapping) (cityName : jsstring)
    (p : Page) (l : list jsstring) :
  storedHistory p = Some l ->
  exists p' l',
    deleteCity cityName p = (Return tt, p') /\
    storedHistory p' = Some l' /\
    historyContainer p' = map JString l' /\
    l' = filter (fun existing => negb (sameName existing cityName)) l /\
    (forall x, In x l' <-> In x l /\ toLowerCase x <> toLowerCase cityName) /\
    ((forall x, In x l -> toLowerCase x <> toLowerCase cityName) -> l' = l).
Proof.
  intros H. exists (showing (others cityName l) p), (others cityName l).
  split; [now apply deleteCity_stored|].
  split; [apply storedHistory_showing|].
  split; [reflexivity|]. split; [reflexivity|]. split.
  - intros x. rewrite In_others, sameName_false. reflexivity.
  - intros Hnone. apply others_all. intros x Hx. apply sameName_false. now apply Hnone.
Qed.

Lemma deleteCity_removes_every_casing_witness :
  storedHistory (pageStoring ["Rome"; "OSLO"; "Lima"; "oslo"]%string)
  = Some (map str ["Rome"; "OSLO"; "Lima"; "oslo"]%string) /\
  exists p' l',
    deleteCity (str "Oslo") (pageStoring ["Rome"; "OSLO"; "Lima"; "oslo"]%string)
    = (Return tt, p') /\
    storedHistory p' = Some l' /\
    historyContainer p' = map JString l' /\
    l' = filter (fun existing => negb (sameName existing (str "Oslo")))
           (map str ["Rome"; "OSLO"; "Lima"; "oslo"]%string) /\
    (forall x, In x l' <->
               In x (map str ["Rome"; "OSLO"; "Lima"; "oslo"]%string) /\
               toLowerCase x <> toLowerCase (str "Oslo")) /\
    ((forall x, In x (map str ["Rome"; "OSLO"; "Lima"; "oslo"]%string) ->
                toLowerCase x <> toLowerCase (str "Oslo")) ->
     l' = map str ["Rome"; "OSLO"; "Lima"; "oslo"]%string).
Proof.
  split; [reflexivity|].
  exact (deleteCity_removes_every_casing Latin1Case (str "Oslo")
           (pageStoring ["Rome"; "OSLO"; "Lima"; "oslo"]%string)
           (map str ["Rome"; "OSLO"; "Lima"; "oslo"]%string) eq_refl).
Defined.

(** X4. Adding a name that the history does not hold in any casing puts
    it in front of the stored entries and keeps the nine most recent of
    them: nothing is lost while the history has fewer than ten entries,
    and beyond that only the entries after the ninth are dropped. *)
Theorem saveCityToHistory_new_name (CM : CaseMapping) (city : jsstring)
    (p : Page) (l : list jsstring) :
  storedHistory p = Some l ->
  (forall x, In x l -> toLowerCase x <> toLowerCase city) ->
  exists p',
    saveCityToHistory city p = (Return tt, p') /\
    storedHistory p' = Some (city :: firstn 9 l) /\
    (List.length l < 10 -> storedHistory p' = Some (city :: l)).
Proof.
  intros H Hnew. exists (showing (added city l) p).
  split; [now apply saveCityToHistory_stored|].
  assert (E : added city l = city :: firstn 9 l).
  { rewrite added_cons, others_all; [reflexivity|].
    intros x Hx. apply sameName_false. now apply Hnew. }
  rewrite storedHistory_showing, E. split; [reflexivity|].
  intros Hlen. rewrite firstn_all2 by lia. reflexivity.
Qed.

Lemma saveCityToHistory_new_name_witness :
  storedHistory (pageStoring ["Rome"; "Lima"]%string) = Some (map str ["Rome"; "Lima"]%string) /\
  (forall x, In x (map str ["Rome"; "Lima"]%string) ->
             toLowerCase x <> toLowerCase (str "Oslo")) /\
  exists p',
    saveCityToHistory (str "Oslo") (pageStoring ["Rome"; "Lima"]%string) = (Return tt, p') /\
    storedHistory p' = Some (str "Oslo" :: firstn 9 (map str ["Rome"; "Lima"]%string)) /\
    (List.length (map str ["Rome"; "Lima"]%string) < 10 ->
     storedHistory p' = Some (str "Oslo" :: map str ["Rome"; "Lima"]%string)).
Proof.
  assert (Hnew : forall x, In x (map str ["Rome"; "Lima"]%string) ->
                           toLowerCase x <> toLowerCase (str "Oslo")).
  { intros x [<-|[<-|[]]]; discriminate. }
  split; [reflexivity|]. split; [exact Hnew|].
  exact (saveCityToHistory_new_name Latin1Case (str "Oslo")
           (pageStoring ["Rome"; "Lima"]%string) (map str ["Rome"; "Lima"]%string)
           eq_refl Hnew).
Defined.

(** X5. Removing a name right after adding it: the stored list is the
    prior list without that name, cut to nine entries; so when the name is
    new and the history had fewer than ten entries, add followed by remove
    gives back the stored list. *)
Theorem add_then_remove (CM : CaseMapping) (name : jsstring) (p : Page)
    (l : list jsstring) :
  storedHistory p = Some l ->
  exists p',
    execAll [Add name; Remove name] p = (Return tt, p') /\
    storedHistory p'
    = Some (firstn 9 (filter (fun existing => negb (sameName existing name)) l)) /\
    ((forall x, In x l -> toLowerCase x <> toLowerCase name) ->
     List.length l < 10 -> storedHistory p' = Some l).
Proof.
  intros H.
  destruct (execAll_stored [Add name; Remove name] p l H) as (p' & Hrun & Hst & _).
  exists p'. split; [assumption|].
  assert (E : fold_left applyOp [Add name; Remove name] l = firstn 9 (others name l)).
  { cbn [fold_left applyOp]. rewrite added_cons. unfold others at 1.
    cbn [filter]. rewrite sameName_refl. cbn [negb].
    apply others_firstn_others. }
  rewrite E in Hst. split; [assumption|].
  intros Hnew Hlen. rewrite Hst, others_all.
  - now rewrite firstn_all2 by lia.
  - intros x Hx. apply sameName_false. now apply Hnew.
Qed.

Lemma add_then_remove_witness :
  storedHistory (pageStoring ["Rome"; "Lima"]%string) = Some (map str ["Rome"; "Lima"]%string) /\
  exists p',
    execAll [Add (str "Oslo"); Remove (str "Oslo")] (pageStoring ["Rome"; "Lima"]%string)
    = (Return tt, p') /\
    storedHistory p'
    = Some (firstn 9 (filter (fun existing => negb (sameName existing (str "Oslo")))
                        (map str ["Rome"; "Lima"]%string))) /\
    ((forall x, In x (map str ["Rome"; "Lima"]%string) ->
                toLowerCase x <> toLowerCase (str "Oslo")) ->
     List.length (map str ["Rome"; "Lima"]%string) < 10 ->
     storedHistory p' = Some (map str ["Rome"; "Lima"]%string)).
Proof.
  split; [reflexivity|].
  exact (add_then_remove Latin1Case (str "Oslo") (pageStoring ["Rome"; "Lima"]%string)
           (map str ["Rome"; "Lima"]%string) eq_refl).
Defined.

(** X6. Removals compose: removing two names in either order leaves the
    same page, and removing a name a second time changes nothing. *)
Theorem removals_commute (CM : CaseMapping) (a b : jsstring) (p : Page)
    (l : list jsstring) :
  storedHistory p = Some l ->
  execAll [Remove a; Remove b] p = execAll [Remove b; Remove a] p /\
  execAll [Remove a; Remove a] p = execAll [Remove a] p /\
  exists p', execAll [Remove a; Remove b] p = (Return tt, p').
Proof.
  intros H.
  destruct (execAll_stored [Remove a; Remove b] p l H) as (p1 & H1 & _ & S1).
  destruct (execAll_stored [Remove b; Remove a] p l H) as (p2 & H2 & _ & S2).
  destruct (execAll_stored [Remove a; Remove a] p l H) as (p3 & H3 & _ & S3).
  destruct (execAll_stored [Remove a] p l H) as (p4 & H4 & _ & S4).
  rewrite H1, H2, H3, H4, S1, S2, S3, S4 by discriminate.
  cbn [fold_left applyOp]. repeat split.
  - do 2 f_equal. apply others_comm.
  - do 2 f_equal. apply others_all. intros x Hx. now apply In_others in Hx.
  - eexists. reflexivity.
Qed.

Lemma removals_commute_witness :
  storedHistory (pageStoring ["Rome"; "OSLO"; "Lima"]%string)
  = Some (map str ["Rome"; "OSLO"; "Lima"]%string) /\
  execAll [Remove (str "oslo"); Remove (str "Lima")]
    (pageStoring ["Rome"; "OSLO"; "Lima"]%string)
  = execAll [Remove (str "Lima"); Remove (str "oslo")]
      (pageStoring ["Rome"; "OSLO"; "Lima"]%string) /\
  execAll [Remove (str "oslo"); Remove (str "oslo")]
    (pageStoring ["Rome"; "OSLO"; "Lima"]%string)
  = execAll [Remove (str "oslo")] (pageStoring ["Rome"; "OSLO"; "Lima"]%string) /\
  exists p',
    execAll [Remove (str "oslo"); Remove (str "Lima")]
      (pageStoring ["Rome"; "OSLO"; "Lima"]%string)
    = (Return tt, p').
Proof.
  split; [reflexivity|].
  exact (removals_commute Latin1Case (str "oslo") (str "Lima")
           (pageStoring ["Rome"; "OSLO"; "Lima"]%string)
           (map str ["Rome"; "OSLO"; "Lima"]%string) eq_refl).
Defined.

(** X7. Whatever additions and removals are made from a page with no
    stored history, none of them throws, and afterwards the stored list
    satisfies the HistoryList invariant (at most 10 entries, no two equal
    without regard to case, most recent first) and the buttons on the page
    are the stored entries, in order. *)
Theorem reachable_history (CM : CaseMapping) (ops : list Op) :
  exists p' l',
    execAll ops emptyPage = (Return tt, p') /\
    storedHistory p' = Some l' /\
    HistoryInv (rev ops) l' /\
    historyContainer p' = map JString l'.
Proof.
  destruct (execAll_stored ops emptyPage [] eq_refl) as (p' & Hrun & Hst & Hshow).
  exists p', (fold_left applyOp ops []).
  split; [assumption|]. split; [assumption|]. split.
  - rewrite <- (app_nil_r (rev ops)). apply HistoryInv_fold.
    split; [apply Nat.le_0_l|]. split; constructor.
  - destruct ops as [|op more].
    + cbn [execAll] in Hrun. injection Hrun as <-. reflexivity.
    + rewrite Hshow by discriminate. reflexivity.
Qed.

(** X8. When the stored text is JSON but not a list, [renderHistory] does
    not show it as a history: for [null], a boolean, a number or an object
    it removes the buttons and throws; for a string it makes one button
    per code point of the string. *)
Theorem renderHistory_not_a_list (p : Page) (v : json) :
  JSON_parse (getItemOrEmpty p) = Return v ->
  ((forall items, v <> JArray items) -> (forall s, v <> JString s) ->
   exists e, renderHistory p = (Throw e, setContainer [] p)) /\
  (forall s, v = JString s ->
   renderHistory p = (Return tt, setContainer (map JString (codePoints s)) p)).
Proof.
  intros H. split.
  - intros Harr Hstr. unfold renderHistory, bind, gets, lift, modify. rewrite H.
    destruct v; try (eexists; reflexivity);
      [ exfalso; eapply Hstr; reflexivity | exfalso; eapply Harr; reflexivity ].
  - intros s ->. apply (renderHistory_items p (JString s)); trivial.
    apply hasString_strings.
Qed.

Lemma renderHistory_not_a_list_witness :
  JSON_parse (getItemOrEmpty (pageWith "{}")) = Return (JObject []) /\
  ((forall items, JObject [] <> JArray items) -> (forall s, JObject [] <> JString s) ->
   exists e, renderHistory (pageWith "{}") = (Throw e, setContainer [] (pageWith "{}"))) /\
  (forall s, JObject [] = JString s ->
   renderHistory (pageWith "{}")
   = (Return tt, setContainer (map JString (codePoints s)) (pageWith "{}"))).
Proof.
  split; [reflexivity|].
  exact (renderHistory_not_a_list (pageWith "{}") (JObject []) eq_refl).
Defined.

(* ===================================================================== *)
(** * More on the request gateway                                        *)
(* ===================================================================== *)

Section Answers.
Context {CM : CaseMapping}.

Lemma getErrorMessage_category (error : Error) :
  exists c, getErrorMessage error = categoryMessage c.
Proof.
  unfold getErrorMessage.
  destruct (_ || _); [now exists NotFound|].
  destruct (_ || _); [now exists AuthenticationFailed|].
  destruct (includes _ _); [now exists TimedOut|].
  destruct (_ || _); [now exists Unreachable|].
  now exists TemporarilyUnavailable.
Qed.

(** The joined answer of the two upstream requests, as both handlers
    compute it. *)
Lemma joined_answer (p1 p2 : Promise) :
  (exists j1 j2,
     outcome p1 = Return j1 /\ outcome p2 = Return j2 /\
     match Promise_all p1 p2 with
     | Throw e => JsonResponse 500 (errorBody (getErrorMessage e))
     | Return (currentWeather, forecast) =>
         match readProperty currentWeather "name" with
         | Throw e => JsonResponse 500 (errorBody (getErrorMessage e))
         | Return _ => JsonResponse 200 (bundle currentWeather forecast)
         end
     end = JsonResponse 200 (bundle j1 j2))
  \/
  (exists c,
     match Promise_all p1 p2 with
     | Throw e => JsonResponse 500 (errorBody (getErrorMessage e))
     | Return (currentWeather, forecast) =>
         match readProperty currentWeather "name" with
         | Throw e => JsonResponse 500 (errorBody (getErrorMessage e))
         | Return _ => JsonResponse 200 (bundle currentWeather forecast)
         end
     end = JsonResponse 500 (errorBody (categoryMessage c))).
Proof.
  destruct (Promise_all p1 p2) as [[cw fc]|e] eqn:Hall.
  - apply Promise_all_Return in Hall as [H1 H2].
    destruct (readProperty cw "name") as [u|e].
    + left. now exists cw, fc.
    + right. destruct (getErrorMessage_category e) as [c ->]. now exists c.
  - right. destruct (getErrorMessage_category e) as [c ->]. now exists c.
Qed.

Lemma weatherByCity_400_message (w : World) (city msg : jsstring)
    (calls : list jsstring) :
  weatherByCity w city [] = (Return (JsonResponse 400 (errorBody msg)), calls) ->
  In msg validationMessages.
Proof.
  run_handler. unfold errorBody.
  destruct (_ || _).
  { intros H. injection H as <- _. left. reflexivity. }
  destruct (100 <? _)%N.
  { intros H. injection H as <- _. right. left. reflexivity. }
  destruct (encodeURIComponent (trim city)); try discriminate.
  destruct (Promise_all _ _) as [[cw fc]|?]; try discriminate.
  destruct (readProperty cw "name"); discriminate.
Qed.


End Answers.


(** ** The upstream URLs *)

Lemma hexUpper_safe (d : N) : (d < 16)%N -> uriSafe (hexUpper d) = true.
Proof.
  intros H.
  assert (E : In d [0;1;2;3;4;5;6;7;8;9;10;11;12;13;14;15]%N) by (simpl; lia).
  simpl in E.
  repeat (destruct E as [<-|E]; [reflexivity|]). contradiction.
Qed.

Lemma percent_safe (b : N) : (b < 256)%N -> forallb uriSafe (percent b) = true.
Proof.
  intros H. unfold percent. cbn [forallb].
  rewrite !hexUpper_safe.
  - reflexivity.
  - apply N.mod_lt. lia.
  - apply N.Div0.div_lt_upper_bound. lia.
Qed.

Lemma utf8_octets (cp : N) :
  (cp < 1114112)%N -> Forall (fun b => (b < 256)%N) (utf8 cp).
Proof.
  intros H. unfold utf8.
  assert (M : forall x, (x mod 64 < 64)%N) by (intros x; apply N.mod_lt; lia).
  destruct (N.ltb_spec cp 128); [repeat constructor; lia|].
  destruct (N.ltb_spec cp 2048).
  { assert (cp / 64 < 32)%N by (apply N.Div0.div_lt_upper_bound; lia).
    pose proof (M cp). repeat constructor; lia. }
  destruct (N.ltb_spec cp 65536).
  { assert (cp / 4096 < 16)%N by (apply N.Div0.div_lt_upper_bound; lia).
    pose proof (M cp). pose proof (M (cp / 64)%N). repeat constructor; lia. }
  assert (cp / 262144 < 5)%N by (apply N.Div0.div_lt_upper_bound; lia).
  pose proof (M cp). pose proof (M (cp / 64)%N). pose proof (M (cp / 4096)%N).
  repeat constructor; lia.
Qed.

Lemma percentEncode_safe (cp : N) :
  (cp < 1114112)%N -> forallb uriSafe (percentEncode cp) = true.
Proof.
  intros H. unfold percentEncode.
  pose proof (utf8_octets cp H) as Hoct.
  induction Hoct as [|b bs Hb _ IH]; [reflexivity|].
  cbn [flat_map]. rewrite forallb_app, percent_safe, IH by assumption. reflexivity.
Qed.

Lemma encodeURIComponent_safe_bounded (n : nat) :
  forall s q : jsstring,
    List.length s <= n -> codeUnits s ->
    encodeURIComponent s = Return q -> forallb uriSafe q = true.
Proof.
  induction n as [|n IH]; intros s q Hlen Hs.
  - destruct s; [|simpl in Hlen; lia]. intros [= <-]. reflexivity.
  - destruct s as [|c r]; [intros [= <-]; reflexivity|].
    simpl in Hlen. inversion Hs as [|? ? Hc Hr]; subst.
    cbn [encodeURIComponent].
    destruct (isUnreserved c) eqn:Hun.
    { destruct (encodeURIComponent r) as [t|] eqn:E; [|discriminate].
      intros [= <-]. cbn [forallb]. unfold uriSafe at 1. rewrite Hun.
      apply (IH r t); [lia | assumption | assumption]. }
    destruct (isHighSurrogate c) eqn:Hhi.
    { destruct r as [|d r']; [discriminate|].
      destruct (isLowSurrogate d) eqn:Hlo; [|discriminate].
      destruct (encodeURIComponent r') as [t|] eqn:E; [|discriminate].
      intros [= <-]. rewrite forallb_app.
      inversion Hr as [|? ? Hd Hr']; subst.
      rewrite (IH r' t) by (simpl in Hlen; lia || assumption).
      rewrite percentEncode_safe; [reflexivity|].
      pose proof (surrogate_bounds c) as Bc. rewrite Hhi in Bc. specialize (Bc eq_refl).
      pose proof (surrogate_bounds d) as Bd. rewrite Hlo, orb_true_r in Bd.
      specialize (Bd eq_refl).
      unfold isHighSurrogate in Hhi. unfold isLowSurrogate in Hlo.
      apply andb_prop in Hhi as [_ Hhi]. apply andb_prop in Hlo as [Hlo _].
      apply N.leb_le in Hhi, Hlo. lia. }
    destruct (isLowSurrogate c); [discriminate|].
    destruct (encodeURIComponent r) as [t|] eqn:E; [|discriminate].
    intros [= <-]. rewrite forallb_app.
    rewrite (IH r t) by (lia || assumption).
    rewrite percentEncode_safe by lia. reflexivity.
Qed.

Lemma codeUnits_trim (s : jsstring) : codeUnits s -> codeUnits (trim s).
Proof.
  assert (Hstart : forall t, codeUnits t -> codeUnits (trimStart t)).
  { intros t Ht. induction Ht as [|c r Hc Hr IH]; cbn [trimStart]; [constructor|].
    destruct (isWhiteSpace c); [assumption | now constructor]. }
  intros H. unfold trim, trimEnd, codeUnits.
  apply Forall_rev. apply Hstart. apply Forall_rev. now apply Hstart.
Qed.

(** X10. The name of a city cannot alter the upstream request: for every
    city (a string of 16-bit code units), the lookup by name issues either
    no upstream request or exactly two, the current-conditions URL then the
    forecast URL, and in both the [q] parameter is the percent-encoding of
    the trimmed city, made only of letters, digits, the marks
    [- _ . ! ~ * ' ( )] and [%]; so no [&], [=], [#], [?] or [/] from the
    city reaches the URL. *)
Theorem upstream_urls_are_well_formed (CM : CaseMapping) (w : World)
    (city : jsstring) (res : Exn Response) (calls : list jsstring) :
  codeUnits city ->
  weatherByCity w city [] = (res, calls) ->
  calls = [] \/
  exists q,
    encodeURIComponent (trim city) = Return q /\
    forallb uriSafe q = true /\
    calls = [currentWeatherUrlFor w q; forecastUrlFor w q].
Proof.
  intros Hcity Hrun.
  destruct (weatherByCity_cases w city)
    as [(msg & _ & E) | [(e & _ & E) | (q & _ & _ & Henc & E)]];
    rewrite E in Hrun; injection Hrun as <- <-; [now left | now left |].
  right. exists q. split; [assumption|]. split; [|reflexivity].
  apply (encodeURIComponent_safe_bounded (List.length (trim city)) (trim city) q);
    [apply le_n | now apply codeUnits_trim | assumption].
Qed.

Lemma upstream_urls_are_well_formed_witness :
  let city := str " Rio&appid=x#?/ " in
  let q := str "Rio%26appid%3Dx%23%3F%2F" in
  codeUnits city /\
  weatherByCity allUp city []
  = (Return (JsonResponse 200 (bundle (JObject []) (JObject []))),
     [currentWeatherUrlFor allUp q; forecastUrlFor allUp q]) /\
  ([currentWeatherUrlFor allUp q; forecastUrlFor allUp q] = [] \/
   exists q',
     encodeURIComponent (trim city) = Return q' /\
     forallb uriSafe q' = true /\
     [currentWeatherUrlFor allUp q; forecastUrlFor allUp q]
     = [currentWeatherUrlFor allUp q'; forecastUrlFor allUp q']).
Proof.
  intros city q.
  assert (Hcity : codeUnits city).
  { unfold codeUnits. apply Forall_forall. intros c Hc.
    apply N.ltb_lt. revert c Hc. apply forallb_forall. vm_compute. reflexivity. }
  assert (Hrun : weatherByCity allUp city []
                 = (Return (JsonResponse 200 (bundle (JObject []) (JObject []))),
                    [currentWeatherUrlFor allUp q; forecastUrlFor allUp q])).
  { vm_compute. reflexivity. }
  split; [exact Hcity|]. split; [exact Hrun|].
  exact (upstream_urls_are_well_formed Latin1Case allUp city _ _ Hcity Hrun).
Defined.

(** ** Which message a failure gets *)

Lemma lowerUnit_ascii (a : jsstring) :
  isAscii a = true -> map lowerUnit a = map asciiLower a.
Proof.
  induction a as [|c a IH]; [reflexivity|].
  cbn [isAscii forallb map]. intros H. apply andb_prop in H as [Hc Ha].
  fold (isAscii a) in Ha. rewrite (IH Ha). f_equal.
  apply N.ltb_lt in Hc. unfold lowerUnit, asciiLower.
  replace (192 <=? c)%N with false by (symmetry; apply N.leb_gt; lia).
  now rewrite andb_false_l, orb_false_r.
Qed.

Lemma Latin1Case_faithful : AsciiFaithful Latin1Case.
Proof.
  split.
  - intros a Ha. apply lowerUnit_ascii. assumption.
  - intros a b Ha. exists (map lowerUnit b).
    cbn [toLowerCase Latin1Case]. rewrite map_app. f_equal.
    now apply lowerUnit_ascii.
Qed.

Lemma startsWith_app (a b pat : jsstring) :
  startsWith a pat = true -> startsWith (a ++ b) pat = true.
Proof.
  revert a; induction pat as [|p pat IH]; intros a; [destruct (a ++ b); reflexivity|].
  destruct a as [|c a]; cbn [startsWith List.app]; [discriminate|].
  intros H. apply andb_prop in H as [Hc Ha]. now rewrite Hc, (IH a Ha).
Qed.

Lemma includes_app (a b pat : jsstring) :
  includes a pat = true -> includes (a ++ b) pat = true.
Proof.
  induction a as [|c a IH].
  - cbn [includes]. rewrite orb_false_r. intros H.
    destruct pat; [|discriminate]. destruct b; reflexivity.
  - change (includes (c :: a) pat)
      with (startsWith (c :: a) pat || includes a pat).
    change (includes ((c :: a) ++ b) pat)
      with (startsWith ((c :: a) ++ b) pat || includes (a ++ b) pat).
    intros H. apply orb_prop in H as [H|H].
    + now rewrite (startsWith_app _ b _ H).
    + rewrite (IH H). apply orb_true_r.
Qed.

Section Translation.
Context {CM : CaseMapping} (faithful : AsciiFaithful CM).

(** The lower-cased message starts with the lower-cased ASCII prefix. *)
Lemma includes_lower_prefix (prefix rest pat : jsstring) :
  isAscii prefix = true ->
  includes (map asciiLower prefix) pat = true ->
  includes (toLowerCase (prefix ++ rest)) pat = true.
Proof.
  intros Ha Hinc.
  destruct (lower_ascii_prefix CM faithful prefix rest Ha) as [b' ->].
  now apply includes_app.
Qed.

Lemma getErrorMessage_ascii (text : jsstring) :
  isAscii text = true ->
  getErrorMessage (mkError text)
  = @getErrorMessage {| toLowerCase := map asciiLower |} (mkError text).
Proof.
  intros Ha. unfold getErrorMessage. cbn [message toLowerCase].
  now rewrite (lower_ascii CM faithful text Ha).
Qed.

Lemma translate_timeout (e : Error) :
  settle IdleTimeout = Throw e -> getErrorMessage e = categoryMessage TimedOut.
Proof.
  intros [= <-]. rewrite getErrorMessage_ascii by reflexivity.
  vm_compute. reflexivity.
Qed.

Lemma translate_404 (chunks : list jsstring) (e : Error) :
  settle (End 404 chunks) = Throw e -> getErrorMessage e = categoryMessage NotFound.
Proof.
  intros [= <-]. unfold getErrorMessage. cbn [message].
  change (toLowerCase _)
    with (toLowerCase (str "Weather API returned status 404: " ++ accumulate chunks)).
  rewrite (includes_lower_prefix _ (accumulate chunks) (str "404")) by reflexivity.
  reflexivity.
Qed.

Lemma translate_401 (chunks : list jsstring) (e : Error) :
  settle (End 401 chunks) = Throw e ->
  getErrorMessage e = categoryMessage AuthenticationFailed \/
  getErrorMessage e = categoryMessage NotFound.
Proof.
  intros [= <-]. unfold getErrorMessage. cbn [message].
  change (toLowerCase _)
    with (toLowerCase (str "Weather API returned status 401: " ++ accumulate chunks)).
  rewrite (includes_lower_prefix _ (accumulate chunks) (str "401")) by reflexivity.
  destruct (_ || _); [now right | now left].
Qed.

Lemma translate_bad_body (chunks : list jsstring) (e : Error) :
  settle (End 200 chunks) = Throw e ->
  getErrorMessage e = categoryMessage TemporarilyUnavailable.
Proof.
  cbn [settle N.eqb Pos.eqb].
  destruct (JSON_parse (accumulate chunks)); [discriminate|]. intros [= <-].
  rewrite getErrorMessage_ascii by reflexivity.
  vm_compute. reflexivity.
Qed.

End Translation.

(** X11. How the failures of an upstream request are reported, under any
    case mapping that lower-cases ASCII characters one by one (as
    ECMAScript's does): a request that times out as "timed out"; an
    upstream status 404 as "city not found", whatever the body; a status
    401 as "authentication failed" or, when its body brings in a not-found
    pattern, as "city not found"; a status 200 with a body that is not
    JSON as "temporarily unavailable". *)
Theorem upstream_failures_are_translated (CM : CaseMapping) :
  AsciiFaithful CM ->
  (forall e, settle IdleTimeout = Throw e ->
     getErrorMessage e = categoryMessage TimedOut) /\
  (forall chunks, exists e, settle (End 404 chunks) = Throw e) /\
  (forall chunks e, settle (End 404 chunks) = Throw e ->
     getErrorMessage e = categoryMessage NotFound) /\
  (forall chunks e, settle (End 401 chunks) = Throw e ->
     getErrorMessage e = categoryMessage AuthenticationFailed \/
     getErrorMessage e = categoryMessage NotFound) /\
  (forall chunks e, settle (End 200 chunks) = Throw e ->
     getErrorMessage e = categoryMessage TemporarilyUnavailable).
Proof.
  intros faithful. split; [|split; [|split; [|split]]].
  - apply (translate_timeout faithful).
  - intros chunks. eexists. reflexivity.
  - apply (translate_404 faithful).
  - apply (translate_401 faithful).
  - apply (translate_bad_body faithful).
Qed.

Lemma upstream_failures_are_translated_witness :
  AsciiFaithful Latin1Case /\
  getErrorMessage (mkError (str "Weather API returned status 404: {}"))
  = categoryMessage NotFound.
Proof.
  split; [exact Latin1Case_faithful|].
  destruct (upstream_failures_are_translated Latin1Case Latin1Case_faithful)
    as (_ & _ & H404 & _).
  exact (H404 [str "{}"] _ eq_refl).
Defined.

(** X12. An unknown city, end to end on the server: when at least one
    upstream request of a lookup by name fails and every one that fails
    does so with status 404, the answer is status 500 with the "city not
    found" message; likewise, when every one that fails times out, the
    answer is status 500 with the "timed out" message. (For any case
    mapping that lower-cases ASCII characters one by one.) *)
Theorem lookup_reports_the_upstream_failure (CM : CaseMapping) (w : World)
    (city : jsstring) (res : Exn Response) (calls : list jsstring) :
  AsciiFaithful CM ->
  weatherByCity w city [] = (res, calls) ->
  (exists url, In url calls /\ rejected (settle (respond w url))) ->
  ((forall url, In url calls -> rejected (settle (respond w url)) ->
      exists chunks, respond w url = End 404 chunks) ->
   res = Return (JsonResponse 500 (errorBody (categoryMessage NotFound)))) /\
  ((forall url, In url calls -> rejected (settle (respond w url)) ->
      respond w url = IdleTimeout) ->
   res = Return (JsonResponse 500 (errorBody (categoryMessage TimedOut)))).
Proof.
  intros faithful Hrun (url & Hin & Hrej).
  destruct (weatherByCity_cases w city)
    as [(msg & _ & E) | [(e & _ & E) | (q & _ & _ & _ & E)]];
    rewrite E in Hrun; injection Hrun as <- <-; try contradiction.
  destruct (Promise_all_Throw
              {| outcome := settle (respond w (currentWeatherUrlFor w q));
                 settledAt := clock w (currentWeatherUrlFor w q) |}
              {| outcome := settle (respond w (forecastUrlFor w q));
                 settledAt := clock w (forecastUrlFor w q) |})
    as (e & Hall & Hwho).
  { cbn [outcome]. destruct Hin as [<-|[<-|[]]]; [now left | now right]. }
  rewrite Hall. cbn [outcome] in Hwho.
  assert (Hfailed : exists failed,
            In failed [currentWeatherUrlFor w q; forecastUrlFor w q] /\
            settle (respond w failed) = Throw e).
  { destruct Hwho as [H|H]; eexists; (split; [|exact H]); simpl; tauto. }
  destruct Hfailed as (failed & Hf & He).
  split; intros Hkind.
  - destruct (Hkind failed Hf (ex_intro _ e He)) as [chunks Hdata].
    rewrite Hdata in He. now rewrite (translate_404 faithful chunks e He).
  - pose proof (Hkind failed Hf (ex_intro _ e He)) as Hdata.
    rewrite Hdata in He. now rewrite (translate_timeout faithful e He).
Qed.

Lemma lookup_reports_the_upstream_failure_witness :
  let w := {| API_KEY := str "KEY";
              respond := fun _ => End 404 [str "{}"];
              clock := fun _ => 0%N |} in
  let u1 := currentWeatherUrlFor w (str "Atlantis") in
  let u2 := forecastUrlFor w (str "Atlantis") in
  AsciiFaithful Latin1Case /\
  weatherByCity w (str "Atlantis") []
  = (Return (JsonResponse 500 (errorBody (categoryMessage NotFound))), [u1; u2]) /\
  (exists url, In url [u1; u2] /\ rejected (settle (respond w url))) /\
  (forall url, In url [u1; u2] -> rejected (settle (respond w url)) ->
     exists chunks, respond w url = End 404 chunks) /\
  Return (JsonResponse 500 (errorBody (categoryMessage NotFound)))
  = Return (JsonResponse 500 (errorBody (categoryMessage NotFound))).
Proof.
  intros w u1 u2.
  assert (Hrun : weatherByCity w (str "Atlantis") []
                 = (Return (JsonResponse 500 (errorBody (categoryMessage NotFound))),
                    [u1; u2])) by (vm_compute; reflexivity).
  assert (Hsome : exists url, In url [u1; u2] /\ rejected (settle (respond w url))).
  { exists u1. split; [now left|]. eexists. reflexivity. }
  assert (Hkind : forall url, In url [u1; u2] -> rejected (settle (respond w url)) ->
                    exists chunks, respond w url = End 404 chunks).
  { intros url _ _. now exists [str "{}"]. }
  split; [exact Latin1Case_faithful|]. split; [exact Hrun|].
  split; [exact Hsome|]. split; [exact Hkind|].
  destruct (lookup_reports_the_upstream_failure Latin1Case w (str "Atlantis") _ _
              Latin1Case_faithful Hrun Hsome) as [H404 _].
  exact (H404 Hkind).
Defined.

(** ** Routing *)

Lemma splitPath_segment (s : jsstring) : ~ In 47%N s -> splitPath s = [s].
Proof.
  induction s as [|c s IH]; [reflexivity|].
  intros H. cbn [splitPath].
  destruct (N.eqb_spec c 47) as [->|_]; [exfalso; apply H; now left|].
  rewrite IH; [reflexivity|]. intros Hin. apply H. now right.
Qed.

Lemma splitPath_slash (s r : jsstring) :
  ~ In 47%N s -> splitPath (s ++ 47%N :: r) = s :: splitPath r.
Proof.
  induction s as [|c s IH]; [reflexivity|].
  intros H. cbn [splitPath List.app].
  destruct (N.eqb_spec c 47) as [->|_]; [exfalso; apply H; now left|].
  rewrite IH; [reflexivity|]. intros Hin. apply H. now right.
Qed.

Lemma decodeURIComponent_plain (s : jsstring) :
  ~ In 37%N s -> decodeURIComponent s = Return s.
Proof.
  intros H. unfold decodeURIComponent.
  assert (E : uriItems s = Some (map Unit s)).
  { induction s as [|c s IH]; [reflexivity|].
    cbn [uriItems].
    destruct (N.eqb_spec c 37) as [->|_]; [exfalso; apply H; now left|].
    rewrite IH; [reflexivity|]. intros Hin. apply H. now right. }
  rewrite E. clear E H.
  assert (E : utf8Decode (map Unit s) = Some s).
  { induction s as [|c s IH]; [reflexivity|]. cbn [map utf8Decode]. now rewrite IH. }
  now rewrite E.
Qed.

Lemma city_segments (seg : jsstring) :
  seg <> [] -> ~ In 47%N seg ->
  matchPath [Lit (str "api"); Lit (str "weather"); Param (str "city")]
    (str "/api/weather/" ++ seg) = Some [(str "city", seg)] /\
  matchPath [Lit (str "api"); Lit (str "weather"); Param (str "city")]
    (str "/api/weather/" ++ seg ++ str "/") = Some [(str "city", seg)].
Proof.
  intros Hne Hslash. unfold matchPath.
  assert (Hapi : ~ In 47%N (str "api")) by (simpl; intuition discriminate).
  assert (Hweather : ~ In 47%N (str "weather")) by (simpl; intuition discriminate).
  change (str "/api/weather/" ++ seg)
    with ([] ++ 47%N :: str "api" ++ 47%N :: str "weather" ++ 47%N :: seg).
  change (str "/api/weather/" ++ seg ++ str "/")
    with ([] ++ 47%N :: str "api" ++ 47%N :: str "weather" ++ 47%N :: seg ++ 47%N :: []).
  rewrite !splitPath_slash by (assumption || (intros []) ).
  rewrite (splitPath_segment seg Hslash).
  destruct seg as [|c t]; [contradiction|].
  split; reflexivity.
Qed.


(** X13. The city route at the HTTP surface: a GET (or HEAD) request for
    [/api/weather/<segment>], with or without a final slash, where the
    segment is not empty and holds no [/], runs the lookup by name on the
    decoded segment (on the segment itself when it holds no [%]); when the
    segment cannot be decoded the answer is 400 and no handler runs. *)
Theorem city_paths_run_the_lookup_by_name (req : Request) (seg : jsstring) :
  method req = GET \/ method req = HEAD ->
  pathname req = str "/api/weather/" ++ seg \/
  pathname req = str "/api/weather/" ++ seg ++ str "/" ->
  seg <> [] -> ~ In 47%N seg ->
  (forall city, decodeURIComponent seg = Return city ->
     dispatch req = ToHandler ByCity [(str "city", city)] /\
     forall (CM : CaseMapping) (w : World),
       app w req = runHandler (weatherByCity w city)) /\
  (~ In 37%N seg -> decodeURIComponent seg = Return seg) /\
  (forall e, decodeURIComponent seg = Throw e ->
     dispatch req = DecodeFailed /\
     forall (CM : CaseMapping) (w : World), app w req = (ErrorPage 400, [])).
Proof.
  intros Hm Hpath Hne Hslash.
  destruct (city_segments seg Hne Hslash) as [M1 M2].
  assert (Hmatch : matchPath [Lit (str "api"); Lit (str "weather"); Param (str "city")]
                     (pathname req) = Some [(str "city", seg)]).
  { destruct Hpath as [-> | ->]; assumption. }
  assert (Hstatic : express_static (pathname req) = None).
  { destruct Hpath as [-> | ->]; reflexivity. }
  assert (Hd : dispatch req
               = match decodeURIComponent seg with
                 | Return city => ToHandler ByCity [(str "city", city)]
                 | Throw _ => DecodeFailed
                 end).
  { unfold dispatch. rewrite Hstatic. unfold routes. cbn [firstMatch].
    rewrite Hmatch. cbn [decodeParams].
    destruct Hm as [-> | ->]; destruct (decodeURIComponent seg); reflexivity. }
  split; [|split].
  - intros city Hdec. rewrite Hdec in Hd. split; [assumption|].
    intros CM w. unfold app. rewrite Hd. cbn [param streq].
    reflexivity.
  - apply decodeURIComponent_plain.
  - intros e Hdec. rewrite Hdec in Hd. split; [assumption|].
    intros CM w. unfold app. now rewrite Hd.
Qed.

Lemma city_paths_run_the_lookup_by_name_witness :
  let req := get "/api/weather/New%20York/" [] in
  (method req = GET \/ method req = HEAD) /\
  (pathname req = str "/api/weather/" ++ str "New%20York" \/
   pathname req = str "/api/weather/" ++ str "New%20York" ++ str "/") /\
  str "New%20York" <> [] /\ ~ In 47%N (str "New%20York") /\
  decodeURIComponent (str "New%20York") = Return (str "New York") /\
  dispatch req = ToHandler ByCity [(str "city", str "New York")] /\
  forall (CM : CaseMapping) (w : World),
    app w req = runHandler (weatherByCity w (str "New York")).
Proof.
  intros req.
  assert (Hm : method req = GET \/ method req = HEAD) by (left; reflexivity).
  assert (Hp : pathname req = str "/api/weather/" ++ str "New%20York" \/
               pathname req = str "/api/weather/" ++ str "New%20York" ++ str "/")
    by (right; reflexivity).
  assert (Hne : str "New%20York" <> []) by discriminate.
  assert (Hs : ~ In 47%N (str "New%20York")) by (simpl; intuition discriminate).
  split; [exact Hm|]. split; [exact Hp|]. split; [exact Hne|]. split; [exact Hs|].
  split; [reflexivity|].
  destruct (city_paths_run_the_lookup_by_name req (str "New%20York") Hm Hp Hne Hs)
    as [Hrun _].
  exact (Hrun (str "New York") eq_refl).
Defined.






Example options_on_the_coords_path :
  @app Latin1Case allUp
    {| method := OPTIONS; pathname := str "/api/weather/coords"; query := [] |}
  = (Allowed, []).
Proof. reflexivity. Qed.

(* ===================================================================== *)
(** * Showing the forecast                                               *)
(* ===================================================================== *)

Lemma bind_run {S A B} (m : Comp S A) (k : A -> Comp S B) (s : S) :
  bind m k s
  = match m s with
    | (Return a, s') => k a s'
    | (Throw e, s') => (Throw e, s')
    end.
Proof. reflexivity. Qed.

Lemma bind_lift_Return {S A B} (a : A) (k : A -> Comp S B) (s : S) :
  bind (lift (Return a)) k s = k a s.
Proof. reflexivity. Qed.

Lemma bind_lift_Throw {S A B} (e : Error) (k : A -> Comp S B) (s : S) :
  bind (lift (Throw e)) k s = (Throw e, s).
Proof. reflexivity. Qed.

Lemma bind_modify {S B} (f : S -> S) (k : unit -> Comp S B) (s : S) :
  bind (modify f) k s = k tt (f s).
Proof. reflexivity. Qed.

Section ForecastCards.
Context {E : Engine}.

Lemma forecastLoop_array (items : list json) (remaining : nat) :
  forall (rounds k : nat) (d : Dom),
    remaining < rounds ->
    (List.length items + 7) / 8 - k = remaining ->
    forecastLoop rounds (Some (JArray items)) (N.of_nat (8 * k)) d
    = appendCards
        (map (fun j => nth_error items (8 * j)) (seq k remaining)) d.
Proof.
  induction remaining as [|r IH]; intros rounds k d Hrounds Hrem;
    (destruct rounds as [|rounds']; [lia|]); cbn [forecastLoop belowLength].
  - assert (Hge : (N.of_nat (8 * k) <? N.of_nat (List.length items))%N = false).
    { apply N.ltb_ge.
      assert (List.length items <= 8 * k); [|lia].
      assert ((List.length items + 7) / 8 <= k) as Hk by lia.
      pose proof (Nat.div_mod_eq (List.length items + 7) 8).
      pose proof (Nat.mod_upper_bound (List.length items + 7) 8). lia. }
    rewrite bind_lift_Return, Hge. reflexivity.
  - assert (Hlt : (N.of_nat (8 * k) <? N.of_nat (List.length items))%N = true).
    { apply N.ltb_lt.
      assert (8 * k < List.length items); [|lia].
      assert (k < (List.length items + 7) / 8) as Hk by lia.
      pose proof (Nat.div_mod_eq (List.length items + 7) 8).
      pose proof (Nat.mod_upper_bound (List.length items + 7) 8). lia. }
    cbn [seq map appendCards getIndex].
    rewrite bind_lift_Return, Hlt, bind_lift_Return, Nat2N.id.
    rewrite !(bind_run (forecastCard (nth_error items (8 * k)))).
    destruct (forecastCard (nth_error items (8 * k)) d) as [[card|e] d1]; [|reflexivity].
    rewrite !bind_modify.
    replace (N.of_nat (8 * k) + FORECAST_INTERVAL)%N with (N.of_nat (8 * S k))
      by (unfold FORECAST_INTERVAL; lia).
    apply IH; lia.
Qed.

Lemma appendCards_cards (samples : list value) :
  forall d d' : Dom,
    appendCards samples d = (Return tt, d') ->
    exists cards,
      List.length cards = List.length samples /\
      d' = setForecastCards (forecastCards d ++ cards) d.
Proof.
  induction samples as [|sample more IH]; intros d d'; cbn [appendCards].
  - intros [= <-]. exists []. split; [reflexivity|].
    rewrite app_nil_r. now destruct d.
  - rewrite bind_run.
    assert (Hcard : forall r d1, forecastCard sample d = (r, d1) -> d1 = d).
    { unfold forecastCard, bind, lift, ret. intros r d1.
      repeat match goal with
             | |- context [match ?x with Return _ => _ | Throw _ => _ end] =>
                 destruct x
             end; now intros [= _ <-]. }
    destruct (forecastCard sample d) as [[card|e] d1]; [|discriminate].
    rewrite (Hcard _ _ eq_refl), bind_modify.
    intros H. destruct (IH _ _ H) as (cards & Hlen & ->).
    exists (card :: cards). split; [simpl; now rewrite Hlen|].
    unfold appendCard, setForecastCards. cbn. now rewrite <- app_assoc.
Qed.

End ForecastCards.

(** X15. [displayForecast] on an array shows one card per day: it makes a
    card from the samples at the indices 0, 8, 16, ... and from no other,
    in that order, and appends them to the cards already shown; it stops
    at the first of these samples that yields no card. When it returns it
    has appended as many cards as a length [n] has multiples of 8 below
    it ([(n + 7) / 8], so 5 for the 40 samples of a five-day forecast) and
    has changed nothing else. *)
Theorem displayForecast_shows_every_eighth_sample (E : Engine) (items : list json)
    (d : Dom) :
  displayForecast (Some (JArray items)) d = appendCards (dailySamples items) d /\
  List.length (dailySamples items) = (List.length items + 7) / 8 /\
  (List.length items = 40 -> List.length (dailySamples items) = 5) /\
  (forall d',
     displayForecast (Some (JArray items)) d = (Return tt, d') ->
     exists cards,
       List.length cards = (List.length items + 7) / 8 /\
       d' = setForecastCards (forecastCards d ++ cards) d).
Proof.
  assert (Hlen : List.length (dailySamples items) = (List.length items + 7) / 8).
  { unfold dailySamples. now rewrite length_map, length_seq. }
  assert (Hloop : displayForecast (Some (JArray items)) d
                  = appendCards (dailySamples items) d).
  { unfold displayForecast, dailySamples, roundsBound.
    apply (forecastLoop_array items ((List.length items + 7) / 8)
             (S (List.length items)) 0 d); [|lia].
    pose proof (Nat.div_mod_eq (List.length items + 7) 8).
    pose proof (Nat.mod_upper_bound (List.length items + 7) 8). lia. }
  split; [exact Hloop|]. split; [exact Hlen|]. split.
  - intros H40. rewrite Hlen, H40. reflexivity.
  - intros d' Hrun. rewrite Hloop in Hrun.
    destruct (appendCards_cards _ _ _ Hrun) as (cards & Hc & ->).
    exists cards. split; [congruence | reflexivity].
Qed.

(* ===================================================================== *)
(** * Lookups from the page                                              *)
(* ===================================================================== *)

(** The browser reads [{ error: msg }] back from the body the server
    sent. *)
Lemma parse_errorAnswerText (msg : jsstring) :
  JSON_parse (errorAnswerText msg) = Return (errorBody msg).
Proof.
  unfold JSON_parse, errorAnswerText.
  change (lex LStart (123%N :: ?r)) with (consTok TLBrace (lex LStart r)).
  rewrite lex_quoted.
  change (lex LStart (58%N :: ?r)) with (consTok TColon (lex LStart r)).
  rewrite lex_quoted. reflexivity.
Qed.

Section Frames.
Context {E : Engine}.

Ltac split_results :=
  repeat match goal with
         | |- context [match ?x with Return _ => _ | Throw _ => _ end] => destruct x
         end.

(** [displayCurrentWeather] writes to the four texts of the current
    weather only. *)
Lemma displayCurrentWeather_frame (data : value) (r : Exn unit) (d d' : Dom) :
  displayCurrentWeather data d = (r, d') ->
  page d' = page d /\ errorHidden d' = errorHidden d /\ errorText d' = errorText d /\
  loaderHidden d' = loaderHidden d /\ forecastCards d' = forecastCards d.
Proof.
  unfold displayCurrentWeather, bind, lift, modify.
  split_results; intros [= _ <-]; repeat split.
Qed.

(** Making a card writes nothing. *)
Lemma forecastCard_frame (sample : value) (r : Exn Card) (d d' : Dom) :
  forecastCard sample d = (r, d') -> d' = d.
Proof.
  unfold forecastCard, bind, lift, ret.
  split_results; now intros [= _ <-].
Qed.

(** [displayForecast] writes to the forecast container only. *)
Lemma forecastLoop_frame (v : value) (rounds : nat) :
  forall (i : N) (r : Exn unit) (d d' : Dom),
    forecastLoop rounds v i d = (r, d') ->
    d' = setForecastCards (forecastCards d') d.
Proof.
  induction rounds as [|rounds IH]; intros i r d d'; cbn [forecastLoop].
  - intros [= _ <-]. now destruct d.
  - rewrite bind_run. unfold lift at 1.
    destruct (belowLength i v) as [[|]|e];
      [| intros [= _ <-]; now destruct d | intros [= _ <-]; now destruct d].
    rewrite bind_run. unfold lift at 1.
    destruct (getIndex v i) as [sample|e]; [| intros [= _ <-]; now destruct d].
    rewrite bind_run.
    destruct (forecastCard sample d) as [[card|e] d1] eqn:Hc;
      apply forecastCard_frame in Hc; subst d1;
      [| intros [= _ <-]; now destruct d].
    rewrite bind_modify. intros H. apply IH in H. rewrite H. reflexivity.
Qed.

Lemma displayForecast_frame (v : value) (r : Exn unit) (d d' : Dom) :
  displayForecast v d = (r, d') -> d' = setForecastCards (forecastCards d') d.
Proof. exact (forecastLoop_frame v (roundsBound v) 0%N r d d'). Qed.

End Frames.

Section Lookups.
Context {E : Engine} {CM : CaseMapping}.

Lemma getUserFriendlyError_nonempty (error : Error) :
  getUserFriendlyError error <> [].
Proof.
  unfold getUserFriendlyError.
  destruct (_ || _); [discriminate|].
  destruct (_ || _); [discriminate|].
  destruct (includes _ _); [discriminate|].
  destruct (message error); discriminate.
Qed.

Lemma onPage_frame {A} (m : C A) (r : Exn A) (d d' : Dom) :
  onPage m d = (r, d') -> d' = setPage (page d') d.
Proof.
  unfold onPage. destruct (m (page d)) as [r0 p]. now intros [= _ <-].
Qed.

(** Whatever the outcome of the statements of the [try] block, they leave
    the error container hidden with its text as it was, and the loader
    shown. *)
Lemma fetchAndShow_notices (fetch : jsstring -> FetchReply) (url : jsstring)
    (r : Exn unit) (d d' : Dom) :
  fetchAndShow fetch url d = (r, d') ->
  errorHidden d' = true /\ errorText d' = errorText d /\ loaderHidden d' = false.
Proof.
  unfold fetchAndShow. rewrite !bind_modify.
  set (d0 := setLoaderHidden false _).
  assert (H0 : errorHidden d0 = true /\ errorText d0 = errorText d /\
               loaderHidden d0 = false) by (subst d0; repeat split).
  clearbody d0. destruct (fetch url) as [e|status text].
  { unfold lift. now intros [= _ <-]. }
  destruct (negb (isOk status)).
  { rewrite bind_run. unfold lift at 1.
    destruct (JSON_parse text) as [errorData|e]; [|now intros [= _ <-]].
    rewrite bind_run. unfold lift at 1.
    destruct (getProp (Some errorData) "error") as [error|e]; [|now intros [= _ <-]].
    rewrite bind_run.
    destruct (truthy error); [unfold lift; destruct (converted error) | unfold ret];
      now intros [= _ <-]. }
  rewrite bind_run. unfold lift at 1.
  destruct (JSON_parse text) as [payload|e]; [|now intros [= _ <-]].
  rewrite bind_run. unfold lift at 1.
  destruct (getProp (Some payload) "currentWeather") as [cw|e]; [|now intros [= _ <-]].
  rewrite bind_run. unfold lift at 1.
  destruct (getProp (Some payload) "forecast") as [fc|e]; [|now intros [= _ <-]].
  rewrite bind_run.
  destruct (displayCurrentWeather cw d0) as [[u|e] d1] eqn:H1;
    apply displayCurrentWeather_frame in H1 as (_ & Hh1 & Ht1 & Hl1 & _);
    assert (H1 : errorHidden d1 = true /\ errorText d1 = errorText d /\
                 loaderHidden d1 = false)
      by (rewrite Hh1, Ht1, Hl1; exact H0);
    [| now intros [= _ <-]].
  rewrite bind_run. unfold lift at 1.
  destruct (getProp fc "list") as [lst|e]; [|now intros [= _ <-]].
  rewrite bind_run.
  destruct (displayForecast lst d1) as [[u2|e] d2] eqn:H2;
    apply displayForecast_frame in H2;
    assert (H2' : errorHidden d2 = true /\ errorText d2 = errorText d /\
                  loaderHidden d2 = false)
      by (rewrite H2; exact H1);
    clear H2; [| now intros [= _ <-]].
  rewrite bind_run. unfold lift at 1.
  destruct (getProp cw "name") as [nm|e]; [|now intros [= _ <-]].
  intros H3. apply onPage_frame in H3. rewrite H3. exact H2'.
Qed.

End Lookups.

(** X16. [fetchWeather] never throws and always ends with the loader
    hidden. When the statements of its [try] block return, the error
    container is hidden and keeps its text; when they throw, it is shown
    with the text [getUserFriendlyError] gives for what was thrown, which is
    never empty. *)
Theorem fetchWeather_never_throws (E : Engine) (CM : CaseMapping)
    (fetch : jsstring -> FetchReply) (city : jsstring) (d : Dom) :
  exists d',
    fetchWeather fetch city d = (Return tt, d') /\
    loaderHidden d' = true /\
    match fetchAndShow fetch (str "/api/weather/" ++ city) d with
    | (Return _, _) => errorHidden d' = true /\ errorText d' = errorText d
    | (Throw error, _) =>
        errorHidden d' = false /\ errorText d' = getUserFriendlyError error /\
        errorText d' <> []
    end.
Proof.
  unfold fetchWeather, tryFinally, tryCatch.
  destruct (fetchAndShow fetch (str "/api/weather/" ++ city) d) as [[[]|e] d1] eqn:Hrun.
  - apply fetchAndShow_notices in Hrun as (Hh & Ht & _).
    eexists. split; [reflexivity|]. now repeat split.
  - eexists. split; [reflexivity|]. repeat split.
    apply getUserFriendlyError_nonempty.
Qed.

(** X17. [fetchWeatherByCoords] never throws and never shows an error:
    whatever the answer, it ends with the loader hidden and the error
    container hidden, its text untouched; so it also hides an error that
    was shown before. *)
Theorem fetchWeatherByCoords_is_silent (E : Engine) (CM : CaseMapping)
    (fetch : jsstring -> FetchReply) (lat lon : number) (d : Dom) :
  exists d',
    fetchWeatherByCoords fetch lat lon d = (Return tt, d') /\
    loaderHidden d' = true /\ errorHidden d' = true /\ errorText d' = errorText d.
Proof.
  unfold fetchWeatherByCoords, tryFinally, tryCatch.
  match goal with
  | |- context [fetchAndShow fetch ?url d] =>
      destruct (fetchAndShow fetch url d) as [[[]|e] d1] eqn:Hrun
  end; apply fetchAndShow_notices in Hrun as (Hh & Ht & _);
    (eexists; split; [reflexivity|]; now repeat split).
Qed.

Section ErrorAnswers.
Context {E : Engine} {CM : CaseMapping}.

(** An answer of the lookup by name with a status other than 200 carries
    one of the fixed messages. *)
Lemma weatherByCity_error_answer (w : World) (city : jsstring) (status : N)
    (body : json) (calls : list jsstring) :
  weatherByCity w city [] = (Return (JsonResponse status body), calls) ->
  status <> 200%N ->
  isOk status = false /\
  exists msg,
    body = errorBody msg /\
    (In msg validationMessages \/ exists c, msg = categoryMessage c).
Proof.
  intros Hrun Hst.
  destruct (weatherByCity_cases w city)
    as [(msg & Hbad & Eq) | [(e & _ & Eq) | (q & _ & _ & _ & Eq)]].
  - pose proof (weatherByCity_400_message w city msg [] Eq) as Hin.
    rewrite Eq in Hrun. injection Hrun as <- <- <-.
    split; [reflexivity|]. exists msg. split; [reflexivity | now left].
  - rewrite Eq in Hrun. injection Hrun as <- <- <-.
    split; [reflexivity|]. eexists. split; [reflexivity|]. right.
    apply getErrorMessage_category.
  - rewrite Eq in Hrun.
    match type of Hrun with
    | context [Promise_all ?p1 ?p2] =>
        destruct (joined_answer p1 p2) as [(j1 & j2 & _ & _ & H) | (c & H)]
    end; rewrite H in Hrun; injection Hrun as <- <- <-.
    + now contradiction Hst.
    + split; [reflexivity|]. eexists. split; [reflexivity|]. right. now exists c.
Qed.

(** What [fetchWeather] does with an error answer. *)
Lemma fetchWeather_error_answer (fetch : jsstring -> FetchReply)
    (city msg : jsstring) (status : N) (d : Dom) :
  fetch (str "/api/weather/" ++ city) = Fetched status (errorAnswerText msg) ->
  isOk status = false ->
  msg <> [] ->
  fetchWeather fetch city d
  = (Return tt, failedWith (getUserFriendlyError (mkError msg)) d).
Proof.
  intros Hf Hok Hne. unfold fetchWeather, tryFinally, tryCatch, fetchAndShow.
  rewrite !bind_modify, Hf, Hok. cbn [negb].
  rewrite bind_run. unfold lift at 1. rewrite parse_errorAnswerText.
  rewrite bind_run. unfold lift at 1.
  change (getProp (Some (errorBody msg)) "error") with (Return (Some (JString msg))).
  destruct msg as [|c r]; [contradiction|]. reflexivity.
Qed.

Lemma getUserFriendlyError_ascii (faithful : AsciiFaithful CM) (text : jsstring) :
  isAscii text = true ->
  getUserFriendlyError (mkError text)
  = @getUserFriendlyError {| toLowerCase := map asciiLower |} (mkError text).
Proof.
  intros Ha. unfold getUserFriendlyError. cbn [message toLowerCase].
  now rewrite (lower_ascii CM faithful text Ha).
Qed.

(** The messages of the server, as [getUserFriendlyError] shows them. *)
Lemma shown_server_message (faithful : AsciiFaithful CM) (msg : jsstring) :
  In msg validationMessages \/ (exists c, msg = categoryMessage c) ->
  msg <> [] /\ getUserFriendlyError (mkError msg) = shownFor msg.
Proof.
  intros [Hin | [c ->]].
  - unfold validationMessages in Hin. cbn [map In] in Hin.
    destruct Hin as [<-|[<-|[<-|[<-|[]]]]];
      (split; [discriminate|];
       rewrite (getUserFriendlyError_ascii faithful) by reflexivity;
       vm_compute; reflexivity).
  - destruct c;
      (split; [discriminate|];
       rewrite (getUserFriendlyError_ascii faithful) by reflexivity;
       vm_compute; reflexivity).
Qed.

End ErrorAnswers.

(** X18. The error answers of the lookup by name, as the page shows them
    (under any case mapping that lower-cases ASCII characters one by one):
    whenever the handler answers with a status other than 200, its body is
    [{ error: msg }], and [fetchWeather], given that answer, returns with
    the loader hidden, the forecast emptied, the history and the current
    weather untouched and the error container showing [msg] itself, except
    that the server's "City not found. Please check the spelling." is
    replaced by the page's own text for a city that was not found. *)
Theorem server_errors_are_shown (E : Engine) (CM : CaseMapping) (w : World)
    (city : jsstring) (status : N) (body : json) (calls : list jsstring) :
  AsciiFaithful CM ->
  weatherByCity w city [] = (Return (JsonResponse status body), calls) ->
  status <> 200%N ->
  exists msg,
    body = errorBody msg /\
    forall (fetch : jsstring -> FetchReply) (typed : jsstring) (d : Dom),
      fetch (str "/api/weather/" ++ typed) = Fetched status (errorAnswerText msg) ->
      fetchWeather fetch typed d = (Return tt, failedWith (shownFor msg) d).
Proof.
  intros faithful Hrun Hst.
  destruct (weatherByCity_error_answer w city status body calls Hrun Hst)
    as (Hok & msg & -> & Hmsg).
  destruct (shown_server_message faithful msg Hmsg) as (Hne & Hshown).
  exists msg. split; [reflexivity|]. intros fetch typed d Hf.
  rewrite <- Hshown. exact (fetchWeather_error_answer fetch typed msg status d Hf Hok Hne).
Qed.

Lemma server_errors_are_shown_witness :
  exists msg,
    errorBody (str "City name is required and cannot be empty.") = errorBody msg /\
    forall (fetch : jsstring -> FetchReply) (typed : jsstring) (d : Dom),
      fetch (str "/api/weather/" ++ typed) = Fetched 400 (errorAnswerText msg) ->
      @fetchWeather exampleEngine Latin1Case fetch typed d
      = (Return tt, failedWith (shownFor msg) d).
Proof.
  apply (server_errors_are_shown exampleEngine Latin1Case allUp (str " ") 400
           (errorBody (str "City name is required and cannot be empty.")) []
           Latin1Case_faithful).
  - reflexivity.
  - discriminate.
Defined.

Section Recording.
Context {E : Engine} {CM : CaseMapping}.

(** When [displayCurrentWeather] returns, the heading is the name of its
    argument, followed by the date of the day. *)
Lemma displayCurrentWeather_heading (data : value) (d d' : Dom) :
  displayCurrentWeather data d = (Return tt, d') ->
  exists name,
    getProp data "name" = Return name /\
    cityNameText d' = toText name ++ str " (" ++ today ++ str ")".
Proof.
  unfold displayCurrentWeather. rewrite bind_run. unfold lift at 1.
  destruct (getProp data "name") as [name|e]; [|discriminate].
  intros H. exists name. split; [reflexivity|]. revert H.
  unfold bind, lift, modify.
  repeat match goal with
         | |- context [match ?x with Return _ => _ | Throw _ => _ end] => destruct x
         end; try discriminate; now intros [= <-].
Qed.

(** The statements of the [try] block, for an answer whose current
    weather has a string as its name, on a page with a well-formed
    history: they throw before the history is touched, or record that
    name. *)
Lemma fetchAndShow_outcome (fetch : jsstring -> FetchReply) (url text : jsstring)
    (status : N) (payload : json) (cw : value) (name : jsstring)
    (l : list jsstring) (r : Exn unit) (d d' : Dom) :
  fetch url = Fetched status text ->
  JSON_parse text = Return payload ->
  getProp (Some payload) "currentWeather" = Return cw ->
  getProp cw "name" = Return (Some (JString name)) ->
  storedHistory (page d) = Some l ->
  fetchAndShow fetch url d = (r, d') ->
  match r with
  | Throw _ => page d' = page d
  | Return _ =>
      isOk status = true /\
      page d' = showing (added name l) (page d) /\
      cityNameText d' = name ++ str " (" ++ today ++ str ")"
  end.
Proof.
  intros Hf Hparse Hcw Hname Hhist.
  unfold fetchAndShow. rewrite !bind_modify, Hf.
  set (d0 := setLoaderHidden false _).
  assert (H0 : page d0 = page d) by reflexivity.
  clearbody d0. destruct (isOk status); cbn [negb].
  2:{ rewrite bind_run. unfold lift at 1. rewrite Hparse.
      rewrite bind_run. unfold lift at 1.
      destruct (getProp (Some payload) "error") as [error|e];
        [|unfold lift; now intros [= <- <-]].
      rewrite bind_run.
      destruct (truthy error); [unfold lift; destruct (converted error) | unfold ret];
        now intros [= <- <-]. }
  rewrite bind_run. unfold lift at 1. rewrite Hparse.
  rewrite bind_run. unfold lift at 1. rewrite Hcw.
  rewrite bind_run. unfold lift at 1.
  destruct (getProp (Some payload) "forecast") as [fc|e]; [|now intros [= <- <-]].
  rewrite bind_run.
  destruct (displayCurrentWeather cw d0) as [[[]|e] d1] eqn:H1;
    pose proof (displayCurrentWeather_frame _ _ _ _ H1) as (Hp1 & _);
    [| intros [= <- <-]; now rewrite Hp1].
  apply displayCurrentWeather_heading in H1 as (nm & Hnm & Hheading).
  rewrite Hname in Hnm. injection Hnm as <-. cbn [toText jsonToString] in Hheading.
  rewrite bind_run. unfold lift at 1.
  destruct (getProp fc "list") as [lst|e]; [| intros [= <- <-]; now rewrite Hp1].
  rewrite bind_run.
  destruct (displayForecast lst d1) as [[[]|e] d2] eqn:H2;
    apply displayForecast_frame in H2;
    assert (Hp2 : page d2 = page d) by (rewrite H2; cbn [page setForecastCards]; congruence);
    [| now intros [= <- <-]].
  rewrite bind_run. unfold lift at 1. rewrite Hname.
  cbn [saveToHistory]. unfold onPage.
  rewrite (saveCityToHistory_stored name (page d2) l) by (rewrite Hp2; exact Hhist).
  intros [= <- <-]. split; [reflexivity|]. split.
  - cbn [page setPage]. now rewrite Hp2.
  - rewrite H2. exact Hheading.
Qed.

End Recording.

(** X19. What a lookup records. When the answer to [fetchWeather] is JSON
    whose [currentWeather.name] is a string, and the stored history is an
    array of strings, the lookup either fails, with the error shown and
    the history untouched, or succeeds, with no error shown; in that case
    the heading and the new first entry of the history are the name the
    answer gave, not the text that was searched for. *)
Theorem lookup_records_the_name_of_the_answer (E : Engine) (CM : CaseMapping)
    (fetch : jsstring -> FetchReply) (city text : jsstring) (status : N)
    (payload : json) (cw : value) (name : jsstring) (l : list jsstring) (d : Dom) :
  fetch (str "/api/weather/" ++ city) = Fetched status text ->
  JSON_parse text = Return payload ->
  getProp (Some payload) "currentWeather" = Return cw ->
  getProp cw "name" = Return (Some (JString name)) ->
  storedHistory (page d) = Some l ->
  exists d',
    fetchWeather fetch city d = (Return tt, d') /\
    ((errorHidden d' = false /\ page d' = page d) \/
     (errorHidden d' = true /\ isOk status = true /\
      page d' = showing (added name l) (page d) /\
      cityNameText d' = name ++ str " (" ++ today ++ str ")")).
Proof.
  intros Hf Hparse Hcw Hname Hhist.
  unfold fetchWeather, tryFinally, tryCatch.
  destruct (fetchAndShow fetch (str "/api/weather/" ++ city) d) as [[[]|e] d1] eqn:Hrun;
    pose proof (fetchAndShow_outcome fetch _ text status payload cw name l _ d d1
                  Hf Hparse Hcw Hname Hhist Hrun) as Hout;
    apply fetchAndShow_notices in Hrun as (Hh & _ & _);
    (eexists; split; [reflexivity|]).
  - right. destruct Hout as (Hok & Hp & Hc). now repeat split.
  - left. now split.
Qed.

Lemma lookup_records_the_name_of_the_answer_witness :
  exists d',
    @fetchWeather exampleEngine Latin1Case (fun _ => Fetched 200 exampleAnswer)
      (str "paris") (blankDom (pageStoring ["Oslo"; "PARIS"]%string))
    = (Return tt, d') /\
    ((errorHidden d' = false /\ page d' = page (blankDom (pageStoring ["Oslo"; "PARIS"]%string))) \/
     (errorHidden d' = true /\ isOk 200 = true /\
      page d' = showing (added (str "Paris") (map str ["Oslo"; "PARIS"]%string))
                  (page (blankDom (pageStoring ["Oslo"; "PARIS"]%string))) /\
      cityNameText d' = str "Paris" ++ str " (" ++ @today exampleEngine ++ str ")")).
Proof.
  eapply (lookup_records_the_name_of_the_answer exampleEngine Latin1Case
            (fun _ => Fetched 200 exampleAnswer) (str "paris") exampleAnswer 200).
  - reflexivity.
  - vm_compute. reflexivity.
  - vm_compute. reflexivity.
  - vm_compute. reflexivity.
  - vm_compute. reflexivity.
Defined.

(* ===================================================================== *)
(** * The loop of the forecast ends                                      *)
(* ===================================================================== *)

Lemma str_injective (a b : string) : str a = str b -> a = b.
Proof.
  revert b; induction a as [|x a IH]; intros [|y b]; simpl; try discriminate; auto.
  intros [= Hx Hr]. apply IH in Hr. subst b.
  apply (f_equal ascii_of_N) in Hx. rewrite !ascii_N_embedding in Hx. now subst.
Qed.

Lemma decimal_injective (m n : N) : decimal m = decimal n -> m = n.
Proof.
  unfold decimal. intros H. apply str_injective in H.
  apply (f_equal NilEmpty.uint_of_string) in H. rewrite !NilEmpty.usu in H.
  injection H as H. now apply DecimalN.Unsigned.to_uint_inj.
Qed.

Lemma member_In (ms : list (jsstring * json)) (key : jsstring) (v : json) :
  member ms key = Some v -> In key (map fst ms).
Proof.
  induction ms as [|[k x] ms IH]; cbn [member map fst In]; [discriminate|].
  destruct (streq k key) eqn:Hk.
  - intros _. left. now apply streq_eq.
  - intros H. right. now apply IH.
Qed.

(** An object lacks one of the indices 0, 8, 16, ... up to 8 times the
    number of its members. *)
Lemma object_missing_index (ms : list (jsstring * json)) :
  exists k,
    k < S (List.length ms) /\ member ms (decimal (8 * N.of_nat k)) = None.
Proof.
  assert (scan : forall n,
            (exists k, k < n /\ member ms (decimal (8 * N.of_nat k)) = None) \/
            (forall k, k < n ->
               exists v, member ms (decimal (8 * N.of_nat k)) = Some v)).
  { induction n as [|n [(k & Hk & Hnone) | Hall]].
    - right. intros k Hk. lia.
    - left. exists k. split; [lia | exact Hnone].
    - destruct (member ms (decimal (8 * N.of_nat n))) as [v|] eqn:Hn.
      + right. intros k Hk. assert (k = n \/ k < n) as [-> | Hlt] by lia.
        * now exists v.
        * now apply Hall.
      + left. exists n. split; [lia | exact Hn]. }
  destruct (scan (S (List.length ms))) as [H | Hall]; [exact H|]. exfalso.
  pose (keys := map (fun k => decimal (8 * N.of_nat k)) (seq 0 (S (List.length ms)))).
  assert (Hnodup : NoDup keys).
  { apply NoDup_map_NoDup_ForallPairs; [|apply seq_NoDup].
    intros j k _ _ Hjk. apply decimal_injective in Hjk. lia. }
  assert (Hincl : incl keys (map fst ms)).
  { intros key Hin. apply in_map_iff in Hin as (k & <- & Hk).
    apply in_seq in Hk. destruct (Hall k) as [v Hv]; [lia|].
    exact (member_In ms _ v Hv). }
  pose proof (NoDup_incl_length Hnodup Hincl) as Hlen.
  unfold keys in Hlen. rewrite !length_map, length_seq in Hlen. lia.
Qed.

Section Rounds.
Context {E : Engine}.

(** Rounds after a last round change nothing. *)
Lemma forecastLoop_last (v : value) :
  forall (rounds : nat) (i : N) (more : nat) (d : Dom),
    (exists k, k < rounds /\ lastRound v (i + 8 * N.of_nat k)) ->
    forecastLoop (rounds + more) v i d = forecastLoop rounds v i d.
Proof.
  induction rounds as [|rounds IH]; intros i more d (k & Hk & Hlast); [lia|].
  destruct k as [|k].
  - replace (i + 8 * N.of_nat 0)%N with i in Hlast by lia.
    exact (Hlast (rounds + more) rounds d).
  - assert (Hnext : forall d', forecastLoop (rounds + more) v (i + 8) d'
                               = forecastLoop rounds v (i + 8) d').
    { intros d'. apply IH. exists k. split; [lia|].
      replace (i + 8 + 8 * N.of_nat k)%N with (i + 8 * N.of_nat (S k))%N by lia.
      exact Hlast. }
    cbn [Nat.add forecastLoop]. rewrite !bind_run. unfold lift.
    destruct (belowLength i v) as [[|]|e]; try reflexivity.
    rewrite !bind_run.
    destruct (getIndex v i) as [sample|e]; try reflexivity.
    rewrite !bind_run.
    destruct (forecastCard sample d) as [[card|e] d1]; try reflexivity.
    rewrite !bind_modify. apply Hnext.
Qed.

Lemma lastRound_array (items : list json) (j : N) :
  (N.of_nat (List.length items) <= j)%N -> lastRound (Some (JArray items)) j.
Proof.
  intros Hj rounds rounds' d. cbn [forecastLoop belowLength].
  rewrite !bind_lift_Return.
  now replace (j <? N.of_nat (List.length items))%N with false
    by (symmetry; apply N.ltb_ge; exact Hj).
Qed.

Lemma lastRound_object (ms : list (jsstring * json)) (j : N) :
  member ms (decimal j) = None -> lastRound (Some (JObject ms)) j.
Proof.
  intros Hnone rounds rounds' d. cbn [forecastLoop belowLength getIndex].
  destruct (converted (member ms (str "length"))); [|reflexivity].
  rewrite !bind_lift_Return, Hnone.
  destruct (SFltb _ _); reflexivity.
Qed.

End Rounds.

(** X20. The loop of [displayForecast] ends, whatever its argument: it
    makes at most one round more than an array has elements, a string
    characters or an object members (one round for any other value), so
    that no number of further rounds changes its outcome. An object has
    no member at one of the indices the loop reaches, and the card of a
    missing sample cannot be made. *)
Theorem displayForecast_ends (E : Engine) (forecastList : value) (more : nat) (d : Dom) :
  forecastLoop (roundsBound forecastList + more) forecastList 0 d
  = displayForecast forecastList d.
Proof.
  unfold displayForecast. apply forecastLoop_last.
  destruct forecastList as [[| b | x | s | items | ms]|]; cbn [roundsBound].
  - exists 0. split; [lia|]. intros rounds rounds' d0. reflexivity.
  - exists 0. split; [lia|]. intros rounds rounds' d0. reflexivity.
  - exists 0. split; [lia|]. intros rounds rounds' d0. reflexivity.
  - exists 0. split; [lia|]. intros rounds rounds' d0. destruct s; reflexivity.
  - exists (List.length items). split; [lia|]. apply lastRound_array. lia.
  - destruct (object_missing_index ms) as (k & Hk & Hnone).
    exists k. split; [exact Hk|]. now apply lastRound_object.
  - exists 0. split; [lia|]. intros rounds rounds' d0. reflexivity.
Qed.

(* ===================================================================== *)
(** * The bundle on the wire                                             *)
(* ===================================================================== *)

Lemma json_induction (P : json -> Prop) :
  P JNull -> (forall b, P (JBool b)) -> (forall x, P (JNumber x)) ->
  (forall s, P (JString s)) ->
  (forall items, Forall P items -> P (JArray items)) ->
  (forall members, Forall (fun member => P (snd member)) members ->
     P (JObject members)) ->
  forall v, P v.
Proof.
  intros Hnull Hbool Hnum Hstr Harr Hobj.
  fix IH 1. intros [| b | x | s | items | members].
  - exact Hnull.
  - apply Hbool.
  - apply Hnum.
  - apply Hstr.
  - apply Harr. induction items as [|item items IHitems]; constructor;
      [apply IH | exact IHitems].
  - apply Hobj. induction members as [|member members IHmembers]; constructor;
      [apply IH | exact IHmembers].
Qed.

Lemma sameNumber_eq (x y : number) : sameNumber x y = true -> x = y.
Proof.
  destruct x as [a|a| |a m e], y as [b|b| |b n f]; cbn [sameNumber];
    try discriminate; intros H.
  - apply Bool.eqb_prop in H. now subst.
  - apply Bool.eqb_prop in H. now subst.
  - reflexivity.
  - apply andb_prop in H as [H He]. apply andb_prop in H as [Hs Hm].
    apply Bool.eqb_prop in Hs. apply Pos.eqb_eq in Hm. apply Z.eqb_eq in He.
    now subst.
Qed.

(** ** The scanner on a serialised value *)

Lemma wordChar_start (c : N) :
  isWordChar c = true ->
  isJSONSpace c = false /\ (c =? 34)%N = false /\ punctuator c = None.
Proof.
  intros H.
  assert (Hc : (48 <= c <= 57 \/ 97 <= c <= 122 \/ 65 <= c <= 90
                \/ c = 43 \/ c = 45 \/ c = 46)%N).
  { unfold isWordChar, isDigit in H.
    repeat (apply orb_prop in H as [H|H]);
      try (apply andb_prop in H as [H1 H2]; apply N.leb_le in H1, H2; lia);
      try (apply N.eqb_eq in H; lia). }
  unfold isJSONSpace, punctuator.
  repeat match goal with
         | |- context [(c =? ?k)%N] =>
             destruct (N.eqb_spec c k); [exfalso; lia|]
         end.
  auto.
Qed.

Lemma lex_word_more (w : jsstring) :
  forall (acc rest : jsstring),
    forallb isWordChar w = true -> delimited rest ->
    lex (LWord acc) (w ++ rest) = consTok (TLiteral (rev acc ++ w)) (lex LStart rest).
Proof.
  induction w as [|c w IH]; intros acc rest Hw Hrest.
  - rewrite app_nil_r. cbn [List.app].
    destruct rest as [|d r]; [reflexivity|].
    cbn [delimited] in Hrest. destruct Hrest as [-> | [-> | ->]]; reflexivity.
  - cbn [forallb] in Hw. apply andb_prop in Hw as [Hc Hw].
    rewrite <- app_comm_cons. cbn [lex]. rewrite Hc.
    rewrite (IH (c :: acc) rest Hw Hrest). cbn [rev].
    now rewrite <- app_assoc.
Qed.

Lemma lex_word (w rest : jsstring) :
  w <> [] -> forallb isWordChar w = true -> delimited rest ->
  lex LStart (w ++ rest) = option_map (List.app [TLiteral w]) (lex LStart rest).
Proof.
  intros Hne Hw Hrest. destruct w as [|c w]; [contradiction|].
  cbn [forallb] in Hw. apply andb_prop in Hw as [Hc Hw].
  destruct (wordChar_start c Hc) as (Hspace & Hquote & Hpunct).
  rewrite <- app_comm_cons. cbn [lex]. rewrite Hspace, Hquote, Hpunct, Hc.
  rewrite (lex_word_more w [c] rest Hw Hrest).
  cbn [rev List.app]. destruct (lex LStart rest); reflexivity.
Qed.

Lemma lex_joined (closer : N) (closing : token) (rest : jsstring) :
  (forall r, lex LStart (closer :: r) = consTok closing (lex LStart r)) ->
  closer = 93%N \/ closer = 125%N ->
  forall (texts : list jsstring) (toks : list (list token)),
    Forall2 (fun text ts =>
               forall rest', delimited rest' ->
                 lex LStart (text ++ rest') = option_map (List.app ts) (lex LStart rest'))
      texts toks ->
    lex LStart (joinComma texts ++ closer :: rest)
    = option_map (List.app (joinTokens toks ++ [closing])) (lex LStart rest).
Proof.
  intros Hclose Hcloser texts toks H.
  assert (Hdelim : forall r, delimited (closer :: r)).
  { intros r. cbn. tauto. }
  induction H as [|text ts texts toks Hhead Htail IH].
  - cbn [joinComma joinTokens List.app]. rewrite Hclose.
    destruct (lex LStart rest); reflexivity.
  - destruct Htail as [|text2 ts2 texts toks Hsecond Htail].
    + cbn [joinComma joinTokens]. rewrite (Hhead _ (Hdelim rest)), Hclose.
      destruct (lex LStart rest); cbn [consTok option_map]; [|reflexivity].
      now rewrite <- app_assoc.
    + change (joinComma (text :: text2 :: texts))
        with (text ++ 44%N :: joinComma (text2 :: texts)).
      change (joinTokens (ts :: ts2 :: toks))
        with (ts ++ TComma :: joinTokens (ts2 :: toks)).
      rewrite <- app_assoc, <- app_comm_cons.
      rewrite Hhead by (cbn; tauto).
      change (lex LStart (44%N :: ?r)) with (consTok TComma (lex LStart r)).
      rewrite IH. destruct (lex LStart rest); cbn [consTok option_map]; [|reflexivity].
      now rewrite <- !app_assoc.
Qed.

Lemma ownProperties_unindexed {A} (members : list (jsstring * A)) :
  forallb unindexed members = true -> ownProperties members = members.
Proof.
  intros H. unfold ownProperties.
  assert (Hsorted : fold_right
                      (fun member sorted =>
                         match arrayIndex (fst member) with
                         | Some n => insertByIndex n member sorted
                         | None => sorted
                         end) [] members = []).
  { induction members as [|member members IH]; [reflexivity|].
    cbn [forallb] in H. apply andb_prop in H as [Hm H].
    cbn [fold_right]. rewrite (IH H). unfold unindexed in Hm.
    destruct (arrayIndex (fst member)); [discriminate | reflexivity]. }
  rewrite Hsorted. cbn [map List.app].
  induction members as [|member members IH]; [reflexivity|].
  cbn [forallb] in H. apply andb_prop in H as [Hm H].
  cbn [filter]. unfold unindexed in Hm.
  destruct (arrayIndex (fst member)); [discriminate|].
  f_equal. apply IH; [exact H|].
  clear -H. induction members as [|m ms IHm]; [reflexivity|].
  cbn [forallb] in H. apply andb_prop in H as [Hm H]. cbn [fold_right].
  rewrite (IHm H). unfold unindexed in Hm.
  destruct (arrayIndex (fst m)); [discriminate | reflexivity].
Qed.

Lemma unindexed_map {A B} (f : A -> B) (members : list (jsstring * A)) :
  forallb unindexed (map (fun member => (fst member, f (snd member))) members)
  = forallb unindexed members.
Proof.
  induction members as [|member members IH]; [reflexivity|].
  cbn [map forallb]. now rewrite IH.
Qed.

Section OnTheWire.
Context {NS : NumberToString}.

Lemma readsBack_text (x : number) :
  readsBack x = true ->
  numberToJSON x <> [] /\ forallb isWordChar (numberToJSON x) = true /\
  literalValue (numberToJSON x) = Some (JNumber x).
Proof.
  destruct x as [negative|negative| |negative m e]; cbn [readsBack numberToJSON];
    try discriminate.
  - destruct negative; [discriminate|]. intros _. repeat split. discriminate.
  - intros H. apply andb_prop in H as [Hword Hvalue].
    destruct (finiteToString (S754_finite negative m e)) as [|c text] eqn:Htext;
      [discriminate|].
    split; [discriminate|]. split; [exact Hword|].
    destruct (literalValue (c :: text)) as [[| | y | | |]|]; try discriminate.
    apply sameNumber_eq in Hvalue. now subst.
Qed.

Lemma lex_value :
  forall v : json,
    plain v = true ->
    forall rest, delimited rest ->
      lex LStart (stringifyValue v ++ rest)
      = option_map (List.app (tokensOf v)) (lex LStart rest).
Proof.
  induction v as [| b | x | s | items IH | members IH] using json_induction;
    intros Hplain rest Hrest.
  - apply lex_word; [discriminate | reflexivity | exact Hrest].
  - destruct b; (apply lex_word; [discriminate | reflexivity | exact Hrest]).
  - cbn [plain] in Hplain. destruct (readsBack_text x Hplain) as (Hne & Hword & _).
    cbn [stringifyValue tokensOf]. now apply lex_word.
  - cbn [stringifyValue tokensOf]. rewrite lex_quoted.
    destruct (lex LStart rest); reflexivity.
  - cbn [plain] in Hplain. cbn [stringifyValue tokensOf].
    rewrite <- app_comm_cons, <- app_assoc. cbn [List.app].
    change (lex LStart (91%N :: ?r)) with (consTok TLBracket (lex LStart r)).
    rewrite (lex_joined 93 TRBracket rest (fun r => eq_refl) (or_introl eq_refl)
               (map stringifyValue items) (map tokensOf items)).
    + destruct (lex LStart rest); reflexivity.
    + induction IH as [|item items Hitem _ IHitems]; [constructor|].
      cbn [forallb] in Hplain. apply andb_prop in Hplain as [Hp Hrestp].
      cbn [map]. constructor; [now apply Hitem | now apply IHitems].
  - cbn [plain] in Hplain. apply andb_prop in Hplain as [Hkeys Hvalues].
    apply andb_prop in Hkeys as [_ Hunindexed].
    cbn [stringifyValue tokensOf].
    rewrite ownProperties_unindexed by (now rewrite unindexed_map).
    rewrite map_map. cbn [fst snd].
    rewrite <- app_comm_cons, <- app_assoc. cbn [List.app].
    change (lex LStart (123%N :: ?r)) with (consTok TLBrace (lex LStart r)).
    rewrite (lex_joined 125 TRBrace rest (fun r => eq_refl) (or_intror eq_refl)
               (map (fun member => quoteJSONString (fst member) ++ 58%N
                                   :: stringifyValue (snd member)) members)
               (map (fun member => TString (fst member) :: TColon
                                   :: tokensOf (snd member)) members)).
    + destruct (lex LStart rest); reflexivity.
    + clear Hunindexed.
      induction IH as [|member members Hmember _ IHmembers]; [constructor|].
      cbn [forallb] in Hvalues. apply andb_prop in Hvalues as [Hp Hrestp].
      cbn [map]. constructor; [|now apply IHmembers].
      intros rest' Hrest'. rewrite <- app_assoc, lex_quoted, <- app_comm_cons.
      change (lex LStart (58%N :: ?r)) with (consTok TColon (lex LStart r)).
      rewrite (Hmember Hp rest' Hrest').
      destruct (lex LStart rest'); reflexivity.
Qed.



(** ** The parser on the tokens of a fixture *)

Lemma distinct_NoDup (keys : list jsstring) : distinct keys = true -> NoDup keys.
Proof.
  induction keys as [|key more IH]; [constructor|].
  cbn [distinct]. intros H. apply andb_prop in H as [Hkey Hmore].
  constructor; [|now apply IH].
  intros Hin. apply negb_true_iff in Hkey.
  assert (Hex : existsb (streq key) more = true).
  { apply existsb_exists. exists key. split; [exact Hin | now apply streq_eq]. }
  congruence.
Qed.

Lemma setProperty_new (ms : list (jsstring * json)) (k : jsstring) (v : json) :
  ~ In k (map fst ms) -> setProperty ms k v = ms ++ [(k, v)].
Proof.
  induction ms as [|[k' v'] ms IH]; intros Hnew; [reflexivity|].
  cbn [setProperty]. cbn [map fst In] in Hnew.
  destruct (streq k' k) eqn:Hk.
  - apply streq_eq in Hk. tauto.
  - rewrite IH by tauto. reflexivity.
Qed.

Lemma objectOf_distinct (members : list (jsstring * json)) :
  NoDup (map fst members) -> objectOf members = JObject members.
Proof.
  unfold objectOf. intros H. f_equal.
  assert (Hfold : forall before,
            NoDup (map fst (before ++ members)) ->
            fold_left (fun o kv => setProperty o (fst kv) (snd kv)) members before
            = before ++ members).
  { clear H. induction members as [|[k v] members IH]; intros before H.
    - now rewrite app_nil_r.
    - cbn [fold_left fst snd]. rewrite setProperty_new.
      + rewrite IH; rewrite <- app_assoc; [reflexivity | exact H].
      + rewrite map_app in H. cbn [map fst] in H.
        apply NoDup_remove_2 in H. intros Hin. apply H.
        apply in_or_app. now left. }
  exact (Hfold [] H).
Qed.

Lemma joinTokens_cons (p : list token) (ps : list (list token)) :
  joinTokens (p :: ps) = p ++ flat_map (fun x => TComma :: x) ps.
Proof.
  revert p; induction ps as [|q ps IH]; intros p.
  - cbn. now rewrite app_nil_r.
  - change (joinTokens (p :: q :: ps)) with (p ++ TComma :: joinTokens (q :: ps)).
    now rewrite IH.
Qed.

Lemma pda_value :
  forall v : json,
    plain v = true ->
    forall (st : pstate) (stack : list frame) (ts : list token),
      takesValue st stack ->
      pda st (tokensOf v ++ ts) = pda (pushValue stack v) ts.
Proof.
  induction v as [| b | x | s | items IH | members IH] using json_induction;
    intros Hplain st stack ts Htakes.
  - cbn [tokensOf List.app pda]. rewrite Htakes by discriminate. reflexivity.
  - destruct b; cbn [tokensOf List.app pda]; rewrite Htakes by discriminate;
      reflexivity.
  - cbn [plain] in Hplain. destruct (readsBack_text x Hplain) as (_ & _ & Hvalue).
    cbn [tokensOf List.app pda]. rewrite Htakes by discriminate.
    cbn [valueStart]. now rewrite Hvalue.
  - cbn [tokensOf List.app pda]. rewrite Htakes by discriminate. reflexivity.
  - cbn [plain] in Hplain. cbn [tokensOf]. rewrite <- app_comm_cons. cbn [pda].
    rewrite Htakes by discriminate. cbn [valueStart].
    destruct items as [|first items]; [reflexivity|].
    cbn [map]. rewrite joinTokens_cons, <- !app_assoc.
    inversion IH as [|? ? Hfirst Hitems]; subst.
    cbn [forallb] in Hplain. apply andb_prop in Hplain as [Hp Hps].
    rewrite (Hfirst Hp (PFirstElem stack) (FArray [] :: stack)).
    2:{ intros t Ht. destruct t; try reflexivity. contradiction. }
    cbn [pushValue].
    assert (Hloop : forall acc,
              pda (PArrNext stack acc)
                (flat_map (fun x => TComma :: x) (map tokensOf items)
                 ++ TRBracket :: ts)
              = pda (pushValue stack (JArray (rev acc ++ items))) ts).
    { clear Hfirst Hp IH. induction Hitems as [|item items Hitem _ IHitems]; intros acc.
      - cbn. now rewrite app_nil_r.
      - cbn [forallb] in Hps. apply andb_prop in Hps as [Hp Hps].
        cbn [map flat_map]. rewrite <- !app_comm_cons. cbn [pda pstep].
        rewrite <- app_assoc.
        rewrite (Hitem Hp (PValue (FArray acc :: stack)) (FArray acc :: stack))
          by (intros t _; reflexivity).
        cbn [pushValue]. rewrite (IHitems Hps (item :: acc)). cbn [rev].
        now rewrite <- app_assoc. }
    change ([TRBracket] ++ ts) with (TRBracket :: ts). exact (Hloop [first]).
  - cbn [plain] in Hplain. apply andb_prop in Hplain as [Hkeys Hvalues].
    apply andb_prop in Hkeys as [Hdistinct _]. apply distinct_NoDup in Hdistinct.
    cbn [tokensOf]. rewrite <- app_comm_cons. cbn [pda].
    rewrite Htakes by discriminate. cbn [valueStart].
    destruct members as [|[k v] members]; [reflexivity|].
    cbn [map fst snd]. rewrite joinTokens_cons, <- !app_assoc.
    inversion IH as [|? ? Hfirst Hmembers]; subst. cbn [snd] in Hfirst.
    cbn [forallb snd] in Hvalues. apply andb_prop in Hvalues as [Hp Hps].
    rewrite <- !app_comm_cons. cbn [pda pstep].
    rewrite (Hfirst Hp (PValue (FObject [] k :: stack)) (FObject [] k :: stack))
      by (intros t _; reflexivity).
    cbn [pushValue].
    assert (Hloop : forall acc,
              pda (PObjNext stack acc)
                (flat_map (fun x => TComma :: x)
                   (map (fun member => TString (fst member) :: TColon
                                       :: tokensOf (snd member)) members)
                 ++ TRBrace :: ts)
              = pda (pushValue stack (objectOf (rev acc ++ members))) ts).
    { clear Hfirst Hp Hdistinct IH.
      induction Hmembers as [|member members Hmember _ IHmembers]; intros acc.
      - cbn. now rewrite app_nil_r.
      - cbn [forallb] in Hps. apply andb_prop in Hps as [Hp Hps].
        cbn [map flat_map]. rewrite <- !app_comm_cons. cbn [pda pstep].
        rewrite <- app_assoc.
        rewrite (Hmember Hp (PValue (FObject acc (fst member) :: stack))
                   (FObject acc (fst member) :: stack))
          by (intros t _; reflexivity).
        cbn [pushValue]. rewrite (IHmembers Hps ((fst member, snd member) :: acc)).
        cbn [rev]. rewrite <- app_assoc. now destruct member. }
    change (TRBrace :: [] ++ ts) with (TRBrace :: ts).
    rewrite (Hloop [(k, v)]). cbn [rev List.app].
    now rewrite (objectOf_distinct _ Hdistinct).
Qed.

(** [JSON.parse(JSON.stringify(v))] is [v], for every fixture. *)
Lemma parse_stringifyValue (v : json) :
  plain v = true -> JSON_parse (stringifyValue v) = Return v.
Proof.
  intros Hplain. unfold JSON_parse.
  rewrite <- (app_nil_r (stringifyValue v)), (lex_value v Hplain [] I).
  cbn [lex option_map]. rewrite (pda_value v Hplain (PValue []) [] []).
  - reflexivity.
  - intros t _. reflexivity.
Qed.

End OnTheWire.

(** The serialisation of an array of strings. *)
Lemma stringifyValue_strings (NS : NumberToString) (l : list jsstring) :
  stringifyValue (JArray (map JString l)) = JSON_stringify l.
Proof.
  cbn [stringifyValue]. unfold JSON_stringify. rewrite map_map. reflexivity.
Qed.

(** The body sent with an error answer. *)
Lemma sentBody_errorBody (NS : NumberToString) (status : N) (msg : jsstring) :
  sentBody (JsonResponse status (errorBody msg)) = Some (errorAnswerText msg).
Proof.
  unfold sentBody, errorBody, errorAnswerText. cbn [stringifyValue map fst snd].
  rewrite ownProperties_unindexed by reflexivity.
  cbn [map joinComma fst snd]. now rewrite <- !app_assoc.
Qed.

Section PassingThrough.
Context {NS : NumberToString} {CM : CaseMapping}.

Lemma stringifyValue_bundle (j1 j2 : json) :
  stringifyValue (bundle j1 j2) = bundleText (stringifyValue j1) (stringifyValue j2).
Proof.
  unfold bundle, bundleText, quoted. cbn [stringifyValue map fst snd].
  rewrite ownProperties_unindexed by reflexivity.
  cbn [map joinComma fst snd]. rewrite <- !app_assoc. reflexivity.
Qed.

(** A lookup whose current conditions are [null] fails. *)
Lemma weatherByCity_null (w : World) (city q : jsstring) (chunks1 : list jsstring) :
  strlen (trim city) <> 0%N -> (strlen (trim city) <= 100)%N ->
  encodeURIComponent (trim city) = Return q ->
  respond w (currentWeatherUrlFor w q) = End 200 chunks1 ->
  JSON_parse (accumulate chunks1) = Return JNull ->
  exists msg,
    weatherByCity w city []
    = (Return (JsonResponse 500 (errorBody msg)),
       [currentWeatherUrlFor w q; forecastUrlFor w q]).
Proof.
  intros Hne Hle Henc Hr1 Hp1.
  destruct (weatherByCity_cases w city)
    as [(msg & Hbad & _) | [(e & Henc' & _) | (q' & _ & _ & Henc' & Hrun)]].
  - exfalso. destruct Hbad as [H|H].
    + apply N.eqb_eq in H. contradiction.
    + apply N.ltb_lt in H. lia.
  - congruence.
  - assert (q' = q) by congruence. subst q'. rewrite Hrun.
    rewrite Hr1, (settle_End_200 _ _ Hp1). unfold Promise_all. cbn [outcome].
    destruct (settle (respond w (forecastUrlFor w q))); eexists; reflexivity.
Qed.

End PassingThrough.

(** C10, as the code has it. A lookup by name that answers 200 hands to
    [res.json] the object [{ currentWeather: j1, forecast: j2 }], where
    [j1] and [j2] are what [JSON.parse] makes of the texts accumulated
    from the chunks of the two upstream answers, and sends it serialised
    anew; when the numbers of [j1] and [j2] read back and their objects
    have no array index among their keys, the body sent parses to
    [{ currentWeather: j1, forecast: j2 }]. For fixtures that are written
    as [JSON.stringify] writes them, whose numbers read back and whose
    objects have distinct keys that are no array indices, the body sent
    holds the two upstream texts as they came, and parses to the two
    fixtures. Current conditions that are [null] make the lookup fail. *)
Theorem weatherByCity_passes_upstream_through (NS : NumberToString)
    (CM : CaseMapping) (w : World) :
  (forall (city : jsstring) (body : json) (calls : list jsstring),
     weatherByCity w city [] = (Return (JsonResponse 200 body), calls) ->
     exists q chunks1 chunks2 j1 j2,
       encodeURIComponent (trim city) = Return q /\
       calls = [currentWeatherUrlFor w q; forecastUrlFor w q] /\
       respond w (currentWeatherUrlFor w q) = End 200 chunks1 /\
       JSON_parse (accumulate chunks1) = Return j1 /\
       respond w (forecastUrlFor w q) = End 200 chunks2 /\
       JSON_parse (accumulate chunks2) = Return j2 /\
       j1 <> JNull /\
       body = bundle j1 j2 /\
       sentBody (JsonResponse 200 body)
       = Some (bundleText (stringifyValue j1) (stringifyValue j2)) /\
       (plain j1 = true -> plain j2 = true ->
        JSON_parse (bundleText (stringifyValue j1) (stringifyValue j2))
        = Return (bundle j1 j2))) /\
  (forall (city q : jsstring) (chunks1 chunks2 : list jsstring) (v1 v2 : json),
     strlen (trim city) <> 0%N -> (strlen (trim city) <= 100)%N ->
     encodeURIComponent (trim city) = Return q ->
     respond w (currentWeatherUrlFor w q) = End 200 chunks1 ->
     respond w (forecastUrlFor w q) = End 200 chunks2 ->
     plain v1 = true -> plain v2 = true -> v1 <> JNull ->
     accumulate chunks1 = stringifyValue v1 ->
     accumulate chunks2 = stringifyValue v2 ->
     weatherByCity w city []
     = (Return (JsonResponse 200 (bundle v1 v2)),
        [currentWeatherUrlFor w q; forecastUrlFor w q]) /\
     sentBody (JsonResponse 200 (bundle v1 v2))
     = Some (bundleText (accumulate chunks1) (accumulate chunks2)) /\
     JSON_parse (bundleText (accumulate chunks1) (accumulate chunks2))
     = Return (bundle v1 v2)) /\
  (forall (city q : jsstring) (chunks1 : list jsstring),
     strlen (trim city) <> 0%N -> (strlen (trim city) <= 100)%N ->
     encodeURIComponent (trim city) = Return q ->
     respond w (currentWeatherUrlFor w q) = End 200 chunks1 ->
     JSON_parse (accumulate chunks1) = Return JNull ->
     exists msg,
       weatherByCity w city []
       = (Return (JsonResponse 500 (errorBody msg)),
          [currentWeatherUrlFor w q; forecastUrlFor w q])).
Proof.
  split; [|split].
  - intros city body calls Hrun.
    destruct (weatherByCity_cases w city)
      as [(msg & _ & E) | [(e & _ & E) | (q & _ & _ & Henc & E)]];
      rewrite E in Hrun; try discriminate.
    injection Hrun as Hres <-.
    destruct (Promise_all _ _) as [[cw fc]|e] eqn:Hall; [|discriminate].
    destruct (readProperty cw "name") eqn:Hname; [|discriminate].
    injection Hres as <-.
    apply Promise_all_Return in Hall as [H1 H2]. cbn [outcome] in H1, H2.
    apply settle_Return in H1 as (chunks1 & Hr1 & Hp1).
    apply settle_Return in H2 as (chunks2 & Hr2 & Hp2).
    exists q, chunks1, chunks2, cw, fc. repeat split; try assumption.
    + intros ->. discriminate Hname.
    + cbn [sentBody]. f_equal. apply stringifyValue_bundle.
    + intros Hp1' Hp2'. rewrite <- stringifyValue_bundle. apply parse_stringifyValue.
      unfold bundle. cbn [plain map fst snd forallb]. now rewrite Hp1', Hp2'.
  - intros city q chunks1 chunks2 v1 v2 Hne Hle Henc Hr1 Hr2 Hp1 Hp2 Hnull Ha1 Ha2.
    assert (Hparse1 : JSON_parse (accumulate chunks1) = Return v1)
      by (rewrite Ha1; now apply parse_stringifyValue).
    assert (Hparse2 : JSON_parse (accumulate chunks2) = Return v2)
      by (rewrite Ha2; now apply parse_stringifyValue).
    split; [|split].
    + destruct (weatherByCity_cases w city)
        as [(msg & Hbad & _) | [(e & Henc' & _) | (q' & _ & _ & Henc' & Hrun)]].
      * exfalso. destruct Hbad as [H|H].
        -- apply N.eqb_eq in H. contradiction.
        -- apply N.ltb_lt in H. lia.
      * congruence.
      * assert (q' = q) by congruence. subst q'. rewrite Hrun.
        rewrite Hr1, Hr2, (settle_End_200 _ _ Hparse1), (settle_End_200 _ _ Hparse2).
        cbn [Promise_all outcome]. now rewrite readProperty_not_null.
    + cbn [sentBody]. now rewrite stringifyValue_bundle, Ha1, Ha2.
    + rewrite Ha1, Ha2, <- stringifyValue_bundle. apply parse_stringifyValue.
      unfold bundle. cbn [plain map fst snd forallb]. now rewrite Hp1, Hp2.
  - intros city q chunks1. apply weatherByCity_null.
Qed.

Lemma weatherByCity_passes_upstream_through_witness :
  let u1 := currentWeatherUrlFor londonUp (str "London") in
  let u2 := forecastUrlFor londonUp (str "London") in
  let chunks1 := [firstn 10 londonText; skipn 10 londonText] in
  let chunks2 := [firstn 3 noForecastText; skipn 3 noForecastText] in
  @weatherByCity Latin1Case londonUp (str " London ") []
  = (Return (JsonResponse 200 (bundle london noForecast)), [u1; u2]) /\
  @sentBody integersOnly (JsonResponse 200 (bundle london noForecast))
  = Some (bundleText (accumulate chunks1) (accumulate chunks2)) /\
  JSON_parse (bundleText (accumulate chunks1) (accumulate chunks2))
  = Return (bundle london noForecast).
Proof.
  intros u1 u2 chunks1 chunks2.
  destruct (weatherByCity_passes_upstream_through integersOnly Latin1Case londonUp)
    as (_ & Hthrough & _).
  apply (Hthrough (str " London ") (str "London") chunks1 chunks2 london noForecast).
  - discriminate.
  - vm_compute. discriminate.
  - reflexivity.
  - reflexivity.
  - reflexivity.
  - vm_compute. reflexivity.
  - reflexivity.
  - discriminate.
  - vm_compute. reflexivity.
  - vm_compute. reflexivity.
Defined.

(** C10 as stated fails: the two upstream bodies are not returned
    verbatim. A field that upstream writes as the number [1e400], which
    [JSON.parse] reads as [Infinity], is sent as [null]. *)
Lemma weatherByCity_reshapes_a_number :
  let farSighted :=
    JObject [(str "name", JString (str "London"));
             (str "visibility", JNumber (S754_infinity false))] in
  let sent :=
    str "{" ++ quoted "currentWeather" ++ str ":{" ++ quoted "name" ++ str ":"
    ++ quoted "London" ++ str "," ++ quoted "visibility" ++ str ":null},"
    ++ quoted "forecast" ++ str ":" ++ noForecastText ++ str "}" in
  respond farSightedUp (currentWeatherUrlFor farSightedUp (str "London"))
  = End 200 [farSightedText] /\
  JSON_parse farSightedText = Return farSighted /\
  fst (@weatherByCity Latin1Case farSightedUp (str "London") [])
  = Return (JsonResponse 200 (bundle farSighted noForecast)) /\
  @sentBody integersOnly (JsonResponse 200 (bundle farSighted noForecast)) = Some sent /\
  sent <> bundleText farSightedText noForecastText /\
  JSON_parse sent
  = Return (bundle (JObject [(str "name", JString (str "London"));
                             (str "visibility", JNull)]) noForecast) /\
  JSON_parse sent <> Return (bundle farSighted noForecast).
Proof.
  intros farSighted sent.
  split; [reflexivity|]. split; [vm_compute; reflexivity|].
  split; [vm_compute; reflexivity|]. split; [vm_compute; reflexivity|].
  split; [vm_compute; discriminate|]. split; [vm_compute; reflexivity|].
  vm_compute. discriminate.
Qed.
